(** * TennisNow: listing normalisation, date grouping and venue matching

    A shallow embedding of the data-transforming core of the crawler:

    - [crawler/WebTrac/parse_webtrac_listing.py]: the time-slot pattern
      [TIME_RE] and the two listing normalisers;
    - [crawler/WebTrac/fetch_schedule.py]: the table-first, card-second
      selection made by [fetch_schedule];
    - [crawler/Xplor/xplor_schedule_fetcher.py] and
      [crawler/Facilitron/facilitron_agenda_analyzer.py]: grouping of raw
      availability objects by calendar date;
    - [crawler/enrich_with_places.py]: candidate scoring and the distance
      gates of the enrichment driver, name normalisation and the text
      query;
    - [crawler/WebTrac/fetch_all_cities.py]: the choice of the cities of a
      run and of the query mode of a city;
    - [crawler/Xplor/xplor_schedule_fetcher.py]: the look-up of a facility
      and of its city in the configuration.

    Conventions of the embedding.  Python [str] values are [string]s whose
    characters are read as the code points U+0000 to U+00FF; the character
    classes below are Python's classes restricted to that range.  A function
    that can raise returns [option], [None] standing for the exception.
    Numbers are exact rationals: the rounding of binary floating point and
    the values [NaN] and [Infinity], which [json.loads] accepts, are outside
    the embedding, and a statement that would depend on them is made for
    string dates or for bounds that rounding does not move. *)

From Stdlib Require Import Bool List Arith NArith ZArith QArith Qminmax Lia Lqa.
From Stdlib Require Import Ascii String Permutation.
Import ListNotations.

Close Scope Q_scope.
Set Warnings "-register-all".
Open Scope string_scope.
Open Scope list_scope.

(** ** Characters and strings *)

Module Text.

Definition code (c : ascii) : N := N_of_ascii c.

Definition in_range (lo hi : N) (c : ascii) : bool :=
  ((lo <=? code c) && (code c <=? hi))%N.

(** [\d] on [str] patterns: the decimal digits. *)
Definition is_digit (c : ascii) : bool := in_range 48 57 c.

(** [str.isspace], which is also [\s] and what [str.strip] removes:
    tab to carriage return, the four separators U+001C..U+001F, space,
    U+0085 and the no-break space. *)
Definition is_space (c : ascii) : bool :=
  in_range 9 13 c || in_range 28 32 c
  || (code c =? 133)%N || (code c =? 160)%N.

Definition is_upper_ascii (c : ascii) : bool := in_range 65 90 c.

(** Upper-case letters of the range that [str.lower] maps 32 places up. *)
Definition is_upper (c : ascii) : bool :=
  is_upper_ascii c || (in_range 192 222 c && negb (code c =? 215)%N).

Definition lower_char (c : ascii) : ascii :=
  if is_upper c then ascii_of_N (code c + 32) else c.

(** [\w]: alphanumeric characters and the underscore. *)
Definition is_word (c : ascii) : bool :=
  is_digit c || in_range 65 90 c || in_range 97 122 c || (code c =? 95)%N
  || (code c =? 170)%N || (code c =? 178)%N || (code c =? 179)%N
  || (code c =? 181)%N || (code c =? 185)%N || (code c =? 186)%N
  || in_range 188 190 c
  || (in_range 192 255 c && negb (code c =? 215)%N && negb (code c =? 247)%N).

Fixpoint lower (s : string) : string :=
  match s with
  | EmptyString => EmptyString
  | String c s' => String (lower_char c) (lower s')
  end.

Fixpoint lstrip (s : string) : string :=
  match s with
  | String c s' => if is_space c then lstrip s' else s
  | EmptyString => EmptyString
  end.

(** Trailing white space removed: a character is kept when something
    non-blank follows it or it is itself non-blank. *)
Fixpoint rstrip (s : string) : string :=
  match s with
  | EmptyString => EmptyString
  | String c s' =>
      match rstrip s' with
      | EmptyString => if is_space c then EmptyString else String c EmptyString
      | t => String c t
      end
  end.

(** [str.strip()] *)
Definition strip (s : string) : string := rstrip (lstrip s).

Definition is_empty (s : string) : bool :=
  match s with EmptyString => true | _ => false end.

(** [sub in s] for two strings *)
Fixpoint contains (sub s : string) : bool :=
  String.prefix sub s
  || match s with
     | EmptyString => false
     | String _ s' => contains sub s'
     end.

(** [c in s] for a single character *)
Fixpoint has_char (c : ascii) (s : string) : bool :=
  match s with
  | EmptyString => false
  | String d s' => Ascii.eqb c d || has_char c s'
  end.

(** [sep.join(parts)] *)
Definition join (sep : string) (parts : list string) : string :=
  String.concat sep parts.

(** [s.split(sep)[0]] for a one-character separator *)
Fixpoint before_char (sep : ascii) (s : string) : string :=
  match s with
  | EmptyString => EmptyString
  | String c s' =>
      if Ascii.eqb c sep then EmptyString else String c (before_char sep s')
  end.

(** The rest of [s] after the first [sep], when there is one. *)
Fixpoint after_char (sep : ascii) (s : string) : option string :=
  match s with
  | EmptyString => None
  | String c s' => if Ascii.eqb c sep then Some s' else after_char sep s'
  end.

(** [s.split(sep)[0]] and the text after the first [sep], for a separator
    of any length. *)
Fixpoint before_sub (sep s : string) : string :=
  if String.prefix sep s then EmptyString
  else match s with
       | EmptyString => EmptyString
       | String c s' => String c (before_sub sep s')
       end.

Fixpoint after_sub (sep s : string) : option string :=
  if String.prefix sep s
  then Some (String.substring (String.length sep)
               (String.length s - String.length sep) s)
  else match s with
       | EmptyString => None
       | String _ s' => after_sub sep s'
       end.

(** White-space separated tokens: [re.findall(r"\S+", s)], which is how a
    [class] attribute is turned into its list of tokens. *)
Fixpoint tokens_aux (cur : string) (s : string) : list string :=
  match s with
  | EmptyString => if is_empty cur then [] else [cur]
  | String c s' =>
      if is_space c
      then (if is_empty cur then tokens_aux EmptyString s'
            else cur :: tokens_aux EmptyString s')
      else tokens_aux (cur ++ String c EmptyString) s'
  end.

Definition tokens (s : string) : list string := tokens_aux EmptyString s.

(** [str.isidentifier()]: a letter or an underscore, then letters, digits,
    underscores and the middle dot. *)
Definition is_id_start (c : ascii) : bool :=
  in_range 65 90 c || in_range 97 122 c || (code c =? 95)%N
  || (code c =? 170)%N || (code c =? 181)%N || (code c =? 186)%N
  || (in_range 192 255 c && negb (code c =? 215)%N && negb (code c =? 247)%N).

Definition is_id_continue (c : ascii) : bool :=
  is_id_start c || is_digit c || (code c =? 183)%N.

Fixpoint all_chars (p : ascii -> bool) (s : string) : bool :=
  match s with
  | EmptyString => true
  | String c s' => p c && all_chars p s'
  end.

Definition is_identifier (s : string) : bool :=
  match s with
  | EmptyString => false
  | String c s' => is_id_start c && all_chars is_id_continue s'
  end.

End Text.

(** ** Regular expressions

    The fragment of Python's [re] that the crawler's patterns use.  A match
    attempt returns every way the pattern can match a prefix of the input,
    most preferred first (alternatives left to right, quantifiers greedy),
    so the head of the list is the match a backtracking engine reports and
    the whole list is what [fullmatch] may backtrack through.  Each result
    is the unread rest of the input together with the character just before
    it, which [\b] looks at. *)

Module Regex.
Import Text.

Inductive regex : Type :=
| Eps : regex
| Chr (p : ascii -> bool) : regex              (* one character of a class *)
| Cat (r1 r2 : regex) : regex
| Alt (r1 r2 : regex) : regex
| Opt (r : regex) : regex                      (* r? *)
| Rep (p : ascii -> bool) (lo hi : nat) : regex  (* p{lo,hi} *)
| Many (p : ascii -> bool) (lo : nat) : regex    (* p{lo,}: "*" and "+" *)
| WordB : regex.                               (* \b *)

Definition result : Type := (option ascii * string)%type.

Definition word_before (prev : option ascii) : bool :=
  match prev with Some c => is_word c | None => false end.

Definition word_after (s : string) : bool :=
  match s with String c _ => is_word c | EmptyString => false end.

Fixpoint rep (p : ascii -> bool) (lo hi : nat) (prev : option ascii)
    (s : string) : list result :=
  match hi with
  | O => if Nat.eqb lo 0 then [(prev, s)] else []
  | S hi' =>
      match s with
      | String c s' => if p c then rep p (Nat.pred lo) hi' (Some c) s' else []
      | EmptyString => []
      end
      ++ (if Nat.eqb lo 0 then [(prev, s)] else [])
  end.

Fixpoint many (p : ascii -> bool) (lo : nat) (prev : option ascii)
    (s : string) : list result :=
  match s with
  | String c s' => if p c then many p (Nat.pred lo) (Some c) s' else []
  | EmptyString => []
  end
  ++ (if Nat.eqb lo 0 then [(prev, s)] else []).

Fixpoint rmatch (r : regex) (prev : option ascii) (s : string)
    : list result :=
  match r with
  | Eps => [(prev, s)]
  | Chr p =>
      match s with
      | String c s' => if p c then [(Some c, s')] else []
      | EmptyString => []
      end
  | Cat r1 r2 =>
      flat_map (fun x => rmatch r2 (fst x) (snd x)) (rmatch r1 prev s)
  | Alt r1 r2 => rmatch r1 prev s ++ rmatch r2 prev s
  | Opt r1 => rmatch r1 prev s ++ [(prev, s)]
  | Rep p lo hi => rep p lo hi prev s
  | Many p lo => many p lo prev s
  | WordB => if xorb (word_before prev) (word_after s) then [(prev, s)] else []
  end.

(** [pattern.fullmatch(s)], as a truth value. *)
Definition fullmatch (r : regex) (s : string) : bool :=
  existsb (fun x => is_empty (snd x)) (rmatch r None s).

(** [pattern.search(s)]: the leftmost position at which the pattern
    matches, as the text before the match, the matched text ([group(0)])
    and the text after it. *)
Fixpoint search_from (r : regex) (prev : option ascii) (before s : string)
    : option (string * string * string) :=
  match rmatch r prev s with
  | (_, rest) :: _ =>
      Some (before,
            String.substring 0 (String.length s - String.length rest) s,
            rest)
  | [] =>
      match s with
      | EmptyString => None
      | String c s' => search_from r (Some c) (before ++ String c EmptyString) s'
      end
  end.

Definition search (r : regex) (s : string)
    : option (string * string * string) :=
  search_from r None EmptyString s.

(** [pattern.sub(repl, s)] for a pattern that matches no empty string:
    matches are taken left to right and do not overlap.  [skip] counts the
    characters of the current match still to be dropped. *)
Fixpoint sub_from (r : regex) (repl : string) (prev : option ascii)
    (skip : nat) (s : string) : string :=
  match s with
  | EmptyString => EmptyString
  | String c s' =>
      match skip with
      | S k => sub_from r repl (Some c) k s'
      | O =>
          match rmatch r prev s with
          | (_, rest) :: _ =>
              match String.length s - String.length rest with
              | S k => repl ++ sub_from r repl (Some c) k s'
              | O => String c (sub_from r repl (Some c) 0 s')
              end
          | [] => String c (sub_from r repl (Some c) 0 s')
          end
      end
  end.

Definition sub (r : regex) (repl s : string) : string :=
  sub_from r repl None 0 s.

(** A literal character, and the same under [re.I]. *)
Definition chr (c : ascii) : regex := Chr (Ascii.eqb c).
Definition chri (c : ascii) : regex :=
  Chr (fun d => Ascii.eqb (lower_char d) (lower_char c)).

Fixpoint lit (s : string) : regex :=
  match s with
  | EmptyString => Eps
  | String c s' => Cat (chr c) (lit s')
  end.

Fixpoint liti (s : string) : regex :=
  match s with
  | EmptyString => Eps
  | String c s' => Cat (chri c) (liti s')
  end.

Fixpoint seq (rs : list regex) : regex :=
  match rs with
  | [] => Eps
  | r :: rs' => Cat r (seq rs')
  end.

Fixpoint alts (r : regex) (rs : list regex) : regex :=
  match rs with
  | [] => r
  | r' :: rs' => Alt r (alts r' rs')
  end.

End Regex.

(** ** The time-slot pattern *)

Module Slot.
Import Text Regex.

(** [(?:am|pm)] under [re.I] *)
Definition ampm : regex := Alt (liti "am") (liti "pm").

(** One side of a range: [\d{1,2}:\d{2}\s*(?:am|pm)] *)
Definition clock : regex :=
  seq [Rep is_digit 1 2; chr ":"; Rep is_digit 2 2; Many is_space 0; ampm].

(** [TIME_RE = re.compile(
      r"\b\d{1,2}:\d{2}\s*(?:am|pm)\s*-\s*\d{1,2}:\d{2}\s*(?:am|pm)\b",
      re.I)] *)
Definition TIME_RE : regex :=
  seq [WordB; clock; Many is_space 0; chr "-"; Many is_space 0; clock; WordB].

Definition is_slot (s : string) : bool := fullmatch TIME_RE s.

End Slot.

(** ** Parsed documents

    The tree that [BeautifulSoup(html, "html.parser")] hands to the
    normalisers: elements with lower-case tag and attribute names, and the
    text nodes that [get_text] collects.  The normalisers are functions of
    this tree. *)

Module Dom.
Import Text Regex.

Inductive node : Type :=
| TextNode (s : string) : node
| Elem (tag : string) (attrs : list (string * string)) (children : list node)
    : node.

Definition is_elem (n : node) : bool :=
  match n with Elem _ _ _ => true | TextNode _ => false end.

Definition tag_of (n : node) : string :=
  match n with Elem t _ _ => t | TextNode _ => EmptyString end.

Definition children_of (n : node) : list node :=
  match n with Elem _ _ cs => cs | TextNode _ => [] end.

Fixpoint assoc (k : string) (l : list (string * string)) : option string :=
  match l with
  | [] => None
  | (k', v) :: l' => if String.eqb k k' then Some v else assoc k l'
  end.

(** [tag.get(name)] *)
Definition get_attr (name : string) (n : node) : option string :=
  match n with Elem _ attrs _ => assoc name attrs | TextNode _ => None end.

(** [tag.get(name, "")] *)
Definition attr_or_empty (name : string) (n : node) : string :=
  match get_attr name n with Some v => v | None => EmptyString end.

(** [tag.get("class", [])]: the class attribute is a list of tokens. *)
Definition class_list (n : node) : list string :=
  match get_attr "class" n with Some v => tokens v | None => [] end.

Definition has_class (c : string) (n : node) : bool :=
  existsb (String.eqb c) (class_list n).

Definition has_tag (t : string) (n : node) : bool :=
  is_elem n && String.eqb (tag_of n) t.

(** The elements strictly below a node, in document order. *)
Fixpoint descendants (n : node) : list node :=
  match n with
  | TextNode _ => []
  | Elem _ _ cs =>
      flat_map (fun c => if is_elem c then c :: descendants c else []) cs
  end.

(** The same, each with its chain of ancestors, nearest first; [above] is
    the chain of the starting node, itself included. *)
Fixpoint located_descendants (above : list node) (n : node)
    : list (list node * node) :=
  match n with
  | TextNode _ => []
  | Elem _ _ cs =>
      flat_map (fun c =>
                  if is_elem c
                  then (above, c) :: located_descendants (c :: above) c
                  else []) cs
  end.

(** A parsed document: the top-level nodes of the [BeautifulSoup] object,
    which itself is no element and carries no attribute. *)
Definition document : Type := list node.

(** Every element of a document, in document order; and each with its
    ancestors. *)
Definition elements (doc : document) : list node :=
  flat_map (fun c => if is_elem c then c :: descendants c else []) doc.

Definition located_elements (doc : document) : list (list node * node) :=
  flat_map (fun c =>
              if is_elem c then ([], c) :: located_descendants [c] c else [])
    doc.

(** The text nodes below a node, in document order. *)
Fixpoint strings (n : node) : list string :=
  match n with
  | TextNode s => [s]
  | Elem _ _ cs => flat_map strings cs
  end.

(** [tag.get_text(strip=True)]: every text node stripped, the empty ones
    dropped, the rest concatenated. *)
Definition get_text_strip (n : node) : string :=
  String.concat EmptyString
    (filter (fun t => negb (is_empty t)) (map strip (strings n))).

(** [tag.find_all(..)] and [tag.find(..)] over the descendants. *)
Definition find_all (p : node -> bool) (n : node) : list node :=
  filter p (descendants n).

Definition find (p : node -> bool) (n : node) : option node :=
  List.find p (descendants n).

(** [tag.find_all(name, recursive=False)] *)
Definition find_children (t : string) (n : node) : list node :=
  filter (has_tag t) (children_of n).

Definition attr_is (name value : string) (n : node) : bool :=
  match get_attr name n with
  | Some v => String.eqb v value
  | None => false
  end.

Definition attr_contains (name part : string) (n : node) : bool :=
  match get_attr name n with
  | Some v => contains part v
  | None => false
  end.

(** An attribute filter given as a compiled pattern: [pattern.search]
    on the attribute's value. *)
Definition attr_search (name : string) (r : regex) (n : node) : bool :=
  match get_attr name n with
  | Some v => match search r v with Some _ => true | None => false end
  | None => false
  end.

(** A descendant-combinator selector [s1 s2 .. sn] against an element and
    its ancestors: [steps] lists [s(n-1) .. s1], nearest first. *)
Fixpoint under (steps : list (node -> bool)) (above : list node) : bool :=
  match steps with
  | [] => true
  | p :: steps' =>
      (fix up (l : list node) : bool :=
         match l with
         | [] => false
         | a :: l' => if p a then under steps' l' else up l'
         end) above
  end.

End Dom.

(** ** The listing normalisers ([parse_webtrac_listing.py]) *)

Module Listing.
Import Text Regex Dom Slot.

(** One output dictionary. *)
Record facility : Type := mkFacility {
  fmid : option string;
  label : option string;
  location : option string;
  available_slots : list string;
  unavailable_slots : list string
}.

(** [re.search(r"[?&]FMID=(\d+)", href)] and its [group(1)]: the matched
    text without the six characters that precede the digits. *)
Definition FMID_RE : regex :=
  seq [Chr (fun c => Ascii.eqb c "?" || Ascii.eqb c "&"); lit "FMID=";
       Many is_digit 1].

Definition fmid_of_href (href : string) : option string :=
  match search FMID_RE href with
  | Some (_, matched, _) =>
      Some (String.substring 6 (String.length matched - 6) matched)
  | None => None
  end.

(** [if link and link.has_attr("href"): m = re.search(..); if m: ..] *)
Definition fmid_of_link (link : option node) : option string :=
  match link with
  | Some l =>
      match get_attr "href" l with
      | Some href => fmid_of_href href
      | None => None
      end
  | None => None
  end.

(** What one [a.cart-button] adds to the two lists. *)
Inductive contribution : Type :=
| Available (time_txt : string)
| Unavailable (time_txt : string)
| Nothing.

(** [classes = " ".join(a.get("class", [])).lower()] *)
Definition classes_of (a : node) : string := lower (join " " (class_list a)).

(** [tooltip = a.get("data-tooltip", "").lower()] *)
Definition tooltip_of (a : node) : string :=
  lower (attr_or_empty "data-tooltip" a).

Definition available_test (a : node) : bool :=
  contains "success" (classes_of a) && contains "book now" (tooltip_of a).

Definition unavailable_test (a : node) : bool :=
  contains "error" (classes_of a) && contains "unavailable" (tooltip_of a).

(** The body of the loop over the anchors, the same in both normalisers. *)
Definition classify (a : node) : contribution :=
  if available_test a then
    let time_txt := get_text_strip a in
    if is_slot time_txt then Available time_txt else Nothing
  else if unavailable_test a then
    match find_all (has_tag "span") a with
    | sp :: _ =>
        let time_txt := get_text_strip sp in
        if is_slot time_txt then Unavailable time_txt else Nothing
    | [] => Nothing
    end
  else Nothing.

(** One turn of the loop on the pair [(available, unavailable)]. *)
Definition add_slot (acc : list string * list string) (a : node)
    : list string * list string :=
  match classify a with
  | Available t => (fst acc ++ [t], snd acc)
  | Unavailable t => (fst acc, snd acc ++ [t])
  | Nothing => acc
  end.

Definition collect_slots (anchors : list node) : list string * list string :=
  fold_left add_slot anchors ([], []).

(** [tag.select("a.cart-button")] *)
Definition cart_buttons (n : node) : list node :=
  find_all (fun a => has_tag "a" a && has_class "cart-button" a) n.

(** *** Card layout *)

(** [card.select_one('a[href*="iteminfo.html?"][href*="FMID="]')] *)
Definition card_link (card : node) : option node :=
  find (fun a => has_tag "a" a && attr_contains "href" "iteminfo.html?" a
                 && attr_contains "href" "FMID=" a) card.

(** [card.select_one(
      '.header.result-header .result-header__info h2 span')]; the ancestors
    that the selector names may lie above the card. *)
Definition card_header (above : list node) (card : node) : option node :=
  option_map snd
    (List.find
       (fun x =>
          has_tag "span" (snd x)
          && under [has_tag "h2"; has_class "result-header__info";
                    fun e => has_class "header" e && has_class "result-header" e]
                   (fst x))
       (located_descendants (card :: above) card)).

Definition card_record (above : list node) (card : node) : facility :=
  let fmid := fmid_of_link (card_link card) in
  let label :=
    match card_header above card with
    | Some header =>
        let t := get_text_strip header in
        if is_empty t then None else Some t
    | None => None
    end in
  let location :=
    match find (fun td => has_tag "td" td
                          && attr_is "data-title" "Location Description" td)
               card with
    | Some loc_label => Some (get_text_strip loc_label)
    | None => None
    end in
  let slots := collect_slots (cart_buttons card) in
  mkFacility fmid label location (fst slots) (snd slots).

(** [soup.find(id="frwebsearch_nextgencontrolsgroup")], kept with its
    ancestors. *)
Definition find_container (soup : document) : option (list node * node) :=
  List.find (fun x => attr_is "id" "frwebsearch_nextgencontrolsgroup" (snd x))
    (located_elements soup).

Definition parse_listing_group_schedules (soup : document) : list facility :=
  match find_container soup with
  | None => []
  | Some (above, container) =>
      map (fun x => card_record (fst x) (snd x))
        (filter (fun x => has_class "result-content" (snd x))
           (located_descendants (container :: above) container))
  end.

(** *** Table layout *)

(** [re.compile(r"iteminfo\.html\?", re.I)] *)
Definition ITEMINFO_RE : regex := liti "iteminfo.html?".

Definition falsy (v : option string) : bool :=
  match v with None => true | Some t => is_empty t end.

(** The loop over the label cells, on the pair [(facility, location)]. *)
Definition read_label_cell (acc : option string * option string) (td : node)
    : option string * option string :=
  let title := attr_or_empty "data-title" td in
  if String.eqb title "Facility Description" && falsy (fst acc)
  then (Some (get_text_strip td), snd acc)
  else if String.eqb title "Location Description" && falsy (snd acc)
  then (fst acc, Some (get_text_strip td))
  else acc.

Definition label_cells_of (row : node) : list node :=
  find_all (fun td => has_tag "td" td && has_class "label-cell" td) row.

(** One facility block: the facility row and, when there is one, the row
    that follows it. *)
Definition table_record (row : node) (cart_row : option node) : facility :=
  let names := fold_left read_label_cell (label_cells_of row) (None, None) in
  let details_link :=
    find (fun a => has_tag "a" a && attr_search "href" ITEMINFO_RE a) row in
  let slots :=
    match cart_row with
    | Some r => collect_slots (cart_buttons r)
    | None => ([], [])
    end in
  mkFacility (fmid_of_link details_link) (fst names) (snd names)
    (fst slots) (snd slots).

(** The [while i < len(rows)] loop: a row without label cells is skipped
    ([i += 1]); a facility row is consumed with its successor ([i += 2]). *)
Fixpoint table_rows (rows : list node) : list facility :=
  match rows with
  | [] => []
  | row :: rest =>
      match label_cells_of row with
      | [] => table_rows rest
      | _ :: _ =>
          match rest with
          | [] => [table_record row None]
          | cart_row :: rest' =>
              table_record row (Some cart_row) :: table_rows rest'
          end
      end
  end.

Definition find_table (soup : document) : option node :=
  List.find
    (fun t => has_tag "table" t && attr_is "id" "frwebsearch_output_table" t)
    (elements soup).

Definition find_tbody (table : node) : option node :=
  find (has_tag "tbody") table.

Definition parse_listing_table_schedules (soup : document) : list facility :=
  match find_table soup with
  | None => []
  | Some table =>
      match find_tbody table with
      | None => []
      | Some tbody => table_rows (find_children "tr" tbody)
      end
  end.

(** *** The selection made by [fetch_schedule] ([fetch_schedule.py]) *)

(** [items = parse_listing_table_schedules(html)];
    [if not items: items = parse_listing_group_schedules(html)] *)
Definition select_items (soup : document) : list facility :=
  match parse_listing_table_schedules soup with
  | [] => parse_listing_group_schedules soup
  | items => items
  end.

(** A record after [it.update({"date": .., "source": ..})]. *)
Record tagged : Type := mkTagged {
  item : facility;
  date : string;
  source : string
}.

(** [base_url.split('//')[1].split('.')[0] + "_webtrac"]; [IndexError]
    when the URL has no [//]. *)
Definition source_tag (base_url : string) : option string :=
  match after_sub "//" base_url with
  | Some rest =>
      Some (before_char "." (before_sub "//" rest) ++ "_webtrac")%string
  | None => None
  end.

(** The part of [fetch_schedule] that follows the download: the items
    selected, each updated with the date and the source; the source is
    computed inside the loop, for each item. *)
Definition fetch_schedule (soup : document) (date_ymd base_url : string)
    : option (list tagged) :=
  match select_items soup with
  | [] => Some []
  | items =>
      match source_tag base_url with
      | Some src => Some (map (fun it => mkTagged it date_ymd src) items)
      | None => None
      end
  end.

End Listing.

(** ** JSON values

    What [json.loads] produces: [None], booleans, numbers, strings, lists
    and dictionaries with string keys in insertion order.  The operations
    are Python's on such values; those that raise on some operand types
    return [None] there. *)

Module Json.
Import Text.

(** The values that [json.loads] returns, a number of finite value as the
    exact rational it is.  [NaN] and the infinities are no values of this
    type. *)
Inductive json : Type :=
| JNull : json
| JBool (b : bool) : json
| JNum (q : Q) : json
| JStr (s : string) : json
| JArr (items : list json) : json
| JObj (fields : list (string * json)) : json.

Definition obj : Type := list (string * json).

Fixpoint lookup (k : string) (fields : obj) : option json :=
  match fields with
  | [] => None
  | (k', v) :: rest => if String.eqb k k' then Some v else lookup k rest
  end.

Definition has_key (k : string) (fields : obj) : bool :=
  match lookup k fields with Some _ => true | None => false end.

Fixpoint chars (s : string) : list json :=
  match s with
  | EmptyString => []
  | String c s' => JStr (String c EmptyString) :: chars s'
  end.

(** [bool(x)] *)
Definition truthy (x : json) : bool :=
  match x with
  | JNull => false
  | JBool b => b
  | JNum q => negb (Qeq_bool q 0)
  | JStr s => negb (is_empty s)
  | JArr l => match l with [] => false | _ => true end
  | JObj fs => match fs with [] => false | _ => true end
  end.

(** [k in x] for a string [k]: a key of a dictionary, an element of a
    list, a substring of a string; [TypeError] otherwise. *)
Definition py_in (k : string) (x : json) : option bool :=
  match x with
  | JObj fs => Some (has_key k fs)
  | JArr l =>
      Some (existsb (fun e => match e with
                              | JStr s => String.eqb s k
                              | _ => false
                              end) l)
  | JStr s => Some (contains k s)
  | _ => None
  end.

(** [x[k]] for a string [k]: [KeyError] or [TypeError] when it fails. *)
Definition py_getitem (k : string) (x : json) : option json :=
  match x with
  | JObj fs => lookup k fs
  | _ => None
  end.

(** What [for e in x] runs through. *)
Definition py_iter (x : json) : option (list json) :=
  match x with
  | JArr l => Some l
  | JObj fs => Some (map (fun kv => JStr (fst kv)) fs)
  | JStr s => Some (chars s)
  | _ => None
  end.

(** [len(x)] *)
Definition py_len (x : json) : option nat :=
  match x with
  | JArr l => Some (List.length l)
  | JObj fs => Some (List.length fs)
  | JStr s => Some (String.length s)
  | _ => None
  end.

(** [x[0]]: a dictionary from [json.loads] has no key [0]. *)
Definition py_first (x : json) : option json :=
  match x with
  | JArr (e :: _) => Some e
  | JStr (String c _) => Some (JStr (String c EmptyString))
  | _ => None
  end.

Definition of_nat (n : nat) : json := JNum (inject_Z (Z.of_nat n)).

(** Numbers as dictionary keys and in comparisons: [True] is [1]. *)
Definition as_number (x : json) : option Q :=
  match x with
  | JNum q => Some q
  | JBool b => Some (if b then 1%Q else 0%Q)
  | _ => None
  end.

(** [hash(x)] is defined. *)
Definition hashable (x : json) : bool :=
  match x with JArr _ | JObj _ => false | _ => true end.

(** [a == b] between two hashable values. *)
Definition key_eqb (a b : json) : bool :=
  match a, b with
  | JStr s, JStr t => String.eqb s t
  | JNull, JNull => true
  | _, _ =>
      match as_number a, as_number b with
      | Some p, Some q => Qeq_bool p q
      | _, _ => false
      end
  end.

(** [a <= b]: strings by code points, numbers by value; [TypeError]
    between the two kinds. *)
Definition key_leb (a b : json) : option bool :=
  match a, b with
  | JStr s, JStr t => Some (String.leb s t)
  | _, _ =>
      match as_number a, as_number b with
      | Some p, Some q => Some (Qle_bool p q)
      | _, _ => None
      end
  end.

(** [a < b] *)
Definition key_ltb (a b : json) : option bool :=
  match a, b with
  | JStr s, JStr t => Some (String.ltb s t)
  | _, _ =>
      match as_number a, as_number b with
      | Some p, Some q => Some (negb (Qle_bool q p))
      | _, _ => None
      end
  end.

End Json.

(** The exception monad of the JSON code. *)
Definition bind {A B : Type} (x : option A) (f : A -> option B) : option B :=
  match x with Some a => f a | None => None end.

Notation "x <- e ;; k" := (bind e (fun x => k))
  (at level 61, e at next level, right associativity).

(** ** Grouping by date ([xplor_schedule_fetcher.py],
       [facilitron_agenda_analyzer.py]) *)

Module Grouping.
Import Text Json.

(** The dictionary [availabilities_by_date]: keys in insertion order, each
    with the list appended to. *)
Definition groups : Type := list (json * list json).

(** [if d not in by_date: by_date[d] = []] then [by_date[d].append(a)] *)
Fixpoint add_member (d a : json) (g : groups) : groups :=
  match g with
  | [] => [(d, [a])]
  | (k, ms) :: rest =>
      if key_eqb k d then (k, ms ++ [a]) :: rest
      else (k, ms) :: add_member d a rest
  end.

(** [for field in date_fields: if field in availability: ..; break] *)
Fixpoint first_present (date_fields : list string) (a : obj) : option json :=
  match date_fields with
  | [] => None
  | field :: more =>
      match lookup field a with
      | Some date_value => Some date_value
      | None => first_present more a
      end
  end.

(** The date of one object, [JNull] standing for [None]; [of_string] is
    what the loop does with a string value. *)
Definition resolve_date (date_fields : list string)
    (of_string : string -> string) (a : obj) : json :=
  match first_present date_fields a with
  | Some (JStr s) => JStr (of_string s)
  | Some (JObj fs) =>
      match lookup "date" fs with Some v => v | None => JNull end
  | _ => JNull
  end.

(** One turn of the grouping loop; an unhashable date raises. *)
Definition group_step (date_of : obj -> json) (acc : option groups)
    (a : json) : option groups :=
  g <- acc ;;
  match a with
  | JObj fs =>
      let d := date_of fs in
      if truthy d
      then (if hashable d then Some (add_member d a g) else None)
      else Some g
  | _ => Some g
  end.

Definition group_by_date (date_of : obj -> json) (items : list json)
    : option groups :=
  fold_left (group_step date_of) items (Some []).

(** [sorted(by_date.items())]: the keys are pairwise different, so the
    pairs are ordered by their keys.  Comparing a string with a number
    raises, and a sort of keys of both kinds meets such a pair. *)
Fixpoint insert_group (x : json * list json) (g : groups) : option groups :=
  match g with
  | [] => Some [x]
  | y :: rest =>
      le <- key_leb (fst x) (fst y) ;;
      if le then Some (x :: y :: rest)
      else (r <- insert_group x rest ;; Some (y :: r))
  end.

Fixpoint sort_groups (g : groups) : option groups :=
  match g with
  | [] => Some []
  | x :: rest => s <- sort_groups rest ;; insert_group x s
  end.

(** [min(keys)] and [max(keys)] for a non-empty dictionary. *)
Fixpoint py_min (cur : json) (ks : list json) : option json :=
  match ks with
  | [] => Some cur
  | k :: more =>
      lt <- key_ltb k cur ;; py_min (if lt then k else cur) more
  end.

Fixpoint py_max (cur : json) (ks : list json) : option json :=
  match ks with
  | [] => Some cur
  | k :: more =>
      gt <- key_ltb cur k ;; py_max (if gt then k else cur) more
  end.

Definition date_range (g : groups) : option json :=
  match map fst g with
  | [] => Some (JObj [("start", JNull); ("end", JNull)])
  | k :: ks =>
      lo <- py_min k ks ;;
      hi <- py_max k ks ;;
      Some (JObj [("start", lo); ("end", hi)])
  end.

(** The groups put back into one list, in their order. *)
Definition flatten (g : groups) : list json := flat_map snd g.

(** The grouping and sorting part of both parsers. *)
Definition grouped (date_of : obj -> json) (items : list json)
    : option groups :=
  g <- group_by_date date_of items ;; sort_groups g.

(** The result dictionary, with the parser's own key names. *)
Definition render (list_key members_key count_key total_key : string)
    (total : nat) (by_date sorted : groups) : option json :=
  range <- date_range by_date ;;
  Some (JObj
    [(list_key,
      JArr (map (fun dg =>
                   JObj [("date", fst dg);
                         (members_key, JArr (snd dg));
                         (count_key, of_nat (List.length (snd dg)))])
                sorted));
     (total_key, of_nat total);
     ("total_dates", of_nat (List.length sorted));
     ("date_range", range)]).

(** The part shared by the two parsers once the list of raw objects has
    been taken out of the payload; [sample] is what printing the sample of
    the first object may raise. *)
Definition parse_items (date_of : obj -> json) (sample : json -> option unit)
    (no_data : string)
    (list_key members_key count_key total_key : string) (found : json)
    : option json :=
  total <- py_len found ;;
  if negb (truthy found) then Some (JObj [("error", JStr no_data)])
  else
    first <- py_first found ;;
    _ <- sample first ;;
    items <- py_iter found ;;
    by_date <- group_by_date date_of items ;;
    sorted <- sort_groups by_date ;;
    render list_key members_key count_key total_key total by_date sorted.

(** *** Xplor: [parse_schedule_data] *)

Section Xplor.

(** [datetime.strptime(s, '%m/%d/%y').strftime('%Y-%m-%d')], [None] when
    [strptime] raises. *)
Variable reformat_mdy : string -> option string.

Definition xplor_fields : list string :=
  ["Date"; "StartDate"; "date"; "startDate"; "StartTime"].

Definition xplor_date_string (date_value : string) : string :=
  if has_char "T" date_value then before_char "T" date_value
  else if has_char "/" date_value then
    match reformat_mdy date_value with
    | Some iso => iso
    | None => date_value
    end
  else date_value.

Definition availability_date : obj -> json :=
  resolve_date xplor_fields xplor_date_string.

(** [for day in schedule_data['bookingDays']: if 'availabilities' in day:
      availabilities.extend(day['availabilities'])] *)
Definition extend_from_day (acc : option (list json)) (day : json)
    : option (list json) :=
  l <- acc ;;
  present <- py_in "availabilities" day ;;
  if present
  then (v <- py_getitem "availabilities" day ;;
        more <- py_iter v ;;
        Some (l ++ more))
  else Some l.

Definition extract_availabilities (schedule_data : json) : option json :=
  match schedule_data with
  | JObj fs =>
      if has_key "availabilities" fs then lookup "availabilities" fs
      else if has_key "bookingDays" fs then
        days <- lookup "bookingDays" fs ;;
        ds <- py_iter days ;;
        l <- fold_left extend_from_day ds (Some []) ;;
        Some (JArr l)
      else Some (JArr [schedule_data])
  | JArr _ => Some schedule_data
  | _ => Some (JArr [])
  end.

Definition parse_schedule_data (schedule_data : json) : option json :=
  err <- py_in "error" schedule_data ;;
  if err then Some schedule_data
  else
    availabilities <- extract_availabilities schedule_data ;;
    parse_items availability_date (fun _ => Some tt)
      "No availability data found in response"
      "schedule_data" "availabilities" "availability_count"
      "total_availabilities" availabilities.

End Xplor.

(** *** Facilitron: [parse_agenda_data] *)

Definition facilitron_fields : list string :=
  ["eventdate"; "localDate"; "date"; "start"; "event_date"].

Definition facilitron_date_string (date_value : string) : string :=
  if has_char "T" date_value then before_char "T" date_value else date_value.

Definition event_date : obj -> json :=
  resolve_date facilitron_fields facilitron_date_string.

Definition extract_events (calendar_data : json) : json :=
  match calendar_data with
  | JObj fs =>
      match lookup "events" fs with
      | Some v => v
      | None =>
          match lookup "schedules" fs with
          | Some v => v
          | None =>
              match lookup "data" fs with
              | Some v => v
              | None => JArr [calendar_data]
              end
          end
      end
  | JArr _ => calendar_data
  | _ => JArr []
  end.

(** [if 'facility' in events[0]: print(events[0]['facility'].get(..))]:
    a facility that is no dictionary has no [get]. *)
Definition sample_event (first : json) : option unit :=
  match first with
  | JObj fs =>
      match lookup "facility" fs with
      | Some (JObj _) | None => Some tt
      | Some _ => None
      end
  | _ => Some tt
  end.

Definition parse_agenda_data (calendar_data : json) : option json :=
  err <- py_in "error" calendar_data ;;
  if err then Some calendar_data
  else
    parse_items event_date sample_event "No events found in calendar data"
      "agenda_data" "events" "event_count" "total_events"
      (extract_events calendar_data).

End Grouping.

(** ** A model of the date conversion

    [datetime.strptime(s, '%m/%d/%y').strftime('%Y-%m-%d')]: the format is
    matched as the pattern [(1[0-2]|0[1-9]|[1-9])/(3[01]|[12]\d|0[1-9]|[1-9]|
    [1-9])/(\d\d)] against the whole string, a two-digit year up to 68 is of
    this century, and the day must exist in the month.  The grouping code is
    stated for any such conversion; this one instantiates it. *)

Module Dates.
Import Text Regex.

Definition one_to_nine (c : ascii) : bool := in_range 49 57 c.

Definition month_re : regex :=
  alts (Cat (chr "1") (Chr (in_range 48 50)))
       [Cat (chr "0") (Chr one_to_nine); Chr one_to_nine].

Definition day_re : regex :=
  alts (Cat (chr "3") (Chr (in_range 48 49)))
       [Cat (Chr (in_range 49 50)) (Chr is_digit);
        Cat (chr "0") (Chr one_to_nine);
        Chr one_to_nine;
        Cat (chr " ") (Chr one_to_nine)].

Definition year_re : regex := Rep is_digit 2 2.

(** The ways a pattern matches at the start of [s]: matched text and rest. *)
Definition splits (r : regex) (s : string) : list (string * string) :=
  map (fun x => (String.substring 0 (String.length s - String.length (snd x)) s,
                 snd x))
      (rmatch r None s).

(** [int(t)] for a text of digits, blanks skipped. *)
Fixpoint to_nat_from (acc : nat) (t : string) : nat :=
  match t with
  | EmptyString => acc
  | String c t' =>
      if is_digit c then to_nat_from (10 * acc + (N.to_nat (code c) - 48)) t'
      else to_nat_from acc t'
  end.

Definition to_nat (t : string) : nat := to_nat_from 0 t.

Definition parse_mdy (s : string) : option (nat * nat * nat) :=
  List.hd_error
    (flat_map (fun m =>
       flat_map (fun s1 =>
         flat_map (fun d =>
           flat_map (fun s2 =>
             flat_map (fun y =>
               if is_empty (snd y)
               then [(to_nat (fst m), to_nat (fst d), to_nat (fst y))]
               else [])
               (splits year_re (snd s2)))
             (splits (chr "/") (snd d)))
           (splits day_re (snd s1)))
         (splits (chr "/") (snd m)))
       (splits month_re s)).

Definition leap (y : nat) : bool :=
  (Nat.eqb (y mod 4) 0 && negb (Nat.eqb (y mod 100) 0)) || Nat.eqb (y mod 400) 0.

Definition days_in_month (y m : nat) : nat :=
  match m with
  | 2 => if leap y then 29 else 28
  | 4 | 6 | 9 | 11 => 30
  | _ => 31
  end.

Definition digit (n : nat) : ascii := ascii_of_nat (48 + n mod 10).

Definition two_digits (n : nat) : string :=
  String (digit (n / 10)) (String (digit n) EmptyString).

Definition four_digits (n : nat) : string :=
  String (digit (n / 1000)) (String (digit (n / 100)) (two_digits n)).

Definition mdy_to_iso (s : string) : option string :=
  match parse_mdy s with
  | Some (m, d, yy) =>
      let y := if Nat.leb yy 68 then 2000 + yy else 1900 + yy in
      if Nat.leb d (days_in_month y m)
      then Some (four_digits y ++ "-" ++ two_digits m ++ "-" ++ two_digits d)%string
      else None
  | None => None
  end.

End Dates.

(** ** Venue matching ([enrich_with_places.py]) *)

Module Places.
Import Text Regex Json.

(** The library functions the module calls: [math], [rapidfuzz.fuzz] and
    the built-in [round(x, 1)].  They are parameters of the embedding.  On
    exact arguments [asin] is never taken outside its domain. *)
Record library : Type := mkLibrary {
  sin : Q -> Q;
  cos : Q -> Q;
  asin : Q -> Q;
  sqrt : Q -> Q;
  pi : Q;
  token_set_ratio : string -> string -> Q;
  round1 : Q -> Q
}.

(** A place as the Places API returns it under the field mask
    [places.id,places.displayName,places.location,places.types]: every key
    may be missing, and so may [text], [latitude] and [longitude] inside
    their objects. *)
Record place : Type := mkPlace {
  place_id : option string;
  displayName : option (option string);
  location : option (option Q * option Q);
  types : option (list string)
}.

(** [bool(p)]: a dictionary is false when it has no key. *)
Definition place_truthy (p : place) : bool :=
  match place_id p, displayName p, location p, types p with
  | None, None, None, None => false
  | _, _, _, _ => true
  end.

(** [p.get("displayName", {}).get("text")] *)
Definition display_text (p : place) : option string :=
  match displayName p with Some (Some t) => Some t | _ => None end.

(** [loc.get("latitude", 0.0)] and [loc.get("longitude", 0.0)] for
    [loc = p.get("location", {})] *)
Definition place_latitude (p : place) : Q :=
  match location p with Some (Some x, _) => x | _ => 0%Q end.

Definition place_longitude (p : place) : Q :=
  match location p with Some (_, Some y) => y | _ => 0%Q end.

(** [p.get("types", []) or []] *)
Definition place_types (p : place) : list string :=
  match types p with Some l => l | None => [] end.

Section WithLibrary.

Variable L : library.

(** [math.radians] *)
Definition radians (x : Q) : Q := (x * (pi L / 180))%Q.

Definition haversine_m (lat1 lon1 lat2 lon2 : Q) : Q :=
  let R := 6371000%Q in
  let dlat := radians (lat2 - lat1)%Q in
  let dlon := radians (lon2 - lon1)%Q in
  let a := (sin L (dlat / 2) ^ 2
            + cos L (radians lat1) * cos L (radians lat2)
              * sin L (dlon / 2) ^ 2)%Q in
  (2 * R * asin L (sqrt L a))%Q.

(** [\b(tennis|courts?|park|recreation|rec|center|centre)\b] *)
Definition STOP_WORDS_RE : regex :=
  seq [WordB;
       alts (lit "tennis")
            [Cat (lit "court") (Opt (chr "s")); lit "park"; lit "recreation";
             lit "rec"; lit "center"; lit "centre"];
       WordB].

(** [[^a-z0-9]+] and [\s+] *)
Definition NON_ALNUM_RE : regex :=
  Many (fun c => negb (in_range 97 122 c || is_digit c)) 1.

Definition SPACES_RE : regex := Many is_space 1.

Definition norm_name (s : option string) : string :=
  let s0 := lower (match s with Some t => t | None => EmptyString end) in
  let s1 := sub STOP_WORDS_RE EmptyString s0 in
  let s2 := sub NON_ALNUM_RE " " s1 in
  strip (sub SPACES_RE " " s2).

Definition default_prefer_types : list string :=
  ["tennis court"; "school"; "event venue"; "recreation center"; "park";
   "stadium"; "community_center"].

Definition default_avoid_name_terms : list string :=
  ["academy"; "shop"; "store"; "club"; "pro shop"].

Definition mem (x : string) (l : list string) : bool :=
  existsb (String.eqb x) l.

(** [max(0, 100 * (1 - min(d, 120.0) / 120.0))], in exact arithmetic: the
    code's value is this one rounded to binary floating point. *)
Definition dist_score (d : Q) : Q :=
  Qmax 0 (100 * (1 - Qmin d 120 / 120))%Q.

(** The additive part of a candidate's score. *)
Definition boost (prefer_types avoid_name_terms : list string) (p : place)
    : Q :=
  let lower_name :=
    lower (match display_text p with Some t => t | None => EmptyString end) in
  let b1 :=
    if existsb (fun t => is_identifier t && mem t (place_types p)) prefer_types
    then 12%Q else 0%Q in
  let b2 :=
    if existsb (fun term => contains term lower_name) prefer_types
    then 8%Q else 0%Q in
  let b3 :=
    if existsb (fun term => contains term lower_name) avoid_name_terms
    then 10%Q else 0%Q in
  (0 + b1 + b2 - b3)%Q.

Definition distance (lat lng : Q) (p : place) : Q :=
  haversine_m lat lng (place_latitude p) (place_longitude p).

(** The score before the boost: [dist_score] under [prefer_distance], else
    [0.55 * dist_score + 0.45 * name_score] when the normalised source name
    is not empty. *)
Definition base_score (base : string) (prefer_distance : bool) (d : Q)
    (p : place) : Q :=
  let name_score := token_set_ratio L base (norm_name (display_text p)) in
  if prefer_distance then dist_score d
  else if negb (is_empty base)
       then ((55 # 100) * dist_score d + (45 # 100) * name_score)%Q
       else dist_score d.

Definition total_score (base : string) (prefer_distance : bool)
    (prefer_types avoid_name_terms : list string) (lat lng : Q) (p : place)
    : Q :=
  (base_score base prefer_distance (distance lat lng p) p
   + boost prefer_types avoid_name_terms p)%Q.

(** The triple [best = (place, score, meters)]. *)
Definition best_match : Type := (option place * Q * option Q)%type.

(** One turn of the loop: [if score > best[1]: best = (p, score, d)] *)
Definition consider (base : string) (prefer_distance : bool)
    (prefer_types avoid_name_terms : list string) (lat lng : Q)
    (best : best_match) (p : place) : best_match :=
  let score :=
    total_score base prefer_distance prefer_types avoid_name_terms lat lng p in
  if negb (Qle_bool score (snd (fst best)))
  then (Some p, score, Some (distance lat lng p))
  else best.

(** [if prefer_types is None: prefer_types = {..}], and the same for
    [avoid_name_terms]. *)
Definition prefer_or_default (prefer_types : option (list string))
    : list string :=
  match prefer_types with Some l => l | None => default_prefer_types end.

Definition avoid_or_default (avoid_name_terms : option (list string))
    : list string :=
  match avoid_name_terms with
  | Some l => l
  | None => default_avoid_name_terms
  end.

Definition choose_best_match (osm_name : option string) (lat lng : Q)
    (candidates : list place) (prefer_distance : bool)
    (prefer_types avoid_name_terms : option (list string)) : best_match :=
  let base := norm_name osm_name in
  let best :=
    fold_left (consider base prefer_distance
                 (prefer_or_default prefer_types)
                 (avoid_or_default avoid_name_terms) lat lng)
      candidates (None, (-1)%Q, None) in
  match fst (fst best) with
  | Some p => if place_truthy p then best else (None, 0%Q, None)
  | None => (None, 0%Q, None)
  end.

(** *** The enrichment driver *)

(** The two requests the driver makes: [places_nearby(lat, lng, radius_m,
    keyword)] and [get_place_details(place_id)], whose result is [JNull]
    when the function returns [None]. *)
Record places_api : Type := mkApi {
  places_nearby : Q -> Q -> Q -> string -> list place;
  get_place_details : string -> json
}.

(** What [r["google"]] is set to. *)
Record enrichment : Type := mkEnrichment {
  g_place_id : string;
  g_displayName : json;
  g_formattedAddress : json;
  g_accessibilityOptions : json;
  g_distance_m : Q;
  g_match_score : Q
}.

(** A source record: the keys the driver reads, the key it writes, and
    the rest of the dictionary. *)
Record venue : Type := mkVenue {
  name : option string;
  lat : Q;
  lon : Q;
  google : option enrichment;
  other : obj
}.

(** The keyword arguments of [enrich]. *)
Record config : Type := mkConfig {
  radius_m : Q;
  threshold : Q;
  keyword : string;
  accept_within_m : Q;
  hard_reject_over_m : Q;
  prefer_distance : bool;
  prefer_types : option (list string);
  avoid_name_terms : option (list string)
}.

Definition default_config : config :=
  mkConfig 120 70 "tennis court" 200 400 true None None.

Variable api : places_api.

Definition or_empty (l : option (list string)) : option (list string) :=
  Some (match l with Some x => x | None => [] end).

(** [details.get(key, default)]; [details] that is no dictionary raises. *)
Definition details_get (details : json) (key : string) (default : json)
    : option json :=
  match details with
  | JObj fs => Some (match lookup key fs with Some v => v | None => default end)
  | _ => None
  end.

(** The [if place and score >= threshold] part: the record with its
    [google] entry, or the record as it is. *)
Definition attach (cfg : config) (r : venue) (best : best_match)
    : option venue :=
  match best with
  | (Some p, score, meters) =>
      if place_truthy p && Qle_bool (threshold cfg) score then
        pid <- place_id p ;;
        let details := get_place_details api pid in
        dn <- details_get details "displayName" (JObj []) ;;
        fa <- details_get details "formattedAddress" JNull ;;
        ao <- details_get details "accessibilityOptions" (JObj []) ;;
        Some (mkVenue (name r) (lat r) (lon r)
                (Some (mkEnrichment pid dn fa ao
                         (round1 L (match meters with
                                    | Some m => m
                                    | None => 0%Q
                                    end))
                         (round1 L score)))
                (other r))
      else Some r
  | (None, _, _) => Some r
  end.

(** One turn of the loop of [enrich]: the record appended to [out]. *)
Definition enrich_record (cfg : config) (r : venue) : option venue :=
  let cands :=
    places_nearby api (lat r) (lon r) (radius_m cfg) (keyword cfg) in
  let best :=
    choose_best_match (name r) (lat r) (lon r) cands (prefer_distance cfg)
      (or_empty (prefer_types cfg)) (or_empty (avoid_name_terms cfg)) in
  match best with
  | (Some p, _, Some meters) =>
      if place_truthy p && Qle_bool meters (accept_within_m cfg)
      then attach cfg r best
      else if place_truthy p
              && negb (Qle_bool meters (hard_reject_over_m cfg))
      then Some r
      else attach cfg r best
  | _ => attach cfg r best
  end.

Fixpoint enrich (cfg : config) (records : list venue) : option (list venue) :=
  match records with
  | [] => Some []
  | r :: rest =>
      o <- enrich_record cfg r ;;
      out <- enrich cfg rest ;;
      Some (o :: out)
  end.

End WithLibrary.

End Places.

(** ** The text query ([enrich_with_places.py]) *)

Module Query.
Import Text.

Definition DEFAULT_BROAD_TERMS : list string :=
  ["tennis"; "court"; "courts"; "club"; "park"; "school"; "recreation";
   "rec"; "sports center"; "sports centre"].

(** [sorted(set(..))] of strings: ascending by code points, each string
    once. *)
Fixpoint insert_term (x : string) (l : list string) : list string :=
  match l with
  | [] => [x]
  | y :: rest =>
      match String.compare x y with
      | Eq => l
      | Lt => x :: l
      | Gt => y :: insert_term x rest
      end
  end.

Definition sorted_set (l : list string) : list string :=
  fold_right insert_term [] l.

(** The broad terms that [_build_text_query] appends: those that are no
    substring of the lower-cased keyword. *)
Definition extra_terms (keyword : string) (broad_terms : list string)
    : list string :=
  sorted_set (filter (fun t => negb (contains t (lower keyword))) broad_terms).

(** [_build_text_query(keyword, broad_terms)] *)
Definition build_text_query (keyword : string) (broad_terms : list string)
    : string :=
  if negb (is_empty keyword)
  then strip (keyword ++ " " ++ join " " (extra_terms keyword broad_terms))
  else join " " broad_terms.

(** The [textQuery] of [places_nearby]:
    [terms = broad_terms or DEFAULT_BROAD_TERMS]. *)
Definition text_query (keyword : string) (broad_terms : option (list string))
    : string :=
  build_text_query keyword
    match broad_terms with
    | Some (t :: l) => t :: l
    | _ => DEFAULT_BROAD_TERMS
    end.

End Query.

(** ** Dates of the form [%Y-%m-%d] *)

Module IsoDates.
Import Text Regex Dates.

(** [datetime.strptime(s, "%Y-%m-%d")], as the triple of its fields: the
    format is matched as [(\d\d\d\d)-(1[0-2]|0[1-9]|[1-9])-(3[01]|[12]\d|
    0[1-9]|[1-9]| [1-9])] against the whole string, and the date must
    exist. *)
Definition parse_ymd (s : string) : option (nat * nat * nat) :=
  List.hd_error
    (flat_map (fun y =>
       flat_map (fun s1 =>
         flat_map (fun m =>
           flat_map (fun s2 =>
             flat_map (fun d =>
               if is_empty (snd d)
               then [(to_nat (fst y), to_nat (fst m), to_nat (fst d))]
               else [])
               (splits day_re (snd s2)))
             (splits (chr "-") (snd m)))
           (splits month_re (snd s1)))
         (splits (chr "-") (snd y)))
       (splits (Rep is_digit 4 4) s)).

Definition strptime_ymd (s : string) : option (nat * nat * nat) :=
  match parse_ymd s with
  | Some (y, m, d) =>
      if Nat.leb 1 y && Nat.leb d (days_in_month y m)
      then Some (y, m, d) else None
  | None => None
  end.

End IsoDates.

(** ** The cities of a run ([fetch_all_cities.py]) and the site of a
       query mode ([fetch_schedule.py]) *)

Module Cities.
Import Text Json Dom Listing.

(** [x.get(key, default)] on a value that must be a dictionary. *)
Definition dict_get (key : string) (default x : json) : option json :=
  match x with
  | JObj fs => Some (match lookup key fs with Some v => v | None => default end)
  | _ => None
  end.

(** [list(config.get("WebTrac", {}).keys())] *)
Definition get_available_cities (config : json) : option (list string) :=
  webtrac_config <- dict_get "WebTrac" (JObj []) config ;;
  match webtrac_config with
  | JObj fs => Some (map fst fs)
  | _ => None
  end.

(** [s.split(sep)] for a one-character separator. *)
Fixpoint split_from (sep : ascii) (cur s : string) : list string :=
  match s with
  | EmptyString => [cur]
  | String c s' =>
      if Ascii.eqb c sep then cur :: split_from sep EmptyString s'
      else split_from sep (cur ++ String c EmptyString) s'
  end.

Definition split (sep : ascii) (s : string) : list string :=
  split_from sep EmptyString s.

(** [city.lower() == available_city.lower()
     or city.lower() in available_city.lower()] *)
Definition city_matches (city available_city : string) : bool :=
  String.eqb (lower city) (lower available_city)
  || contains (lower city) (lower available_city).

(** The inner loop of [main]: the first available city that matches. *)
Definition match_city (available_cities : list string) (city : string)
    : option string :=
  List.find (city_matches city) available_cities.

Definition mem (x : string) (l : list string) : bool :=
  existsb (String.eqb x) l.

(** The cities that [main] goes through, from [--cities] and the
    configured cities; a match is kept [if matched]. *)
Definition cities_to_process (cities_arg : option string)
    (available_cities : list string) : list string :=
  match cities_arg with
  | Some (String c rest) =>
      flat_map (fun city =>
                  match match_city available_cities (strip city) with
                  | Some matched => if is_empty matched then [] else [matched]
                  | None => []
                  end)
        (split "," (String c rest))
  | _ =>
      if mem "Foster City" available_cities then ["Foster City"]
      else available_cities
  end.

(** [city_to_mode.get(city, city.lower())] in [fetch_city_schedule] *)
Definition city_to_mode : list (string * string) :=
  [("Burlingame", "burlingame"); ("San Mateo", "san_mateo");
   ("Albany", "albany")].

Definition query_mode_of (city : string) : string :=
  match assoc city city_to_mode with
  | Some mode => mode
  | None => lower city
  end.

(** The site that [fetch_schedule] takes for a query mode. *)
Definition site_of (query_mode : string) : string :=
  if contains "san_mateo" query_mode then "San Mateo"
  else if contains "albany" query_mode then "Albany"
  else "Burlingame".

Definition BASE : string := "https://caburlingameweb.myvscloud.com".

(** [cfg.get(vendor, {}).get(site, {})] on the contents of
    [config_webtrac.json]. *)
Definition load_vendor_site_config (config : json) (vendor site : string)
    : option json :=
  v <- dict_get vendor (JObj []) config ;;
  dict_get site (JObj []) v.

(** [s.rstrip("/")] *)
Fixpoint rstrip_slash (s : string) : string :=
  match s with
  | EmptyString => EmptyString
  | String c s' =>
      match rstrip_slash s' with
      | EmptyString =>
          if Ascii.eqb c "/" then EmptyString else String c EmptyString
      | t => String c t
      end
  end.

Definition as_str (x : json) : option string :=
  match x with JStr s => Some s | _ => None end.

(** [cfg.get("base_url", BASE).rstrip("/")] in [fetch_schedule], and
    [cfg.get("base_url").rstrip("/")] in [playwright_fetch_listing_html]. *)
Definition base_url_or_default (cfg : json) : option string :=
  b <- dict_get "base_url" (JStr BASE) cfg ;;
  s <- as_str b ;;
  Some (rstrip_slash s).

Definition listing_base (cfg : json) : option string :=
  b <- dict_get "base_url" JNull cfg ;;
  s <- as_str b ;;
  Some (rstrip_slash s).

(** [fetch_schedule(date_ymd, query_mode=..)], given the contents of the
    configuration file and the page that the browser returns: the site's
    configuration is read in [fetch_schedule] and again in
    [playwright_fetch_listing_html], which also parses the date. *)
Definition fetch_schedule_for (config : json) (query_mode date_ymd : string)
    (page : document) : option (list tagged) :=
  let site := site_of query_mode in
  cfg <- load_vendor_site_config config "WebTrac" site ;;
  base_url <- base_url_or_default cfg ;;
  _ <- IsoDates.strptime_ymd date_ymd ;;
  cfg' <- load_vendor_site_config config "WebTrac" site ;;
  _ <- listing_base cfg' ;;
  fetch_schedule page date_ymd base_url.

End Cities.

(** ** The facilities of the Xplor configuration
       ([xplor_schedule_fetcher.py]) *)

Module XplorConfig.
Import Text Json.

(** The part of [facilities_config.json] that the fetcher walks:
    [config["states"]], each state's [cities], each city's [facilities],
    each facility's [name]; the other keys of a city and of a facility are
    kept as they are. *)
Record facility : Type := mkFacility {
  f_name : string;
  f_fields : obj
}.

Record city : Type := mkCity {
  city_fields : obj;
  city_facilities : list facility
}.

Record state : Type := mkState {
  state_cities : list city
}.

Definition config : Type := list state.

(** [list_facilities]: the facilities of all cities of all states. *)
Definition list_facilities (cfg : config) : list facility :=
  flat_map (fun st => flat_map city_facilities (state_cities st)) cfg.

(** [facility["name"].lower() == facility_name.lower()] *)
Definition named (facility_name : string) (f : facility) : bool :=
  String.eqb (lower (f_name f)) (lower facility_name).

(** [get_facility]: the first facility, or the first with the name;
    [IndexError] and [ValueError] otherwise. *)
Definition get_facility (cfg : config) (facility_name : option string)
    : option facility :=
  match facility_name with
  | None => List.hd_error (list_facilities cfg)
  | Some n => List.find (named n) (list_facilities cfg)
  end.

(** [facility_name is None or facility["name"].lower() == ..] *)
Definition wanted (facility_name : option string) (f : facility) : bool :=
  match facility_name with
  | None => true
  | Some n => named n f
  end.

(** [get_city_for_facility]: the first city with a wanted facility, else
    the first city of the first state; [ValueError] when there is none. *)
Definition get_city_for_facility (cfg : config)
    (facility_name : option string) : option city :=
  match List.find (fun c => existsb (wanted facility_name) (city_facilities c))
          (flat_map state_cities cfg) with
  | Some c => Some c
  | None =>
      match cfg with
      | st :: _ => List.hd_error (state_cities st)
      | [] => None
      end
  end.

End XplorConfig.

(** ** Vocabulary of the statements

    The shapes of input that the properties below speak about. *)

Module Shapes.
Import Text Regex Dom Listing Json Grouping.

(** The words a pattern can match, word boundaries aside. *)
Fixpoint lang (r : regex) (w : string) : Prop :=
  match r with
  | Eps => w = EmptyString
  | Chr p => exists c, w = String c EmptyString /\ p c = true
  | Cat r1 r2 =>
      exists w1 w2, w = (w1 ++ w2)%string /\ lang r1 w1 /\ lang r2 w2
  | Alt r1 r2 => lang r1 w \/ lang r2 w
  | Opt r1 => w = EmptyString \/ lang r1 w
  | Rep p lo hi =>
      all_chars p w = true /\ lo <= String.length w <= hi
  | Many p lo => all_chars p w = true /\ lo <= String.length w
  | WordB => w = EmptyString
  end.

(** The character before the position reached after reading [w]. *)
Fixpoint last_of (prev : option ascii) (w : string) : option ascii :=
  match w with
  | EmptyString => prev
  | String c w' => last_of (Some c) w'
  end.

(** A time range written [H:MM xm - H:MM xm]: the hour in decimal without
    a leading zero, the minute on two digits. *)
Definition hour_text (h : nat) : string :=
  if Nat.ltb h 10 then String (Dates.digit h) EmptyString
  else Dates.two_digits h.

Definition minute_text (m : nat) : string := Dates.two_digits m.

(** [am] or [pm] in any mix of cases. *)
Definition is_ampm (t : string) : bool :=
  String.eqb (lower t) "am" || String.eqb (lower t) "pm".

Definition clock_text (h m : nat) (ap : string) : string :=
  (hour_text h ++ ":" ++ minute_text m ++ " " ++ ap)%string.

Definition slot_text (h1 m1 : nat) (ap1 : string) (h2 m2 : nat)
    (ap2 : string) : string :=
  (clock_text h1 m1 ap1 ++ " - " ++ clock_text h2 m2 ap2)%string.

(** The text ends with [am] or [pm], in any mix of cases. *)
Fixpoint ends_ampm (s : string) : bool :=
  match s with
  | EmptyString => false
  | String a t =>
      match t with
      | String b EmptyString => is_ampm (String a (String b EmptyString))
      | _ => ends_ampm t
      end
  end.

(** Both sides of the first hyphen end with [am] or [pm], the blanks
    before the hyphen aside. *)
Definition ampm_on_both_sides (s : string) : bool :=
  match after_char "-" s with
  | Some rhs => ends_ampm (rstrip (before_char "-" s)) && ends_ampm rhs
  | None => false
  end.

(** The places whose anchors feed one record: the rows of the results
    table and the cards of the results group. *)
Definition table_rows_of (soup : document) : list node :=
  match find_table soup with
  | Some table =>
      match find_tbody table with
      | Some tbody => find_children "tr" tbody
      | None => []
      end
  | None => []
  end.

Definition cards_of (soup : document) : list node :=
  match find_container soup with
  | Some (above, container) =>
      map snd
        (filter (fun x => has_class "result-content" (snd x))
           (located_descendants (container :: above) container))
  | None => []
  end.

(** The slot texts that a list of anchors adds to each list. *)
Definition available_of (anchors : list node) : list string :=
  flat_map (fun a => match classify a with
                     | Available t => t :: nil
                     | _ => nil
                     end)
    anchors.

Definition unavailable_of (anchors : list node) : list string :=
  flat_map (fun a => match classify a with
                     | Unavailable t => t :: nil
                     | _ => nil
                     end)
    anchors.

(** An object that the grouping loop files under a date: a dictionary
    whose date resolves to a non-empty string. *)
Definition resolvable (date_of : obj -> json) (a : json) : bool :=
  match a with
  | JObj fs =>
      match date_of fs with
      | JStr s => negb (is_empty s)
      | _ => false
      end
  | _ => false
  end.

(** The object [a] is filed under the date [d]. *)
Definition filed_under (date_of : obj -> json) (a d : json) : Prop :=
  exists fs, a = JObj fs /\ date_of fs = d
             /\ truthy d = true /\ hashable d = true.

(** A group as the loop builds it: opened by its first member, whose date
    is the key, and joined by objects whose dates equal the key. *)
Definition group_ok (date_of : obj -> json) (k : json) (ms : list json)
    : Prop :=
  match ms with
  | [] => False
  | m :: _ =>
      filed_under date_of m k
      /\ forall m', In m' ms ->
           exists d, filed_under date_of m' d /\ key_eqb k d = true
  end.

Fixpoint well_formed (date_of : obj -> json) (g : groups) : Prop :=
  match g with
  | [] => True
  | (k, ms) :: rest =>
      group_ok date_of k ms
      /\ (forall x, In x rest -> key_eqb k (fst x) = false)
      /\ well_formed date_of rest
  end.

Fixpoint sorted (g : groups) : Prop :=
  match g with
  | [] => True
  | x :: rest =>
      match rest with
      | [] => True
      | y :: _ => key_leb (fst x) (fst y) = Some true
      end
      /\ sorted rest
  end.

Definition string_key (x : json * list json) : Prop :=
  exists s, fst x = JStr s.

(** The score held by the triple [best]. *)
Definition score_of (best : Places.best_match) : Q := snd (fst best).

End Shapes.

(** ** Further vocabulary *)

Module Notions.
Import Text Regex Dom Listing Json Grouping.

(** A label cell of the facility description, and one of the location. *)
Definition is_facility_cell (td : node) : bool :=
  String.eqb (attr_or_empty "data-title" td) "Facility Description".

Definition is_location_cell (td : node) : bool :=
  String.eqb (attr_or_empty "data-title" td) "Location Description".

Definition has_text (td : node) : bool := negb (is_empty (get_text_strip td)).

(** What the loop over the label cells keeps for one of the two titles:
    the text of the first cell of that title that has text; failing that,
    the empty text when there is a cell of that title. *)
Definition first_text (is_cell : node -> bool) (cells : list node)
    : option string :=
  match List.find (fun td => is_cell td && has_text td) cells with
  | Some td => Some (get_text_strip td)
  | None => if existsb is_cell cells then Some EmptyString else None
  end.

(** What a variable of that loop holds in the end, from what it held. *)
Definition kept (is_cell : node -> bool) (held : option string)
    (cells : list node) : option string :=
  if falsy held
  then match first_text is_cell cells with
       | Some t => Some t
       | None => held
       end
  else held.

(** The object is filed by the grouping loop: a dictionary whose date is
    true and hashable. *)
Definition filed (date_of : obj -> json) (a : json) : bool :=
  match a with
  | JObj fs => truthy (date_of fs) && hashable (date_of fs)
  | _ => false
  end.

(** The object makes the grouping loop raise: a dictionary whose date is
    true and not hashable. *)
Definition unhashable_date (date_of : obj -> json) (a : json) : bool :=
  match a with
  | JObj fs => truthy (date_of fs) && negb (hashable (date_of fs))
  | _ => false
  end.

Definition is_string (x : json) : bool :=
  match x with JStr _ => true | _ => false end.

(** Strict ascent of a list of strings. *)
Fixpoint ascending (l : list string) : Prop :=
  match l with
  | [] => True
  | x :: rest =>
      match rest with
      | [] => True
      | y :: _ => String.compare x y = Lt
      end
      /\ ascending rest
  end.

(** The characters that [norm_name] leaves. *)
Definition is_plain (c : ascii) : bool :=
  in_range 97 122 c || is_digit c || Ascii.eqb c " ".

(** The record with a [google] entry made from the identifier of a place,
    its details, its score and its distance. *)
Definition enriched (L : Places.library) (r : Places.venue) (pid : string)
    (fs : obj) (score meters : Q) : Places.venue :=
  Places.mkVenue (Places.name r) (Places.lat r) (Places.lon r)
    (Some (Places.mkEnrichment pid
             (match lookup "displayName" fs with
              | Some v => v
              | None => JObj []
              end)
             (match lookup "formattedAddress" fs with
              | Some v => v
              | None => JNull
              end)
             (match lookup "accessibilityOptions" fs with
              | Some v => v
              | None => JObj []
              end)
             (Places.round1 L meters) (Places.round1 L score)))
    (Places.other r).

(** A string without its longest prefix of characters of a class, and
    the length of that prefix. *)
Fixpoint drop_while (p : ascii -> bool) (s : string) : string :=
  match s with
  | EmptyString => EmptyString
  | String c s' => if p c then drop_while p s' else s
  end.

Fixpoint run (p : ascii -> bool) (s : string) : nat :=
  match s with
  | EmptyString => 0
  | String c s' => if p c then S (run p s') else 0
  end.

(** A string with each maximal run of characters of a class replaced by
    [repl]; [in_run] tells that the run of the previous character goes on. *)
Fixpoint collapse (p : ascii -> bool) (repl : string) (in_run : bool)
    (s : string) : string :=
  match s with
  | EmptyString => EmptyString
  | String c s' =>
      if p c
      then if in_run then collapse p repl true s'
           else (repl ++ collapse p repl true s')%string
      else String c (collapse p repl false s')
  end.

(** The object is filed by the grouping loop under a date equal to [k]. *)
Definition dated (date_of : obj -> json) (k a : json) : bool :=
  match a with
  | JObj fs =>
      truthy (date_of fs) && hashable (date_of fs) && key_eqb k (date_of fs)
  | _ => false
  end.

(** The groups hold what the loop has filed of the objects [done] it has
    gone through. *)
Definition tracks (date_of : obj -> json) (g : groups) (done : list json)
    : Prop :=
  Shapes.well_formed date_of g
  /\ (forall k ms, In (k, ms) g -> ms = filter (dated date_of k) done)
  /\ (forall a, In a done -> filed date_of a = true ->
                exists k ms, In (k, ms) g /\ dated date_of k a = true).

(** The object is a dictionary whose date is a number. *)
Definition number_dated (date_of : obj -> json) (a : json) : bool :=
  match a with
  | JObj fs =>
      match as_number (date_of fs) with Some _ => true | None => false end
  | _ => false
  end.

End Notions.

(** ** Sample inputs *)

Module Samples.
Import Dom Listing Json.

Local Open Scope Q_scope.

(** A results table with one facility row and its slot row. *)
Definition laguna_page : document :=
  [Elem "html" []
     [Elem "body" []
        [Elem "table" [("id", "frwebsearch_output_table")]
           [Elem "tbody" []
              [Elem "tr" []
                 [Elem "td" [("class", "label-cell");
                             ("data-title", "Facility Description")]
                    [TextNode "Laguna Park Court 1"];
                  Elem "td" []
                    [Elem "a" [("href", "iteminfo.html?Module=FR&FMID=296964")]
                       [TextNode "Details"]]];
               Elem "tr" []
                 [Elem "td" []
                    [Elem "a" [("class", "button success cart-button");
                               ("data-tooltip", "Book Now")]
                       [TextNode "8:00 am - 9:00 am"];
                     Elem "a" [("class", "button error cart-button");
                               ("data-tooltip", "Unavailable")]
                       [Elem "span" [] [TextNode "9:00 am - 10:00 am"];
                        Elem "span" [] [TextNode "Unavailable"]]]]]]]]].

(** The same table with the second anchor showing the time of the first. *)
Definition overlap_page : document :=
  [Elem "table" [("id", "frwebsearch_output_table")]
     [Elem "tbody" []
        [Elem "tr" []
           [Elem "td" [("class", "label-cell");
                       ("data-title", "Facility Description")]
              [TextNode "Laguna Park Court 1"]];
         Elem "tr" []
           [Elem "td" []
              [Elem "a" [("class", "button success cart-button");
                         ("data-tooltip", "Book Now")]
                 [TextNode "8:00 am - 9:00 am"];
               Elem "a" [("class", "button error cart-button");
                         ("data-tooltip", "Unavailable")]
                 [Elem "span" [] [TextNode "8:00 am - 9:00 am"]]]]]]].

(** A results group with one card, whose two anchors show the same time. *)
Definition overlap_cards : document :=
  [Elem "div" [("id", "frwebsearch_nextgencontrolsgroup")]
     [Elem "div" [("class", "result-content")]
        [Elem "div" [("class", "header result-header")]
           [Elem "div" [("class", "result-header__info")]
              [Elem "h2" [] [Elem "span" [] [TextNode "Court A"]]]];
         Elem "a" [("href", "iteminfo.html?Module=FR&FMID=12")] [];
         Elem "a" [("class", "success cart-button");
                   ("data-tooltip", "Book Now")]
           [TextNode "8:00 am - 9:00 am"];
         Elem "a" [("class", "error cart-button");
                   ("data-tooltip", "Unavailable")]
           [Elem "span" [] [TextNode "8:00 am - 9:00 am"]]]]].

(** A page whose results table has no body. *)
Definition bodyless_page : document :=
  [Elem "table" [("id", "frwebsearch_output_table")]
     [Elem "tr" [] [Elem "td" [("class", "label-cell")] []]]].

(** The payload of the grouping scenario. *)
Definition two_day_payload : json :=
  JObj [("availabilities",
         JArr [JObj [("Date", JStr "2025-10-13T00:00:00Z"); ("Title", JStr "A")];
               JObj [("Date", JStr "2025-10-14T00:00:00Z");
                     ("Title", JStr "B")]])].

(** Three objects over two dates, out of date order. *)
Definition three_slots : list json :=
  [JObj [("StartTime", JStr "2025-10-07T09:00:00")];
   JObj [("Date", JStr "2025-10-06"); ("Title", JStr "B")];
   JObj [("startDate", JStr "2025-10-07"); ("Title", JStr "C")]].

(** A stand-in for the numeric library, exact at zero: the small-angle
    values [sin x = x], [cos x = 1] and [asin x = x], the identity for the
    square root and for the rounding, and a name ratio that is 100 on equal
    non-empty names and 0 elsewhere. *)
Definition toy_library : Places.library :=
  Places.mkLibrary (fun x => x) (fun _ => 1%Q) (fun x => x) (fun x => x)
    (355 # 113)
    (fun a b =>
       if String.eqb a b && negb (Text.is_empty a) then 100%Q else 0%Q)
    (fun x => x).

Definition ray_park : Places.venue :=
  Places.mkVenue (Some "Ray Park Tennis") (3758 # 100) (-12235 # 100) None [].

(** A place at the venue's own coordinates, and one a degree further
    north. *)
Definition ray_park_courts : Places.place :=
  Places.mkPlace (Some "near") (Some (Some "Ray Park Tennis Courts"))
    (Some (Some (3758 # 100), Some (-12235 # 100))) (Some ["park"]).

Definition far_courts : Places.place :=
  Places.mkPlace (Some "far") (Some (Some "Ray Park Tennis"))
    (Some (Some (3858 # 100), Some (-12235 # 100))) (Some ["park"]).

(** A shop a degree further north, of no preferred type. *)
Definition far_pro_shop : Places.place :=
  Places.mkPlace (Some "shop") (Some (Some "Ray Park Pro Shop"))
    (Some (Some (3858 # 100), Some (-12235 # 100))) (Some ["store"]).



(** A Places service that knows the near place and has its details, and
    one whose details request fails. *)
Definition near_api : Places.places_api :=
  Places.mkApi (fun _ _ _ _ => [ray_park_courts])
    (fun _ => JObj [("displayName", JObj [("text", JStr "Ray Park Courts")]);
                    ("formattedAddress", JStr "1525 Balboa Ave")]).

Definition no_details_api : Places.places_api :=
  Places.mkApi (fun _ _ _ _ => [ray_park_courts]) (fun _ => JNull).



(** An anchor that passes both tests. *)
Definition both_ways_anchor : node :=
  Elem "a" [("class", "success error cart-button");
            ("data-tooltip", "Book Now - Unavailable")]
    [Elem "span" [] [TextNode "8:00 am - 9:00 am"]].

(** The contents of a configuration file with one site. *)
Definition one_site_config : json :=
  JObj [("WebTrac",
         JObj [("Burlingame",
                JObj [("base_url",
                       JStr "https://caburlingameweb.myvscloud.com/")])])].

(** A facilities configuration with two cities in one state. *)
Definition nealon : XplorConfig.facility :=
  XplorConfig.mkFacility "Nealon Park Tennis" [("facility_id", JStr "n1")].

Definition burgess : XplorConfig.facility :=
  XplorConfig.mkFacility "Burgess Park Tennis" [("facility_id", JStr "b1")].

Definition rinconada : XplorConfig.facility :=
  XplorConfig.mkFacility "Rinconada Park" [("facility_id", JStr "r1")].

Definition two_city_config : XplorConfig.config :=
  [XplorConfig.mkState
     [XplorConfig.mkCity [("name", JStr "Menlo Park")] [nealon; burgess];
      XplorConfig.mkCity [("name", JStr "Palo Alto")] [rinconada]]].

End Samples.

(** * Properties *)

(** ** Strings and patterns *)

Module TextFacts.
Import Text Regex Shapes.

Lemma append_empty_r (s : string) : (s ++ "")%string = s.
Proof. induction s as [|c s IH]; simpl; [reflexivity | now rewrite IH]. Qed.

Lemma append_assoc (a b c : string) :
  ((a ++ b) ++ c)%string = (a ++ (b ++ c))%string.
Proof. induction a as [|x a IH]; simpl; [reflexivity | now rewrite IH]. Qed.

Lemma length_append (a b : string) :
  String.length (a ++ b) = String.length a + String.length b.
Proof. induction a as [|x a IH]; simpl; [reflexivity | now rewrite IH]. Qed.

Lemma is_empty_true (s : string) : is_empty s = true -> s = EmptyString.
Proof. destruct s; [reflexivity | discriminate]. Qed.

Lemma has_char_append (c : ascii) (a b : string) :
  has_char c (a ++ b) = has_char c a || has_char c b.
Proof.
  induction a as [|x a IH]; simpl; [reflexivity|].
  now rewrite IH, orb_assoc.
Qed.

(** What a match leaves unread is a suffix, and what it read is a word of
    the pattern. *)
Lemma rep_sound p lo hi prev s x :
  In x (rep p lo hi prev s) ->
  exists w, s = (w ++ snd x)%string /\ all_chars p w = true
            /\ lo <= String.length w <= hi.
Proof.
  revert lo prev s; induction hi as [|hi IH]; intros lo prev s H; simpl in H.
  - destruct (Nat.eqb_spec lo 0) as [->|]; [|contradiction].
    destruct H as [<-|[]]. exists EmptyString; simpl; auto.
  - apply in_app_or in H. destruct H as [H|H].
    + destruct s as [|c s]; [contradiction|].
      destruct (p c) eqn:Hc; [|contradiction].
      apply IH in H. destruct H as (w & -> & Hw & Hl).
      exists (String c w); simpl. rewrite Hc, Hw. repeat split; lia.
    + destruct (Nat.eqb_spec lo 0) as [->|]; [|contradiction].
      destruct H as [<-|[]]. exists EmptyString; simpl.
      repeat split; lia.
Qed.

Lemma many_sound p lo prev s x :
  In x (many p lo prev s) ->
  exists w, s = (w ++ snd x)%string /\ all_chars p w = true
            /\ lo <= String.length w.
Proof.
  revert lo prev; induction s as [|c s IH]; intros lo prev H; simpl in H.
  - destruct (Nat.eqb_spec lo 0) as [->|]; [|contradiction].
    destruct H as [<-|[]]. exists EmptyString; simpl; auto.
  - apply in_app_or in H. destruct H as [H|H].
    + destruct (p c) eqn:Hc; [|contradiction].
      apply IH in H. destruct H as (w & Hs & Hw & Hl).
      exists (String c w); simpl. rewrite Hc, Hw, <- Hs.
      repeat split; lia.
    + destruct (Nat.eqb_spec lo 0) as [->|]; [|contradiction].
      destruct H as [<-|[]]. exists EmptyString; simpl.
      repeat split; lia.
Qed.

Lemma rmatch_sound r : forall prev s x,
  In x (rmatch r prev s) -> exists w, s = (w ++ snd x)%string /\ lang r w.
Proof.
  induction r as [|p|r1 IH1 r2 IH2|r1 IH1 r2 IH2|r IH|p lo hi|p lo|];
    intros prev s x H; simpl in H.
  - destruct H as [<-|[]]. exists EmptyString; simpl; auto.
  - destruct s as [|c s]; [contradiction|].
    destruct (p c) eqn:Hc; [|contradiction].
    destruct H as [<-|[]]. exists (String c EmptyString); simpl; eauto.
  - apply in_flat_map in H. destruct H as (y & Hy & Hx).
    apply IH1 in Hy. apply IH2 in Hx.
    destruct Hy as (w1 & -> & L1). destruct Hx as (w2 & E2 & L2).
    exists (w1 ++ w2)%string. rewrite append_assoc, <- E2.
    split; [reflexivity|]. simpl; eauto.
  - apply in_app_or in H. destruct H as [H|H].
    + apply IH1 in H. destruct H as (w & -> & Lw). exists w; simpl; auto.
    + apply IH2 in H. destruct H as (w & -> & Lw). exists w; simpl; auto.
  - apply in_app_or in H. destruct H as [H|H].
    + apply IH in H. destruct H as (w & -> & Lw). exists w; simpl; auto.
    + destruct H as [<-|[]]. exists EmptyString; simpl; auto.
  - apply rep_sound in H. destruct H as (w & E & Hw). exists w; simpl; auto.
  - apply many_sound in H. destruct H as (w & E & Hw). exists w; simpl; auto.
  - destruct (xorb _ _); [|contradiction].
    destruct H as [<-|[]]. exists EmptyString; simpl; auto.
Qed.

Lemma fullmatch_lang r s : fullmatch r s = true -> lang r s.
Proof.
  unfold fullmatch. intros H. apply existsb_exists in H.
  destruct H as (x & Hx & He). apply rmatch_sound in Hx.
  destruct Hx as (w & -> & Lw). apply is_empty_true in He.
  now rewrite He, append_empty_r.
Qed.

(** Matching a concatenation step by step. *)
Lemma rmatch_cat r1 r2 prev s x y :
  In x (rmatch r1 prev s) -> In y (rmatch r2 (fst x) (snd x)) ->
  In y (rmatch (Cat r1 r2) prev s).
Proof. intros H1 H2. simpl. apply in_flat_map. eauto. Qed.

End TextFacts.

(** ** The time-slot pattern *)

Module SlotFacts.
Import Text Regex Slot Shapes TextFacts.

Lemma rep_intro p : forall hi lo prev w rest,
  all_chars p w = true -> lo <= String.length w <= hi ->
  In (last_of prev w, rest) (rep p lo hi prev (w ++ rest)%string).
Proof.
  induction hi as [|hi IH]; intros lo prev w rest Hw Hl.
  - destruct w; simpl in Hl; [|lia]. assert (lo = 0) as -> by lia.
    simpl; auto.
  - destruct w as [|c w].
    + simpl in Hl. assert (lo = 0) as -> by lia.
      cbn [rep append]. apply in_or_app. right. simpl; auto.
    + simpl in Hw. apply andb_true_iff in Hw. destruct Hw as [Hc Hw].
      cbn [rep append]. rewrite Hc. apply in_or_app. left.
      apply (IH (Nat.pred lo) (Some c) w rest Hw). simpl in Hl. lia.
Qed.

Lemma many_intro p : forall w lo prev rest,
  all_chars p w = true -> lo <= String.length w ->
  In (last_of prev w, rest) (many p lo prev (w ++ rest)%string).
Proof.
  induction w as [|c w IH]; intros lo prev rest Hw Hl.
  - simpl in Hl. assert (lo = 0) as -> by lia.
    destruct rest; cbn [many append]; apply in_or_app; right; simpl; auto.
  - simpl in Hw. apply andb_true_iff in Hw. destruct Hw as [Hc Hw].
    cbn [many append]. rewrite Hc. apply in_or_app. left.
    apply (IH (Nat.pred lo) (Some c) rest Hw). simpl in Hl. lia.
Qed.

Lemma chr_intro (p : ascii -> bool) c prev s :
  p c = true -> In (Some c, s) (rmatch (Chr p) prev (String c s)).
Proof. intros H. cbn [rmatch]. rewrite H. simpl; auto. Qed.

Lemma digit_is_digit n : is_digit (Dates.digit n) = true.
Proof.
  unfold Dates.digit.
  assert (H : n mod 10 < 10) by (apply Nat.mod_upper_bound; lia).
  remember (n mod 10) as k eqn:E; clear E.
  do 10 (destruct k as [|k]; [reflexivity|]). lia.
Qed.

Lemma lower_am_cases a :
  lower_char a = "a"%char \/ lower_char a = "p"%char \/ lower_char a = "m"%char ->
  is_word a = true /\ is_space a = false /\ is_digit a = false
  /\ Ascii.eqb a "-" = false.
Proof.
  destruct a as [[] [] [] [] [] [] [] []]; vm_compute; intros [H|[H|H]];
    try discriminate H; auto.
Qed.

Lemma is_ampm_inv ap :
  is_ampm ap = true ->
  exists a b, ap = String a (String b EmptyString)
    /\ (lower_char a = "a"%char \/ lower_char a = "p"%char)
    /\ lower_char b = "m"%char.
Proof.
  unfold is_ampm. intros H. apply orb_true_iff in H.
  destruct H as [H|H]; apply String.eqb_eq in H;
    destruct ap as [|a [|b [|c r]]]; simpl in H; try discriminate H;
    injection H as H1 H2; exists a, b; auto.
Qed.

Lemma ampm_intro a b prev rest :
  lower_char a = "a"%char \/ lower_char a = "p"%char ->
  lower_char b = "m"%char ->
  In (Some b, rest) (rmatch ampm prev (String a (String b rest))).
Proof.
  intros Ha Hb. unfold ampm. cbn [rmatch]. apply in_or_app.
  assert (Eb : Ascii.eqb (lower_char b) (lower_char "m") = true)
    by (rewrite Hb; reflexivity).
  destruct Ha as [Ha|Ha]; [left|right];
    cbn [liti]; unfold chri;
    (eapply rmatch_cat; [apply chr_intro; rewrite Ha; reflexivity|]);
    cbn [fst snd];
    (eapply rmatch_cat; [apply chr_intro; exact Eb|]);
    simpl; auto.
Qed.

Lemma clock_intro hd md ws a b prev rest :
  all_chars is_digit hd = true -> 1 <= String.length hd <= 2 ->
  all_chars is_digit md = true -> String.length md = 2 ->
  all_chars is_space ws = true ->
  lower_char a = "a"%char \/ lower_char a = "p"%char ->
  lower_char b = "m"%char ->
  In (Some b, rest)
     (rmatch clock prev
        (hd ++ String ":" (md ++ ws ++ String a (String b rest)))%string).
Proof.
  intros Hhd Lhd Hmd Lmd Hws Ha Hb. unfold clock. cbn [seq].
  eapply rmatch_cat; [apply rep_intro; eassumption|]. cbn [fst snd].
  eapply rmatch_cat; [apply chr_intro; reflexivity|]. cbn [fst snd].
  eapply rmatch_cat; [apply rep_intro; [eassumption|lia]|]. cbn [fst snd].
  eapply rmatch_cat; [apply many_intro; [eassumption|lia]|]. cbn [fst snd].
  eapply rmatch_cat; [apply ampm_intro; assumption|]. simpl; auto.
Qed.

Lemma hour_text_digits h :
  1 <= h <= 12 ->
  all_chars is_digit (hour_text h) = true
  /\ 1 <= String.length (hour_text h) <= 2
  /\ exists c t, hour_text h = String c t /\ is_word c = true.
Proof.
  intros Hh.
  assert (Hc : h = 1 \/ h = 2 \/ h = 3 \/ h = 4 \/ h = 5 \/ h = 6 \/ h = 7
               \/ h = 8 \/ h = 9 \/ h = 10 \/ h = 11 \/ h = 12) by lia.
  repeat (destruct Hc as [Hc|Hc]); subst h;
    (split; [reflexivity|split; [simpl; lia|]]); eexists; eexists;
    (split; [reflexivity|reflexivity]).
Qed.

Lemma minute_text_digits m :
  all_chars is_digit (minute_text m) = true
  /\ String.length (minute_text m) = 2.
Proof.
  unfold minute_text, Dates.two_digits. cbn [all_chars String.length].
  rewrite !digit_is_digit. auto.
Qed.

Lemma is_digit_is_word c : is_digit c = true -> is_word c = true.
Proof. unfold is_word. intros ->. reflexivity. Qed.

Lemma word_after_digits hd rest :
  all_chars is_digit hd = true -> 1 <= String.length hd ->
  word_after (hd ++ rest)%string = true.
Proof.
  destruct hd as [|c hd]; simpl; [lia|]. intros H _.
  apply andb_true_iff in H. now apply is_digit_is_word.
Qed.

(** Every text of the shape the pattern describes is matched in full. *)
Lemma time_re_intro hd1 md1 ws1 a1 b1 ws2 ws3 hd2 md2 ws4 a2 b2 :
  all_chars is_digit hd1 = true -> 1 <= String.length hd1 <= 2 ->
  all_chars is_digit md1 = true -> String.length md1 = 2 ->
  all_chars is_space ws1 = true ->
  lower_char a1 = "a"%char \/ lower_char a1 = "p"%char ->
  lower_char b1 = "m"%char ->
  all_chars is_space ws2 = true -> all_chars is_space ws3 = true ->
  all_chars is_digit hd2 = true -> 1 <= String.length hd2 <= 2 ->
  all_chars is_digit md2 = true -> String.length md2 = 2 ->
  all_chars is_space ws4 = true ->
  lower_char a2 = "a"%char \/ lower_char a2 = "p"%char ->
  lower_char b2 = "m"%char ->
  is_slot
    (hd1 ++ String ":" (md1 ++ ws1 ++ String a1 (String b1
       (ws2 ++ String "-" (ws3 ++ hd2 ++ String ":" (md2 ++ ws4
          ++ String a2 (String b2 EmptyString)))))))%string = true.
Proof.
  intros D1 L1 M1 N1 S1 Ha1 Hb1 S2 S3 D2 L2 M2 N2 S4 Ha2 Hb2.
  destruct (lower_am_cases b2) as (Wb2 & _); [tauto|].
  unfold is_slot, fullmatch. apply existsb_exists.
  exists (Some b2, EmptyString). split; [|reflexivity].
  unfold TIME_RE. cbn [seq].
  eapply rmatch_cat with (x := (None, _)).
  { cbn [rmatch word_before]. rewrite word_after_digits by (auto; lia).
    left. reflexivity. }
  cbn [fst snd].
  eapply rmatch_cat; [apply clock_intro; assumption|]. cbn [fst snd].
  eapply rmatch_cat; [apply many_intro; [eassumption|lia]|]. cbn [fst snd].
  eapply rmatch_cat; [apply chr_intro; reflexivity|]. cbn [fst snd].
  eapply rmatch_cat; [apply many_intro; [eassumption|lia]|]. cbn [fst snd].
  eapply rmatch_cat; [apply clock_intro; assumption|]. cbn [fst snd].
  eapply rmatch_cat with (x := (Some b2, EmptyString)).
  { cbn [rmatch word_before word_after]. rewrite Wb2. left. reflexivity. }
  left. reflexivity.
Qed.

Lemma slot_text_shape h1 m1 a1 b1 h2 m2 a2 b2 :
  slot_text h1 m1 (String a1 (String b1 EmptyString))
            h2 m2 (String a2 (String b2 EmptyString))
  = (hour_text h1 ++ String ":" (minute_text m1 ++ " " ++ String a1 (String b1
       (" " ++ String "-" (" " ++ hour_text h2 ++ String ":" (minute_text m2
          ++ " " ++ String a2 (String b2 EmptyString)))))))%string.
Proof.
  unfold slot_text, clock_text.
  repeat (rewrite !append_assoc; cbn [append]). reflexivity.
Qed.

Lemma slot_text_matches h1 m1 ap1 h2 m2 ap2 :
  1 <= h1 <= 12 -> is_ampm ap1 = true ->
  1 <= h2 <= 12 -> is_ampm ap2 = true ->
  is_slot (slot_text h1 m1 ap1 h2 m2 ap2) = true.
Proof.
  intros H1 A1 H2 A2.
  apply is_ampm_inv in A1. destruct A1 as (a1 & b1 & -> & Ha1 & Hb1).
  apply is_ampm_inv in A2. destruct A2 as (a2 & b2 & -> & Ha2 & Hb2).
  destruct (hour_text_digits h1 H1) as (D1 & L1 & _).
  destruct (hour_text_digits h2 H2) as (D2 & L2 & _).
  destruct (minute_text_digits m1) as (M1 & N1).
  destruct (minute_text_digits m2) as (M2 & N2).
  rewrite slot_text_shape. apply time_re_intro; auto.
Qed.

(** *** What a matched text looks like *)

Lemma not_hyphen c :
  is_digit c = true \/ is_space c = true \/ Ascii.eqb ":" c = true ->
  Ascii.eqb "-" c = false.
Proof.
  destruct c as [[] [] [] [] [] [] [] []]; vm_compute; intros [H|[H|H]];
    try discriminate H; auto.
Qed.

Lemma no_hyphen_in p w :
  (forall c, p c = true -> Ascii.eqb "-" c = false) ->
  all_chars p w = true -> has_char "-" w = false.
Proof.
  intros Hp. induction w as [|c w IH]; cbn [all_chars has_char];
    [reflexivity|].
  intros H. apply andb_true_iff in H. destruct H as [Hc Hw].
  now rewrite (Hp c Hc), IH.
Qed.

Lemma no_hyphen_digits w : all_chars is_digit w = true -> has_char "-" w = false.
Proof. apply no_hyphen_in. intros c H. apply not_hyphen. auto. Qed.

Lemma no_hyphen_spaces w : all_chars is_space w = true -> has_char "-" w = false.
Proof. apply no_hyphen_in. intros c H. apply not_hyphen. auto. Qed.

Lemma before_char_app sep x y :
  has_char sep x = false -> before_char sep (x ++ String sep y)%string = x.
Proof.
  induction x as [|c x IH]; simpl.
  - now rewrite Ascii.eqb_refl.
  - intros H. apply orb_false_iff in H. destruct H as [Hc Hx].
    rewrite Ascii.eqb_sym, Hc, IH by assumption. reflexivity.
Qed.

Lemma after_char_app sep x y :
  has_char sep x = false -> after_char sep (x ++ String sep y)%string = Some y.
Proof.
  induction x as [|c x IH]; simpl.
  - now rewrite Ascii.eqb_refl.
  - intros H. apply orb_false_iff in H. destruct H as [Hc Hx].
    rewrite Ascii.eqb_sym, Hc. now apply IH.
Qed.

Lemma ends_ampm_app x a b :
  ends_ampm (x ++ String a (String b EmptyString))%string
  = is_ampm (String a (String b EmptyString)).
Proof.
  induction x as [|c x IH]; [reflexivity|].
  cbn [append ends_ampm]. rewrite IH.
  destruct x as [|d x]; [reflexivity|].
  destruct x as [|e x]; reflexivity.
Qed.

Lemma rstrip_spaces ws : all_chars is_space ws = true -> rstrip ws = EmptyString.
Proof.
  induction ws as [|c ws IH]; simpl; [reflexivity|].
  intros H. apply andb_true_iff in H. destruct H as [Hc Hw].
  now rewrite IH, Hc.
Qed.

Lemma rstrip_app_spaces x ws :
  all_chars is_space ws = true -> rstrip (x ++ ws)%string = rstrip x.
Proof.
  intros H. induction x as [|c x IH]; simpl.
  - now apply rstrip_spaces.
  - now rewrite IH.
Qed.

Lemma rstrip_ends_nonblank x b :
  is_space b = false ->
  rstrip (x ++ String b EmptyString)%string = (x ++ String b EmptyString)%string.
Proof.
  intros Hb. induction x as [|c x IH]; simpl.
  - now rewrite Hb.
  - rewrite IH. destruct x; reflexivity.
Qed.

(** One side of a matched range: no hyphen, and [am] or [pm] at its end. *)
Lemma lang_clock w :
  lang clock w ->
  exists body a b,
    w = (body ++ String a (String b EmptyString))%string
    /\ has_char "-" w = false
    /\ is_ampm (String a (String b EmptyString)) = true
    /\ is_space b = false.
Proof.
  unfold clock. cbn [seq lang].
  intros (hd & r1 & -> & (Dh & _) & c & r2 & -> & (cc & -> & Hc) & md & r3 & ->
          & (Dm & _) & ws & r4 & -> & (Sw & _) & ap & r5 & -> & Hap & ->).
  assert (A : exists a b, ap = String a (String b EmptyString)
              /\ (lower_char a = "a"%char \/ lower_char a = "p"%char)
              /\ lower_char b = "m"%char).
  { unfold ampm in Hap. cbn [lang liti] in Hap. unfold chri in Hap.
    destruct Hap as [Hap|Hap];
      destruct Hap as (x & y & -> & (a & -> & Ea) & z & t & -> & (b & -> & Eb)
                       & ->);
      exists a, b; apply Ascii.eqb_eq in Ea, Eb; simpl; auto. }
  destruct A as (a & b & -> & Ha & Hb).
  destruct (lower_am_cases a) as (_ & _ & _ & Na); [tauto|].
  destruct (lower_am_cases b) as (_ & Sb & _ & Nb); [tauto|].
  exists (hd ++ String cc (md ++ ws))%string, a, b.
  repeat split.
  - rewrite append_empty_r, !append_assoc. cbn [append].
    now rewrite !append_assoc.
  - rewrite !has_char_append. cbn [has_char].
    rewrite (no_hyphen_digits _ Dh), (no_hyphen_digits _ Dm),
      (no_hyphen_spaces _ Sw).
    rewrite (not_hyphen cc) by (right; right; rewrite Ascii.eqb_sym; exact Hc).
    rewrite (Ascii.eqb_sym "-" a), Na, (Ascii.eqb_sym "-" b), Nb. reflexivity.
  - unfold is_ampm. cbn [lower]. rewrite Hb.
    destruct Ha as [-> | ->]; reflexivity.
  - exact Sb.
Qed.

Lemma slot_shape s :
  is_slot s = true ->
  exists c1 ws1 ws2 c2,
    s = (c1 ++ ws1 ++ String "-" (ws2 ++ c2))%string
    /\ lang clock c1 /\ all_chars is_space ws1 = true
    /\ all_chars is_space ws2 = true /\ lang clock c2.
Proof.
  intros H. apply fullmatch_lang in H. unfold TIME_RE in H.
  cbn [seq] in H.
  destruct H as (w0 & r0 & -> & E0 & c1 & r1 & -> & L1 & ws1 & r2 & -> & (S1 & _)
                 & h & r3 & -> & (cc & -> & Hc) & ws2 & r4 & -> & (S2 & _)
                 & c2 & r5 & -> & L2 & w6 & r6 & -> & E6 & E7).
  cbn [lang] in E0, E6, E7. subst w0 w6 r6.
  apply Ascii.eqb_eq in Hc. subst cc.
  exists c1, ws1, ws2, c2. repeat split; auto.
  cbn [append]. now rewrite !append_empty_r.
Qed.

Lemma slot_has_hyphen s : is_slot s = true -> has_char "-" s = true.
Proof.
  intros H. apply slot_shape in H.
  destruct H as (c1 & ws1 & ws2 & c2 & -> & _).
  rewrite !has_char_append. cbn [has_char]. rewrite Ascii.eqb_refl.
  now rewrite !orb_true_r.
Qed.

Lemma slot_has_ampm s : is_slot s = true -> ampm_on_both_sides s = true.
Proof.
  intros H. apply slot_shape in H.
  destruct H as (c1 & ws1 & ws2 & c2 & -> & L1 & S1 & S2 & L2).
  apply lang_clock in L1, L2.
  destruct L1 as (x1 & a1 & b1 & E1 & N1 & A1 & B1).
  destruct L2 as (x2 & a2 & b2 & E2 & N2 & A2 & B2).
  unfold ampm_on_both_sides.
  rewrite <- append_assoc.
  assert (N : has_char "-" (c1 ++ ws1) = false).
  { now rewrite has_char_append, N1, (no_hyphen_spaces _ S1). }
  rewrite (after_char_app _ _ _ N), (before_char_app _ _ _ N).
  rewrite (rstrip_app_spaces _ _ S1). rewrite E1.
  replace (x1 ++ String a1 (String b1 EmptyString))%string
    with ((x1 ++ String a1 EmptyString) ++ String b1 EmptyString)%string
    by (rewrite append_assoc; reflexivity).
  rewrite (rstrip_ends_nonblank _ _ B1).
  rewrite (append_assoc x1). cbn [append]. rewrite ends_ampm_app, A1.
  rewrite E2, <- append_assoc, ends_ampm_app, A2. reflexivity.
Qed.

Example slot_text_example :
  slot_text 8 0 "am" 9 0 "am" = "8:00 am - 9:00 am".
Proof. reflexivity. Qed.

(** C2.  Every text [H:MM xm - H:MM xm] with the hour between 1 and 12,
    the minute between 00 and 59, [xm] being [am] or [pm] in any mix of
    cases and single blanks around the hyphen and before [xm], is matched
    in full by [TIME_RE]; a text without a hyphen is not, and neither is a
    text that does not end with [am] or [pm] on both sides of its
    hyphen. *)
Theorem time_re_fullmatch :
  (forall h1 m1 ap1 h2 m2 ap2,
     1 <= h1 <= 12 -> m1 <= 59 -> is_ampm ap1 = true ->
     1 <= h2 <= 12 -> m2 <= 59 -> is_ampm ap2 = true ->
     is_slot (slot_text h1 m1 ap1 h2 m2 ap2) = true)
  /\ (forall s, has_char "-" s = false -> is_slot s = false)
  /\ (forall s, ampm_on_both_sides s = false -> is_slot s = false).
Proof.
  split; [|split].
  - intros h1 m1 ap1 h2 m2 ap2 H1 _ A1 H2 _ A2.
    now apply slot_text_matches.
  - intros s H. destruct (is_slot s) eqn:E; [|reflexivity].
    apply slot_has_hyphen in E. congruence.
  - intros s H. destruct (is_slot s) eqn:E; [|reflexivity].
    apply slot_has_ampm in E. congruence.
Qed.

Lemma time_re_fullmatch_witness :
  is_slot (slot_text 8 0 "am" 12 59 "PM") = true
  /\ is_slot "8:00 am to 9:00 am" = false
  /\ is_slot "8:00 - 9:00 am" = false.
Proof.
  destruct time_re_fullmatch as (P & N1 & N2).
  split; [apply P; try lia; reflexivity|].
  split; [apply N1; reflexivity | apply N2; reflexivity].
Defined.

End SlotFacts.

(** ** The listing normalisers *)

Module ListingFacts.
Import Text Regex Slot Dom Listing Shapes Samples TextFacts.

Lemma collect_from acc anchors :
  fold_left add_slot anchors acc
  = (fst acc ++ available_of anchors, snd acc ++ unavailable_of anchors).
Proof.
  revert acc. induction anchors as [|a l IH]; intros [A U].
  - simpl. now rewrite !app_nil_r.
  - cbn [fold_left]. rewrite IH. unfold add_slot, available_of, unavailable_of.
    cbn [flat_map]. destruct (classify a); cbn [fst snd app];
      rewrite <- ?app_assoc; reflexivity.
Qed.

Lemma collect_slots_eq anchors :
  collect_slots anchors = (available_of anchors, unavailable_of anchors).
Proof. unfold collect_slots. now rewrite collect_from. Qed.

Lemma in_available_of t anchors :
  In t (available_of anchors) ->
  exists a, In a anchors /\ classify a = Available t.
Proof.
  unfold available_of. intros H. apply in_flat_map in H.
  destruct H as (a & Ha & Ht). exists a. split; [assumption|].
  destruct (classify a); simpl in Ht; try contradiction.
  destruct Ht as [->|[]]. reflexivity.
Qed.

Lemma in_unavailable_of t anchors :
  In t (unavailable_of anchors) ->
  exists a, In a anchors /\ classify a = Unavailable t.
Proof.
  unfold unavailable_of. intros H. apply in_flat_map in H.
  destruct H as (a & Ha & Ht). exists a. split; [assumption|].
  destruct (classify a); simpl in Ht; try contradiction.
  destruct Ht as [->|[]]. reflexivity.
Qed.

(** Every record of the table loop is built from a row and, when it has
    slots, from a row of the same list. *)
Lemma table_rows_inv : forall n rows r,
  List.length rows <= n -> In r (table_rows rows) ->
  exists row cart,
    r = table_record row cart
    /\ match cart with Some c => In c rows | None => True end.
Proof.
  induction n as [|n IH]; intros rows r Hn Hr.
  - destruct rows; [contradiction | simpl in Hn; lia].
  - destruct rows as [|row rest]; [contradiction|].
    cbn [table_rows] in Hr. simpl in Hn.
    destruct (label_cells_of row) as [|c cs].
    + destruct (IH rest r ltac:(lia) Hr) as (row' & cart & E & Hc).
      exists row', cart. split; [assumption|].
      destruct cart; simpl; auto.
    + destruct rest as [|cart rest'].
      * destruct Hr as [<-|[]]. exists row, None. auto.
      * destruct Hr as [<-|Hr].
        -- exists row, (Some cart). simpl. auto.
        -- simpl in Hn.
           destruct (IH rest' r ltac:(lia) Hr) as (row' & cart' & E & Hc).
           exists row', cart'. split; [assumption|].
           destruct cart'; simpl; auto.
Qed.

Lemma table_record_slots row cart :
  (available_slots (table_record row cart),
   unavailable_slots (table_record row cart))
  = match cart with
    | Some c => collect_slots (cart_buttons c)
    | None => ([], [])
    end.
Proof. unfold table_record. cbn. destruct cart; [destruct (collect_slots _)|]; reflexivity. Qed.

Lemma card_record_slots above card :
  (available_slots (card_record above card),
   unavailable_slots (card_record above card))
  = collect_slots (cart_buttons card).
Proof. unfold card_record. cbn. destruct (collect_slots _); reflexivity. Qed.


(** *** Substrings of the class string *)

Lemma prefix_append sub y : String.prefix sub (sub ++ y)%string = true.
Proof.
  induction sub as [|c sub IH]; [destruct y; reflexivity|].
  cbn [append String.prefix]. destruct (ascii_dec c c); [exact IH|congruence].
Qed.

Lemma contains_append sub x y : contains sub (x ++ sub ++ y)%string = true.
Proof.
  induction x as [|c x IH].
  - cbn [append]. destruct (sub ++ y)%string eqn:E; cbn [contains];
      rewrite <- E, prefix_append; reflexivity.
  - cbn [append contains]. rewrite IH. apply orb_true_r.
Qed.

Lemma lower_append a b : lower (a ++ b) = (lower a ++ lower b)%string.
Proof. induction a as [|c a IH]; cbn [append lower]; [|rewrite IH]; reflexivity. Qed.

Lemma join_has_token sep t l :
  In t l -> exists x y, join sep l = (x ++ t ++ y)%string.
Proof.
  unfold join. induction l as [|a l IH]; [contradiction|].
  intros [->|H].
  - destruct l as [|b l].
    + exists EmptyString, EmptyString. cbn [String.concat append].
      now rewrite append_empty_r.
    + exists EmptyString, (sep ++ String.concat sep (b :: l))%string.
      reflexivity.
  - destruct (IH H) as (x & y & E). destruct l as [|b l]; [contradiction|].
    exists (a ++ sep ++ x)%string, y.
    change (String.concat sep (a :: b :: l))
      with (a ++ sep ++ String.concat sep (b :: l))%string.
    rewrite E, !append_assoc. reflexivity.
Qed.

(** A class token shows in the lower-cased class string. *)
Lemma token_in_classes t a :
  In t (class_list a) -> contains (lower t) (classes_of a) = true.
Proof.
  intros H. unfold classes_of.
  destruct (join_has_token " " t _ H) as (x & y & ->).
  rewrite !lower_append. apply contains_append.
Qed.

(** *** The table layout on a sample page *)

(** C1.  On a page whose results table holds one facility row (details link
    with [FMID=296964], label cell [Facility Description] reading
    [Laguna Park Court 1]) followed by a slot row with a [success] /
    [Book Now] anchor showing [8:00 am - 9:00 am] and an [error] /
    [Unavailable] anchor whose first span reads [9:00 am - 10:00 am], the
    table normaliser returns exactly one record, with that identifier and
    label, no location and the two times in their lists. *)
Theorem laguna_page_record :
  parse_listing_table_schedules laguna_page
  = [mkFacility (Some "296964") (Some "Laguna Park Court 1") None
       ["8:00 am - 9:00 am"] ["9:00 am - 10:00 am"]].
Proof. vm_compute. reflexivity. Qed.

(** *** Slots in both lists *)

(** The two lists of a record can share a slot: here both anchors of the
    block show the same time, in either layout. *)
Lemma slot_in_both_lists :
  (exists r,
      In r (parse_listing_table_schedules overlap_page)
      /\ In "8:00 am - 9:00 am" (available_slots r)
      /\ In "8:00 am - 9:00 am" (unavailable_slots r))
  /\ (exists r,
         In r (parse_listing_group_schedules overlap_cards)
         /\ In "8:00 am - 9:00 am" (available_slots r)
         /\ In "8:00 am - 9:00 am" (unavailable_slots r)).
Proof.
  split.
  - exists (mkFacility None (Some "Laguna Park Court 1") None
              ["8:00 am - 9:00 am"] ["8:00 am - 9:00 am"]).
    split; [vm_compute; left; reflexivity|]. split; left; reflexivity.
  - exists (mkFacility (Some "12") (Some "Court A") None
              ["8:00 am - 9:00 am"] ["8:00 am - 9:00 am"]).
    split; [vm_compute; left; reflexivity|]. split; left; reflexivity.
Qed.

Lemma table_record_block soup r :
  In r (parse_listing_table_schedules soup) ->
  exists row cart,
    r = table_record row cart
    /\ match cart with
       | Some c => In c (table_rows_of soup)
       | None => True
       end.
Proof.
  unfold parse_listing_table_schedules, table_rows_of.
  destruct (find_table soup) as [table|]; [|contradiction].
  destruct (find_tbody table) as [tbody|]; [|contradiction].
  intros H. eapply table_rows_inv; [apply Nat.le_refl | exact H].
Qed.

Lemma card_record_block soup r :
  In r (parse_listing_group_schedules soup) ->
  exists above card, r = card_record above card /\ In card (cards_of soup).
Proof.
  unfold parse_listing_group_schedules, cards_of.
  destruct (find_container soup) as [[above container]|]; [|contradiction].
  intros H. apply in_map_iff in H. destruct H as ([ab card] & <- & H).
  exists ab, card. split; [reflexivity|].
  apply in_map_iff. exists (ab, card). auto.
Qed.

(** Every record of the table loop is built from a row that has label
    cells and from the row that follows it in the list, when there is
    one. *)
Lemma table_rows_at : forall n rows r,
  List.length rows <= n -> In r (table_rows rows) ->
  (exists pre row cart post,
      rows = pre ++ row :: cart :: post
      /\ label_cells_of row <> []
      /\ r = table_record row (Some cart))
  \/ (exists pre row,
         rows = pre ++ [row]
         /\ label_cells_of row <> []
         /\ r = table_record row None).
Proof.
  induction n as [|n IH]; intros rows r Hn Hr.
  - destruct rows; [contradiction | simpl in Hn; lia].
  - destruct rows as [|row rest]; [contradiction|].
    cbn [table_rows] in Hr. simpl in Hn.
    destruct (label_cells_of row) as [|c cs] eqn:Lc.
    + destruct (IH rest r ltac:(lia) Hr)
        as [(pre & row' & cart & post & E & Hl & Hrec)
           |(pre & row' & E & Hl & Hrec)].
      * left. exists (row :: pre), row', cart, post. rewrite E. auto.
      * right. exists (row :: pre), row'. rewrite E. auto.
    + destruct rest as [|cart rest'].
      * destruct Hr as [<-|[]]. right. exists [], row.
        rewrite Lc. repeat split; auto. discriminate.
      * destruct Hr as [<-|Hr].
        -- left. exists [], row, cart, rest'.
           rewrite Lc. repeat split; auto. discriminate.
        -- simpl in Hn.
           destruct (IH rest' r ltac:(lia) Hr)
             as [(pre & row' & cart' & post & E & Hl & Hrec)
                |(pre & row' & E & Hl & Hrec)].
           ++ left. exists (row :: cart :: pre), row', cart', post.
              rewrite E. auto.
           ++ right. exists (row :: cart :: pre), row'. rewrite E. auto.
Qed.

Lemma table_record_at soup r :
  In r (parse_listing_table_schedules soup) ->
  (exists pre row cart post,
      table_rows_of soup = pre ++ row :: cart :: post
      /\ label_cells_of row <> []
      /\ r = table_record row (Some cart))
  \/ (exists pre row,
         table_rows_of soup = pre ++ [row]
         /\ label_cells_of row <> []
         /\ r = table_record row None).
Proof.
  unfold parse_listing_table_schedules, table_rows_of.
  destruct (find_table soup) as [table|]; [|contradiction].
  destruct (find_tbody table) as [tbody|]; [|contradiction].
  intros H. eapply table_rows_at; [apply Nat.le_refl | exact H].
Qed.

(** A text in both lists of a block comes from two of its anchors. *)
Lemma shared_in_block anchors t :
  In t (fst (collect_slots anchors)) -> In t (snd (collect_slots anchors)) ->
  exists a1 a2,
    In a1 anchors /\ In a2 anchors /\ a1 <> a2
    /\ classify a1 = Available t /\ classify a2 = Unavailable t.
Proof.
  rewrite collect_slots_eq. cbn [fst snd]. intros HA HU.
  apply in_available_of in HA. apply in_unavailable_of in HU.
  destruct HA as (a1 & I1 & C1). destruct HU as (a2 & I2 & C2).
  exists a1, a2. repeat split; auto. intros E. congruence.
Qed.

(** C3, as the code has it.  A slot text is in both lists of a record
    only when the record's own slot row, or its own card, holds two anchors
    with that text, one classified available and the other unavailable: in
    the table layout the record is the one built from a facility row and
    the row that follows it in the table body, and the two anchors are in
    that following row; in the card layout the record is the one built from
    a card of the results group, and the two anchors are in that card. *)
Theorem shared_slot_needs_two_anchors soup r t :
  In r (parse_listing_table_schedules soup)
  \/ In r (parse_listing_group_schedules soup) ->
  In t (available_slots r) -> In t (unavailable_slots r) ->
  (exists pre row cart post a1 a2,
      table_rows_of soup = pre ++ row :: cart :: post
      /\ label_cells_of row <> []
      /\ r = table_record row (Some cart)
      /\ In a1 (cart_buttons cart) /\ In a2 (cart_buttons cart)
      /\ a1 <> a2
      /\ classify a1 = Available t /\ classify a2 = Unavailable t)
  \/ (exists above card a1 a2,
         In card (cards_of soup)
         /\ r = card_record above card
         /\ In a1 (cart_buttons card) /\ In a2 (cart_buttons card)
         /\ a1 <> a2
         /\ classify a1 = Available t /\ classify a2 = Unavailable t).
Proof.
  intros [H|H] HA HU.
  - left. apply table_record_at in H.
    destruct H as [(pre & row & cart & post & E & Hl & ->)
                  |(pre & row & E & Hl & ->)].
    + pose proof (table_record_slots row (Some cart)) as S.
      pose proof (f_equal fst S) as SA. pose proof (f_equal snd S) as SU.
      cbn [fst snd] in SA, SU. rewrite SA in HA. rewrite SU in HU.
      destruct (shared_in_block _ _ HA HU)
        as (a1 & a2 & I1 & I2 & N & C1 & C2).
      exists pre, row, cart, post, a1, a2. auto 10.
    + pose proof (f_equal fst (table_record_slots row None)) as SA.
      cbn [fst] in SA. rewrite SA in HA. contradiction.
  - right. apply card_record_block in H.
    destruct H as (above & card & -> & Hc).
    pose proof (card_record_slots above card) as S.
    pose proof (f_equal fst S) as SA. pose proof (f_equal snd S) as SU.
    cbn [fst snd] in SA, SU. rewrite SA in HA. rewrite SU in HU.
    destruct (shared_in_block _ _ HA HU)
      as (a1 & a2 & I1 & I2 & N & C1 & C2).
    exists above, card, a1, a2. auto 10.
Qed.

Lemma shared_slot_needs_two_anchors_witness :
  (exists pre row cart post a1 a2,
      table_rows_of overlap_page = pre ++ row :: cart :: post
      /\ label_cells_of row <> []
      /\ mkFacility None (Some "Laguna Park Court 1") None
           ["8:00 am - 9:00 am"] ["8:00 am - 9:00 am"]
         = table_record row (Some cart)
      /\ In a1 (cart_buttons cart) /\ In a2 (cart_buttons cart)
      /\ a1 <> a2
      /\ classify a1 = Available "8:00 am - 9:00 am"
      /\ classify a2 = Unavailable "8:00 am - 9:00 am")
  \/ (exists above card a1 a2,
         In card (cards_of overlap_page)
         /\ mkFacility None (Some "Laguna Park Court 1") None
              ["8:00 am - 9:00 am"] ["8:00 am - 9:00 am"]
            = card_record above card
         /\ In a1 (cart_buttons card) /\ In a2 (cart_buttons card)
         /\ a1 <> a2
         /\ classify a1 = Available "8:00 am - 9:00 am"
         /\ classify a2 = Unavailable "8:00 am - 9:00 am").
Proof.
  apply (shared_slot_needs_two_anchors overlap_page
           (mkFacility None (Some "Laguna Park Court 1") None
              ["8:00 am - 9:00 am"] ["8:00 am - 9:00 am"])).
  - left. vm_compute. left. reflexivity.
  - left. reflexivity.
  - left. reflexivity.
Defined.

(** *** Absent table and the fall-back *)

Lemma fetch_schedule_items soup d base out :
  fetch_schedule soup d base = Some out -> map item out = select_items soup.
Proof.
  unfold fetch_schedule. destruct (select_items soup) as [|it items].
  - intros H. now injection H as <-.
  - destruct (source_tag base) as [src|]; [|discriminate].
    intros H. injection H as <-. cbn [map item]. f_equal.
    induction items as [|x l IH]; [reflexivity|].
    cbn [map item]. now rewrite IH.
Qed.

(** C4.  Without the results table, or without a body in it, the table
    normaliser returns the empty list; and the facilities that
    [fetch_schedule] returns, their date and source tags aside, are the
    card normaliser's when the table normaliser returned none and the
    table normaliser's otherwise. *)
Theorem table_absent_then_cards :
  (forall soup, find_table soup = None ->
                parse_listing_table_schedules soup = [])
  /\ (forall soup table,
         find_table soup = Some table -> find_tbody table = None ->
         parse_listing_table_schedules soup = [])
  /\ (forall soup d base out,
         fetch_schedule soup d base = Some out ->
         parse_listing_table_schedules soup = [] ->
         map item out = parse_listing_group_schedules soup)
  /\ (forall soup d base out,
         fetch_schedule soup d base = Some out ->
         parse_listing_table_schedules soup <> [] ->
         map item out = parse_listing_table_schedules soup)
  /\ (forall soup d base src,
         source_tag base = Some src ->
         fetch_schedule soup d base
         = Some (map (fun it => mkTagged it d src) (select_items soup))).
Proof.
  split; [|split; [|split; [|split]]].
  - intros soup H. unfold parse_listing_table_schedules. now rewrite H.
  - intros soup table H1 H2. unfold parse_listing_table_schedules.
    now rewrite H1, H2.
  - intros soup d base out F H. rewrite (fetch_schedule_items _ _ _ _ F).
    unfold select_items. now rewrite H.
  - intros soup d base out F H. rewrite (fetch_schedule_items _ _ _ _ F).
    unfold select_items.
    destruct (parse_listing_table_schedules soup); [congruence|reflexivity].
  - intros soup d base src H. unfold fetch_schedule. rewrite H.
    destruct (select_items soup); reflexivity.
Qed.

Lemma table_absent_then_cards_witness :
  parse_listing_table_schedules overlap_cards = []
  /\ parse_listing_table_schedules bodyless_page = []
  /\ (exists out,
         fetch_schedule overlap_cards "2025-10-06"
           "https://ca-burlingame.example.org/wbwsc" = Some out
         /\ map item out = parse_listing_group_schedules overlap_cards)
  /\ (exists out,
         fetch_schedule laguna_page "2025-10-06"
           "https://ca-burlingame.example.org/wbwsc" = Some out
         /\ map item out = parse_listing_table_schedules laguna_page).
Proof.
  destruct table_absent_then_cards as (A & B & C & D & E).
  split; [apply A; reflexivity|].
  split; [apply (B bodyless_page _ eq_refl); reflexivity|].
  pose proof (E overlap_cards "2025-10-06"
                "https://ca-burlingame.example.org/wbwsc"
                "ca-burlingame_webtrac" eq_refl) as F1.
  pose proof (E laguna_page "2025-10-06"
                "https://ca-burlingame.example.org/wbwsc"
                "ca-burlingame_webtrac" eq_refl) as F2.
  split; eexists.
  - split; [exact F1|]. apply (C _ _ _ _ F1). reflexivity.
  - split; [exact F2|]. apply (D _ _ _ _ F2). vm_compute. discriminate.
Defined.

(** *** One anchor, one list *)

(** What the anchors of a block add to the two lists: never more
    texts than there are anchors. *)
Lemma collected_at_most_one_each anchors :
  List.length (available_of anchors) + List.length (unavailable_of anchors)
  <= List.length anchors.
Proof.
  unfold available_of, unavailable_of.
  induction anchors as [|a l IH]; [reflexivity|].
  cbn [flat_map List.length]. rewrite !length_app.
  destruct (classify a); cbn [List.length]; lia.
Qed.

Lemma available_collected anchors a t :
  In a anchors -> classify a = Available t -> In t (available_of anchors).
Proof.
  intros Ha C. unfold available_of. apply in_flat_map.
  exists a. split; [assumption|]. rewrite C. now left.
Qed.

Lemma unavailable_collected anchors a t :
  In a anchors -> classify a = Unavailable t -> In t (unavailable_of anchors).
Proof.
  intros Ha C. unfold unavailable_of. apply in_flat_map.
  exists a. split; [assumption|]. rewrite C. now left.
Qed.

(** C9.  In both normalisers the lists of a record are filled by the same
    loop over the [a.cart-button] elements of its slot row or card.  One
    turn of the loop appends the text of an anchor classified available to
    the available list and leaves the other list, appends the text of an
    anchor classified unavailable to the unavailable list and leaves the
    other list, and otherwise leaves both; so the two lists together hold
    at most one text for each anchor, the text of an anchor classified
    available is in the available list, and every text of that list comes
    from such an anchor (the same for unavailable).  An anchor that passes
    the available test (class string containing [success], which a class
    token [success] ensures, and tooltip containing [book now]) is
    classified by that branch, whatever the unavailable test says, and an
    anchor is classified unavailable only when the available test failed. *)
Theorem anchor_feeds_one_list :
  (forall row cart,
      (available_slots (table_record row (Some cart)),
       unavailable_slots (table_record row (Some cart)))
      = collect_slots (cart_buttons cart))
  /\ (forall above card,
         (available_slots (card_record above card),
          unavailable_slots (card_record above card))
         = collect_slots (cart_buttons card))
  /\ (forall acc a t,
         classify a = Available t ->
         add_slot acc a = (fst acc ++ [t], snd acc))
  /\ (forall acc a t,
         classify a = Unavailable t ->
         add_slot acc a = (fst acc, snd acc ++ [t]))
  /\ (forall acc a, classify a = Nothing -> add_slot acc a = acc)
  /\ (forall anchors,
         List.length (fst (collect_slots anchors))
         + List.length (snd (collect_slots anchors))
         <= List.length anchors)
  /\ (forall anchors a t,
         In a anchors -> classify a = Available t ->
         In t (fst (collect_slots anchors)))
  /\ (forall anchors a t,
         In a anchors -> classify a = Unavailable t ->
         In t (snd (collect_slots anchors)))
  /\ (forall anchors t,
         In t (fst (collect_slots anchors)) ->
         exists a, In a anchors /\ classify a = Available t)
  /\ (forall anchors t,
         In t (snd (collect_slots anchors)) ->
         exists a, In a anchors /\ classify a = Unavailable t)
  /\ (forall a,
         In "success" (class_list a) ->
         contains "book now" (tooltip_of a) = true ->
         available_test a = true)
  /\ (forall a,
         available_test a = true ->
         classify a
         = if is_slot (get_text_strip a)
           then Available (get_text_strip a) else Nothing)
  /\ (forall a t,
         classify a = Unavailable t ->
         available_test a = false /\ unavailable_test a = true).
Proof.
  split; [|split; [|split; [|split; [|split; [|split; [|split; [|split;
    [|split; [|split; [|split; [|split]]]]]]]]]]].
  - intros row cart. apply (table_record_slots row (Some cart)).
  - apply card_record_slots.
  - intros acc a t C. unfold add_slot. now rewrite C.
  - intros acc a t C. unfold add_slot. now rewrite C.
  - intros acc a C. unfold add_slot. now rewrite C.
  - intros anchors. rewrite collect_slots_eq. cbn [fst snd].
    apply collected_at_most_one_each.
  - intros anchors a t Ha C. rewrite collect_slots_eq. cbn [fst].
    now apply available_collected with (a := a).
  - intros anchors a t Ha C. rewrite collect_slots_eq. cbn [snd].
    now apply unavailable_collected with (a := a).
  - intros anchors t. rewrite collect_slots_eq. cbn [fst].
    apply in_available_of.
  - intros anchors t. rewrite collect_slots_eq. cbn [snd].
    apply in_unavailable_of.
  - intros a Hc Ht. unfold available_test.
    pose proof (token_in_classes "success" a Hc) as E.
    change (lower "success") with "success" in E.
    rewrite E, Ht. reflexivity.
  - intros a H. unfold classify. now rewrite H.
  - intros a t. unfold classify.
    destruct (available_test a).
    + destruct (is_slot _); discriminate.
    + destruct (unavailable_test a); [auto | discriminate].
Qed.

Lemma anchor_feeds_one_list_witness :
  available_test both_ways_anchor = true
  /\ classify both_ways_anchor = Available "8:00 am - 9:00 am"
  /\ In "8:00 am - 9:00 am"
       (available_slots
          (table_record (Elem "tr" [] [])
             (Some (Elem "tr" [] [Elem "td" [] [both_ways_anchor]]))))
  /\ available_test
       (Elem "a" [("class", "error cart-button");
                  ("data-tooltip", "Unavailable")]
          [Elem "span" [] [TextNode "9:00 am - 10:00 am"]]) = false.
Proof.
  destruct anchor_feeds_one_list
    as (R & _ & _ & _ & _ & _ & I & _ & _ & _ & T & A & U).
  assert (H : available_test both_ways_anchor = true).
  { apply T; [left; reflexivity | reflexivity]. }
  assert (C : classify both_ways_anchor = Available "8:00 am - 9:00 am").
  { rewrite (A _ H). reflexivity. }
  split; [exact H|]. split; [exact C|]. split.
  - pose proof (f_equal fst (R (Elem "tr" [] [])
                               (Elem "tr" []
                                  [Elem "td" [] [both_ways_anchor]]))) as E.
    cbn [fst] in E. rewrite E.
    apply (I _ both_ways_anchor); [|exact C].
    vm_compute. left. reflexivity.
  - apply (U _ "9:00 am - 10:00 am"). reflexivity.
Defined.

End ListingFacts.

(** ** Grouping by date *)

Module GroupingFacts.
Import Text Json Grouping Shapes Samples TextFacts.

(** *** Equality and order of keys *)

Lemma key_eqb_sym a b : key_eqb a b = key_eqb b a.
Proof.
  destruct a as [| [] | p | s | l | fs], b as [| [] | q | t | l' | fs'];
    cbn [key_eqb as_number]; try reflexivity;
    try apply String.eqb_sym;
    apply eq_true_iff_eq; rewrite !Qeq_bool_iff;
    split; intros H; symmetry; exact H.
Qed.

Lemma key_eqb_refl d : hashable d = true -> key_eqb d d = true.
Proof.
  destruct d as [| [] | q | s | l | fs]; cbn [key_eqb as_number hashable];
    try discriminate; intros _; try reflexivity.
  - apply Qeq_bool_iff. reflexivity.
  - apply String.eqb_refl.
Qed.

Lemma key_eqb_trans a b c :
  key_eqb a b = true -> key_eqb b c = true -> key_eqb a c = true.
Proof.
  destruct a as [| [] | p | s | l | fs], b as [| [] | q | t | l' | fs'];
    cbn [key_eqb as_number]; try discriminate;
    destruct c as [| [] | r | u | l'' | fs'']; cbn [key_eqb as_number];
    try discriminate; try reflexivity;
    first [ intros _ _; reflexivity
          | intros _ H; exact H
          | rewrite !String.eqb_eq; congruence
          | intros H1 H2; apply Qeq_bool_iff in H1, H2; apply Qeq_bool_iff;
            apply (Qeq_trans _ _ _ H1 H2) ].
Qed.

Lemma key_eqb_apart k' k d :
  key_eqb k' k = false -> key_eqb k d = true -> key_eqb k' d = false.
Proof.
  intros H1 H2. destruct (key_eqb k' d) eqn:E; [|reflexivity].
  rewrite key_eqb_sym in H2.
  now rewrite (key_eqb_trans _ _ _ E H2) in H1.
Qed.

Lemma Qle_bool_total p q : Qle_bool p q = false -> Qle_bool q p = true.
Proof.
  intros H. apply Qle_bool_iff. apply Qlt_le_weak. apply Qnot_le_lt.
  intros C. apply Qle_bool_iff in C. congruence.
Qed.

Lemma string_leb_total s t : String.leb s t = false -> String.leb t s = true.
Proof. destruct (String.leb_total s t); congruence. Qed.

Lemma key_leb_total a b :
  key_leb a b = Some false -> key_leb b a = Some true.
Proof.
  destruct a as [| [] | p | s | l | fs], b as [| [] | q | t | l' | fs'];
    cbn [key_leb as_number]; try discriminate;
    intros H;
    match type of H with
    | Some (Qle_bool ?x ?y) = _ =>
        destruct (Qle_bool x y) eqn:E;
          [discriminate H | rewrite (Qle_bool_total _ _ E); reflexivity]
    | Some (String.leb ?x ?y) = _ =>
        destruct (String.leb x y) eqn:E;
          [discriminate H | rewrite (string_leb_total _ _ E); reflexivity]
    end.
Qed.

(** *** The grouping loop *)

Section Loop.

Variable date_of : obj -> json.

Lemma fold_step_none items :
  fold_left (group_step date_of) items None = None.
Proof. induction items as [|a l IH]; [reflexivity | exact IH]. Qed.

Lemma step_filed g a d :
  filed_under date_of a d ->
  group_step date_of (Some g) a = Some (add_member d a g).
Proof.
  intros (fs & -> & <- & T & H). cbn [group_step bind]. now rewrite T, H.
Qed.

(** What one turn does to the dictionary. *)
Lemma step_cases g a :
  group_step date_of (Some g) a = Some g
  \/ group_step date_of (Some g) a = None
  \/ exists d, filed_under date_of a d
               /\ group_step date_of (Some g) a = Some (add_member d a g).
Proof.
  destruct a as [| b | q | s | l | fs]; cbn [group_step bind]; auto.
  destruct (truthy (date_of fs)) eqn:T; auto.
  destruct (hashable (date_of fs)) eqn:H; auto.
  right. right. exists (date_of fs). split; [|reflexivity].
  exists fs. auto.
Qed.

Lemma add_member_new d a g :
  (forall x, In x g -> key_eqb (fst x) d = false) ->
  add_member d a g = g ++ [(d, [a])].
Proof.
  induction g as [|[k ms] g IH]; intros H; [reflexivity|].
  cbn [add_member app].
  assert (E : key_eqb k d = false) by (apply (H (k, ms)); now left).
  rewrite E, IH; [reflexivity|]. intros x Hx. apply H. now right.
Qed.

Lemma add_member_last d a g k ms :
  (forall x, In x g -> key_eqb (fst x) d = false) ->
  key_eqb k d = true ->
  add_member d a (g ++ [(k, ms)]) = g ++ [(k, ms ++ [a])].
Proof.
  induction g as [|[k' ms'] g IH]; intros H E.
  - cbn [add_member app]. now rewrite E.
  - cbn [add_member app].
    assert (E' : key_eqb k' d = false) by (apply (H (k', ms')); now left).
    rewrite E', IH; [reflexivity| |assumption].
    intros x Hx. apply H. now right.
Qed.

Lemma in_add_member d a g x :
  In x (add_member d a g) ->
  fst x = d \/ exists y, In y g /\ fst x = fst y.
Proof.
  induction g as [|[k ms] g IH]; cbn [add_member].
  - intros [<-|[]]. now left.
  - destruct (key_eqb k d).
    + intros [<-|H]; right.
      * exists (k, ms). split; [now left | reflexivity].
      * exists x. split; [now right | reflexivity].
    + intros [<-|H].
      * right. exists (k, ms). split; [now left | reflexivity].
      * destruct (IH H) as [E|(y & Hy & E)]; [now left|].
        right. exists y. split; [now right | assumption].
Qed.

Lemma group_ok_add k ms a d :
  group_ok date_of k ms -> filed_under date_of a d -> key_eqb k d = true ->
  group_ok date_of k (ms ++ [a]).
Proof.
  destruct ms as [|m ms]; [contradiction|]. intros (H0 & Hall) Ha E.
  cbn [app group_ok]. split; [assumption|].
  intros m' Hm. change (m :: ms ++ [a]) with ((m :: ms) ++ [a]) in Hm.
  apply in_app_or in Hm. destruct Hm as [Hm|[<-|[]]]; [now apply Hall|].
  exists d. auto.
Qed.

Lemma add_member_well_formed g a d :
  well_formed date_of g -> filed_under date_of a d ->
  well_formed date_of (add_member d a g).
Proof.
  intros W Ha. induction g as [|[k ms] g IH].
  - cbn [add_member well_formed group_ok]. split; [split|split].
    + exact Ha.
    + intros m' [<-|[]]. exists d. split; [assumption|].
      destruct Ha as (fs & _ & _ & _ & H). now apply key_eqb_refl.
    + intros x [].
    + exact I.
  - destruct W as (G & D & W). cbn [add_member].
    destruct (key_eqb k d) eqn:E; cbn [well_formed].
    + repeat split; auto. now apply group_ok_add with (d := d).
    + repeat split; auto. intros x Hx. apply in_add_member in Hx.
      destruct Hx as [->|(y & Hy & ->)]; [assumption | now apply D].
Qed.

Lemma fold_well_formed items : forall g g',
  well_formed date_of g ->
  fold_left (group_step date_of) items (Some g) = Some g' ->
  well_formed date_of g'.
Proof.
  induction items as [|a l IH]; intros g g' W H; cbn [fold_left] in H.
  - now injection H as <-.
  - destruct (step_cases g a) as [E|[E|(d & F & E)]]; rewrite E in H.
    + now apply (IH g).
    + now rewrite fold_step_none in H.
    + apply (IH (add_member d a g)); [|assumption].
      now apply add_member_well_formed.
Qed.

(** Filing the members of one group again, behind the groups before it. *)
Lemma refile_members ms : forall ms0 g k,
  (forall x, In x g -> key_eqb (fst x) k = false) ->
  (forall m, In m ms ->
             exists d, filed_under date_of m d /\ key_eqb k d = true) ->
  fold_left (group_step date_of) ms (Some (g ++ [(k, ms0)]))
  = Some (g ++ [(k, ms0 ++ ms)]).
Proof.
  induction ms as [|m ms IH]; intros ms0 g k D H.
  - cbn [fold_left]. now rewrite app_nil_r.
  - cbn [fold_left]. destruct (H m (or_introl eq_refl)) as (d & F & E).
    rewrite (step_filed _ _ _ F).
    rewrite add_member_last; [| |assumption].
    + rewrite IH; [|assumption|].
      * now rewrite <- app_assoc.
      * intros m' Hm. apply H. now right.
    + intros x Hx. apply key_eqb_apart with (k := k); auto.
Qed.

Lemma well_formed_split g1 x g2 :
  well_formed date_of (g1 ++ x :: g2) ->
  group_ok date_of (fst x) (snd x)
  /\ forall y, In y g1 -> key_eqb (fst y) (fst x) = false.
Proof.
  induction g1 as [|[k ms] g1 IH]; cbn [app well_formed].
  - destruct x as [k ms]. intros (G & _). split; [exact G | contradiction].
  - intros (G & D & W). destruct (IH W) as (Gx & Dx).
    split; [assumption|]. intros y [<-|Hy]; [|now apply Dx].
    apply D. apply in_or_app. right. now left.
Qed.

(** Grouping the members of well-formed groups, in their order, gives the
    groups back. *)
Lemma regroup g2 : forall g1,
  well_formed date_of (g1 ++ g2) ->
  fold_left (group_step date_of) (flatten g2) (Some g1) = Some (g1 ++ g2).
Proof.
  induction g2 as [|[k ms] g2 IH]; intros g1 W.
  - cbn. now rewrite app_nil_r.
  - destruct (well_formed_split _ _ _ W) as (G & D). cbn [fst snd] in G, D.
    unfold flatten. cbn [flat_map snd]. rewrite fold_left_app.
    destruct ms as [|m ms]; [contradiction|]. destruct G as (F0 & Hall).
    cbn [fold_left]. rewrite (step_filed _ _ _ F0).
    rewrite (add_member_new _ _ _ D).
    rewrite refile_members; [|assumption|].
    + cbn [app].
      change (fold_left (group_step date_of) (flat_map snd g2)
                (Some (g1 ++ [(k, m :: ms)])))
        with (fold_left (group_step date_of) (flatten g2)
                (Some (g1 ++ [(k, m :: ms)]))).
      rewrite IH; rewrite <- app_assoc; [reflexivity | exact W].
    + intros m' Hm. apply Hall. now right.
Qed.

(** *** The sort *)

Lemma in_insert_group x g g' y :
  insert_group x g = Some g' -> In y g' -> y = x \/ In y g.
Proof.
  revert g'. induction g as [|z g IH]; intros g' H Hy; cbn [insert_group] in H.
  - injection H as <-. destruct Hy as [<-|[]]. now left.
  - destruct (key_leb (fst x) (fst z)) as [[]|]; cbn [bind] in H;
      [| |discriminate].
    + injection H as <-. destruct Hy as [<-|Hy]; auto.
    + destruct (insert_group x g) as [r|]; cbn [bind] in H; [|discriminate].
      injection H as <-. destruct Hy as [<-|Hy]; [right; now left|].
      destruct (IH r eq_refl Hy); [now left | right; now right].
Qed.

Lemma in_sort_groups g : forall g' y,
  sort_groups g = Some g' -> In y g' -> In y g.
Proof.
  induction g as [|x g IH]; intros g' y H Hy; cbn [sort_groups] in H.
  - injection H as <-. contradiction.
  - destruct (sort_groups g) as [s|]; cbn [bind] in H; [|discriminate].
    destruct (in_insert_group _ _ _ _ H Hy) as [->|Hs]; [now left|].
    right. now apply (IH s).
Qed.

Lemma insert_well_formed x g : forall g',
  well_formed date_of (x :: g) -> insert_group x g = Some g' ->
  well_formed date_of g'.
Proof.
  induction g as [|z g IH]; intros g' W H; cbn [insert_group] in H.
  - now injection H as <-.
  - destruct (key_leb (fst x) (fst z)) as [[]|]; cbn [bind] in H;
      [| |discriminate].
    + now injection H as <-.
    + destruct (insert_group x g) as [r|] eqn:R; cbn [bind] in H;
        [|discriminate].
      injection H as <-. destruct x as [kx mx], z as [kz mz].
      destruct W as (Gx & Dx & Gz & Dz & Wg). cbn [well_formed].
      repeat split; auto.
      * intros y Hy. destruct (in_insert_group _ _ _ _ R Hy) as [->|Hg].
        -- rewrite key_eqb_sym. apply (Dx (kz, mz)). now left.
        -- now apply Dz.
      * apply IH; [|reflexivity]. cbn [well_formed]. repeat split; auto.
        intros y Hy. apply Dx. now right.
Qed.

Lemma sort_well_formed g : forall g',
  well_formed date_of g -> sort_groups g = Some g' -> well_formed date_of g'.
Proof.
  induction g as [|[k ms] g IH]; intros g' W H; cbn [sort_groups] in H.
  - now injection H as <-.
  - destruct (sort_groups g) as [s|] eqn:S; cbn [bind] in H; [|discriminate].
    destruct W as (G & D & W).
    apply (insert_well_formed (k, ms) s); [|assumption].
    cbn [well_formed]. repeat split; auto.
    intros y Hy. apply D. now apply (in_sort_groups g s).
Qed.

End Loop.

Lemma insert_sorted x g : forall g',
  sorted g -> insert_group x g = Some g' -> sorted g'.
Proof.
  induction g as [|z g IH]; intros g' S H; cbn [insert_group] in H.
  - injection H as <-. cbn. auto.
  - destruct (key_leb (fst x) (fst z)) as [[]|] eqn:L; cbn [bind] in H;
      [| |discriminate].
    + injection H as <-. cbn [sorted]. split; [assumption|exact S].
    + destruct (insert_group x g) as [r|] eqn:R; cbn [bind] in H;
        [|discriminate].
      injection H as <-. destruct S as (Hz & Sg).
      cbn [sorted]. split; [|now apply IH].
      destruct g as [|w g]; cbn [insert_group] in R.
      * injection R as <-. now apply key_leb_total.
      * destruct (key_leb (fst x) (fst w)) as [[]|]; cbn [bind] in R;
          [| |discriminate].
        -- injection R as <-. now apply key_leb_total.
        -- destruct (insert_group x g); cbn [bind] in R; [|discriminate].
           injection R as <-. exact Hz.
Qed.

Lemma sort_sorted g : forall g', sort_groups g = Some g' -> sorted g'.
Proof.
  induction g as [|x g IH]; intros g' H; cbn [sort_groups] in H.
  - injection H as <-. exact I.
  - destruct (sort_groups g) as [s|]; cbn [bind] in H; [|discriminate].
    apply (insert_sorted x s); auto.
Qed.

Lemma sort_of_sorted g : sorted g -> sort_groups g = Some g.
Proof.
  induction g as [|x g IH]; intros S; [reflexivity|].
  destruct S as (Hx & Sg). cbn [sort_groups]. rewrite (IH Sg). cbn [bind].
  destruct g as [|y g]; [reflexivity|].
  cbn [insert_group]. rewrite Hx. reflexivity.
Qed.

(** Grouping what a grouping returned, flattened, returns it again. *)
Lemma grouped_again date_of items g :
  grouped date_of items = Some g -> grouped date_of (flatten g) = Some g.
Proof.
  unfold grouped, group_by_date. intros H.
  destruct (fold_left (group_step date_of) items (Some [])) as [g0|] eqn:F;
    cbn [bind] in H;
    [|discriminate].
  assert (W : well_formed date_of g).
  { apply (sort_well_formed date_of g0); [|assumption].
    apply (fold_well_formed date_of items [] g0); [exact I | assumption]. }
  rewrite (regroup date_of g []) by exact W. cbn [app bind].
  apply sort_of_sorted. now apply (sort_sorted g0).
Qed.

(** *** Lists of dated objects *)

Lemma add_member_string_keys s a g :
  Forall string_key g -> Forall string_key (add_member (JStr s) a g).
Proof.
  induction g as [|[k ms] g IH]; intros H; cbn [add_member].
  - constructor; [|constructor]. now exists s.
  - inversion H as [|? ? Hk Hg]; subst.
    destruct (key_eqb k (JStr s)); constructor; auto.
Qed.

Lemma fold_string_keys date_of items : forall g,
  forallb (resolvable date_of) items = true -> Forall string_key g ->
  exists g', fold_left (group_step date_of) items (Some g) = Some g'
             /\ Forall string_key g'.
Proof.
  induction items as [|a l IH]; intros g R K.
  - exists g. auto.
  - cbn [forallb] in R. apply andb_true_iff in R. destruct R as [Ra Rl].
    cbn [fold_left]. unfold resolvable in Ra.
    destruct a as [| b | q | t | l' | fs]; try discriminate Ra.
    destruct (date_of fs) as [| b | q | s | l' | fs'] eqn:D;
      try discriminate Ra.
    cbn [group_step bind]. rewrite D. cbn [truthy hashable]. rewrite Ra.
    apply IH; [assumption|]. now apply add_member_string_keys.
Qed.

Lemma insert_string_keys x g :
  string_key x -> Forall string_key g ->
  exists g', insert_group x g = Some g' /\ Forall string_key g'.
Proof.
  intros (s & Hx). induction g as [|z g IH]; intros K.
  - exists [x]. split; [reflexivity|]. constructor; [now exists s|constructor].
  - inversion K as [|? ? Hz Hg]; subst. destruct Hz as (t & Hz).
    cbn [insert_group]. rewrite Hx, Hz. cbn [key_leb bind].
    destruct (String.leb s t).
    + eexists. split; [reflexivity|].
      constructor; [now exists s|]. constructor; [now exists t|assumption].
    + destruct (IH Hg) as (r & -> & Kr). cbn [bind]. eexists.
      split; [reflexivity|]. constructor; [now exists t|assumption].
Qed.

Lemma sort_string_keys g :
  Forall string_key g ->
  exists g', sort_groups g = Some g' /\ Forall string_key g'.
Proof.
  induction g as [|x g IH]; intros K.
  - exists []. auto.
  - inversion K as [|? ? Hx Hg]; subst. destruct (IH Hg) as (s & E & Ks).
    cbn [sort_groups]. rewrite E. cbn [bind]. now apply insert_string_keys.
Qed.

(** A list of objects with resolvable dates is grouped, and grouping the
    flattened groups gives the same groups. *)
Lemma grouped_twice date_of items :
  forallb (resolvable date_of) items = true ->
  exists g, grouped date_of items = Some g
            /\ grouped date_of (flatten g) = Some g.
Proof.
  intros R.
  destruct (fold_string_keys date_of items [] R (Forall_nil _))
    as (g0 & F & K0).
  destruct (sort_string_keys g0 K0) as (g & S & _).
  assert (G : grouped date_of items = Some g).
  { unfold grouped, group_by_date. rewrite F. exact S. }
  exists g. split; [assumption | now apply grouped_again with items].
Qed.

(** *** The date of an object *)

Lemma first_present_at pre f post a v :
  (forall g, In g pre -> lookup g a = None) -> lookup f a = Some v ->
  first_present (pre ++ f :: post) a = Some v.
Proof.
  intros Hpre Hf. induction pre as [|g pre IH]; cbn [app first_present].
  - now rewrite Hf.
  - rewrite (Hpre g) by now left. apply IH. intros h Hh. apply Hpre. now right.
Qed.

Lemma before_char_splits sep s :
  has_char sep s = true ->
  exists rest, s = (before_char sep s ++ String sep rest)%string.
Proof.
  induction s as [|c s IH]; cbn [has_char before_char]; [discriminate|].
  rewrite (Ascii.eqb_sym sep c).
  destruct (Ascii.eqb_spec c sep) as [->|N].
  - intros _. exists s. reflexivity.
  - cbn [orb]. intros H. destruct (IH H) as (rest & E). exists rest.
    cbn [append]. now rewrite <- E.
Qed.

(** C5.  The date of an availability object is read from the first of
    [Date], [StartDate], [date], [startDate], [StartTime] that the object
    has; a string holding a [T] is cut before its first [T]; and the
    two-object payload of 2025-10-13 and 2025-10-14 is grouped into those
    two dates in ascending order, one object and count 1 each, with the
    range from 2025-10-13 to 2025-10-14. *)
Theorem date_resolution_and_two_day_payload
    (reformat_mdy : string -> option string) :
  (forall a pre f post v,
      xplor_fields = pre ++ f :: post ->
      (forall g, In g pre -> lookup g a = None) ->
      lookup f a = Some v ->
      availability_date reformat_mdy a
      = match v with
        | JStr s => JStr (xplor_date_string reformat_mdy s)
        | JObj fs => match lookup "date" fs with Some d => d | None => JNull end
        | _ => JNull
        end)
  /\ (forall s,
         has_char "T" s = true ->
         xplor_date_string reformat_mdy s = before_char "T" s
         /\ exists rest, s = (before_char "T" s ++ String "T" rest)%string)
  /\ parse_schedule_data reformat_mdy two_day_payload
     = Some (JObj
         [("schedule_data",
           JArr
             [JObj [("date", JStr "2025-10-13");
                    ("availabilities",
                     JArr [JObj [("Date", JStr "2025-10-13T00:00:00Z");
                                 ("Title", JStr "A")]]);
                    ("availability_count", of_nat 1)];
              JObj [("date", JStr "2025-10-14");
                    ("availabilities",
                     JArr [JObj [("Date", JStr "2025-10-14T00:00:00Z");
                                 ("Title", JStr "B")]]);
                    ("availability_count", of_nat 1)]]);
          ("total_availabilities", of_nat 2);
          ("total_dates", of_nat 2);
          ("date_range",
           JObj [("start", JStr "2025-10-13"); ("end", JStr "2025-10-14")])]).
Proof.
  split; [|split].
  - intros a pre f post v E Hpre Hf.
    unfold availability_date, resolve_date. rewrite E.
    rewrite (first_present_at pre f post a v Hpre Hf).
    destruct v; reflexivity.
  - intros s H. unfold xplor_date_string. rewrite H.
    split; [reflexivity | now apply before_char_splits].
  - vm_compute. reflexivity.
Qed.

Lemma date_resolution_and_two_day_payload_witness :
  availability_date Dates.mdy_to_iso
    [("Title", JStr "A"); ("StartTime", JStr "2025-10-13T09:00:00");
     ("date", JStr "2025-10-14")]
  = JStr "2025-10-14"
  /\ xplor_date_string Dates.mdy_to_iso "2025-10-13T09:00:00" = "2025-10-13".
Proof.
  destruct (date_resolution_and_two_day_payload Dates.mdy_to_iso)
    as (A & B & _).
  split.
  - apply (A _ ["Date"; "StartDate"] "date" ["startDate"; "StartTime"]
             (JStr "2025-10-14")); [reflexivity| |reflexivity].
    intros g [<-|[<-|[]]]; reflexivity.
  - apply (B "2025-10-13T09:00:00"). reflexivity.
Defined.

Example three_slots_grouped :
  grouped (availability_date Dates.mdy_to_iso) three_slots
  = Some
      [(JStr "2025-10-06",
        [JObj [("Date", JStr "2025-10-06"); ("Title", JStr "B")]]);
       (JStr "2025-10-07",
        [JObj [("StartTime", JStr "2025-10-07T09:00:00")];
         JObj [("startDate", JStr "2025-10-07"); ("Title", JStr "C")]])].
Proof. vm_compute. reflexivity. Qed.

(** C6.  For a list of availability objects that all have a resolvable
    date, the grouping of either parser returns groups, and grouping their
    concatenation again returns the same groups: same dates, same members
    under each date, same order.  The second grouping gives the first one's
    groups for any list on which the first one returns. *)
Theorem grouping_is_idempotent (reformat_mdy : string -> option string) :
  (forall items,
      forallb (resolvable (availability_date reformat_mdy)) items = true ->
      exists g,
        grouped (availability_date reformat_mdy) items = Some g
        /\ grouped (availability_date reformat_mdy) (flatten g) = Some g)
  /\ (forall items,
         forallb (resolvable event_date) items = true ->
         exists g,
           grouped event_date items = Some g
           /\ grouped event_date (flatten g) = Some g)
  /\ (forall items g,
         grouped (availability_date reformat_mdy) items = Some g ->
         grouped (availability_date reformat_mdy) (flatten g) = Some g)
  /\ (forall items g,
         grouped event_date items = Some g ->
         grouped event_date (flatten g) = Some g).
Proof.
  split; [|split; [|split]].
  - intros items R. now apply grouped_twice.
  - intros items R. now apply grouped_twice.
  - intros items g. apply grouped_again.
  - intros items g. apply grouped_again.
Qed.

Lemma grouping_is_idempotent_witness :
  exists g,
    grouped (availability_date Dates.mdy_to_iso) three_slots = Some g
    /\ grouped (availability_date Dates.mdy_to_iso) (flatten g) = Some g.
Proof.
  apply (proj1 (grouping_is_idempotent Dates.mdy_to_iso) three_slots).
  reflexivity.
Defined.

End GroupingFacts.

(** ** Venue matching *)

Module PlacesFacts.
Import Text Json Places Shapes Samples.
Local Open Scope Q_scope.

Section Scores.

Variable L : library.

Lemma dist_score_unfold d :
  dist_score d = Qmax 0 (100 * (1 - Qmin d 120 * (1 # 120))).
Proof. reflexivity. Qed.

Lemma dist_score_at_zero d : d == 0 -> dist_score d == 100.
Proof.
  intros E. rewrite dist_score_unfold.
  destruct (Q.min_spec d 120) as [[C M]|[C M]];
    destruct (Q.max_spec 0 (100 * (1 - Qmin d 120 * (1 # 120))))
      as [[Y X]|[Y X]];
    rewrite X; lra.
Qed.

Lemma dist_score_beyond d : 120 <= d -> dist_score d == 0.
Proof.
  intros H. rewrite dist_score_unfold.
  destruct (Q.min_spec d 120) as [[C M]|[C M]];
    destruct (Q.max_spec 0 (100 * (1 - Qmin d 120 * (1 # 120))))
      as [[Y X]|[Y X]];
    rewrite X; lra.
Qed.

Lemma boost_bounds prefer avoid p : -10 <= boost prefer avoid p <= 20.
Proof.
  unfold boost.
  destruct (existsb _ prefer); destruct (existsb _ prefer);
    destruct (existsb _ avoid); lra.
Qed.

Lemma near_total base pd prefer avoid lat lng p :
  (forall a, a <> EmptyString -> token_set_ratio L a a == 100) ->
  distance L lat lng p == 0 ->
  norm_name (display_text p) = base ->
  90 <= total_score L base pd prefer avoid lat lng p.
Proof.
  intros Same D N. unfold total_score, base_score. rewrite N.
  pose proof (boost_bounds prefer avoid p) as B.
  pose proof (dist_score_at_zero _ D) as S.
  destruct pd; [lra|].
  destruct base as [|c base]; cbn [is_empty negb]; [lra|].
  assert (R : token_set_ratio L (String c base) (String c base) == 100)
    by (apply Same; discriminate).
  lra.
Qed.

Lemma far_total base pd prefer avoid lat lng q :
  (forall a b, token_set_ratio L a b <= 100) ->
  120 <= distance L lat lng q ->
  total_score L base pd prefer avoid lat lng q <= 65.
Proof.
  intros Range D. unfold total_score, base_score.
  pose proof (boost_bounds prefer avoid q) as B.
  pose proof (dist_score_beyond _ D) as S.
  pose proof (Range base (norm_name (display_text q))) as R.
  destruct pd; [lra|]. destruct (negb (is_empty base)); lra.
Qed.

(** *** The loop over the candidates *)

Lemma consider_cases base pd prefer avoid lat lng best p :
  let total := total_score L base pd prefer avoid lat lng in
  let best' := consider L base pd prefer avoid lat lng best p in
  (best' = best /\ total p <= score_of best)
  \/ (best' = (Some p, total p, Some (distance L lat lng p))
      /\ score_of best < total p).
Proof.
  cbv zeta. unfold consider, score_of.
  destruct (Qle_bool _ _) eqn:E; cbn [negb].
  - left. split; [reflexivity|]. now apply Qle_bool_iff.
  - right. split; [reflexivity|]. apply Qnot_le_lt. intros C.
    apply Qle_bool_iff in C. congruence.
Qed.

Lemma fold_best base pd prefer avoid lat lng cands : forall best,
  let total := total_score L base pd prefer avoid lat lng in
  let best' :=
    fold_left (consider L base pd prefer avoid lat lng) cands best in
  score_of best <= score_of best'
  /\ (forall c, In c cands -> total c <= score_of best')
  /\ (best' = best
      \/ exists c, In c cands
                   /\ best' = (Some c, total c, Some (distance L lat lng c))).
Proof.
  cbv zeta. induction cands as [|p l IH]; intros best; cbn [fold_left].
  - split; [apply Qle_refl|]. split; [contradiction | now left].
  - destruct (IH (consider L base pd prefer avoid lat lng best p))
      as (I1 & I2 & I3).
    destruct (consider_cases base pd prefer avoid lat lng best p)
      as [(E & C)|(E & C)]; cbv zeta in E, C; rewrite E in *.
    + split; [assumption|]. split.
      * intros c [<-|Hc]; [|now apply I2]. now apply Qle_trans with (1 := C).
      * destruct I3 as [I3|(c & Hc & I3)]; [now left|].
        right. exists c. split; [now right | assumption].
    + unfold score_of in I1 at 1. cbn [fst snd] in I1. split; [lra|]. split.
      * intros c [<-|Hc]; [assumption | now apply I2].
      * right. destruct I3 as [I3|(c & Hc & I3)].
        -- exists p. split; [now left | assumption].
        -- exists c. split; [now right | assumption].
Qed.

(** What [choose_best_match] returns is the initial triple's replacement
    [(None, 0, None)] or a candidate with its own score and distance. *)
Lemma choose_cases osm_name lat lng cands pd prefer avoid :
  let total :=
    total_score L (norm_name osm_name) pd (prefer_or_default prefer)
      (avoid_or_default avoid) lat lng in
  choose_best_match L osm_name lat lng cands pd prefer avoid = (None, 0, None)
  \/ exists c,
       In c cands /\ place_truthy c = true
       /\ (forall c', In c' cands -> total c' <= total c)
       /\ choose_best_match L osm_name lat lng cands pd prefer avoid
          = (Some c, total c, Some (distance L lat lng c)).
Proof.
  cbv zeta. unfold choose_best_match.
  destruct (fold_best (norm_name osm_name) pd (prefer_or_default prefer)
              (avoid_or_default avoid) lat lng cands (None, -1, None))
    as (_ & I2 & I3).
  cbv zeta in I2, I3.
  destruct I3 as [I3|(c & Hc & I3)]; rewrite I3 in *; cbn [fst snd].
  - now left.
  - destruct (place_truthy c) eqn:T; [|now left].
    right. exists c. repeat split; auto.
Qed.

End Scores.







(** C8.  A candidate at distance 0 whose normalised name is the normalised
    source name scores at least the default threshold 70, scores strictly
    more than every candidate beyond the default hard-reject radius of
    400 m, and in its presence the selected candidate is not beyond that
    radius.  The name ratio is taken to lie below 100 and to be 100 on
    equal non-empty names. *)
Theorem exact_match_outscores_far (L : library) (osm_name : option string)
    (lat lng : Q) (pd : bool) (prefer avoid : option (list string))
    (p : place) :
  (forall a b, token_set_ratio L a b <= 100) ->
  (forall a, a <> EmptyString -> token_set_ratio L a a == 100) ->
  distance L lat lng p == 0 ->
  norm_name (display_text p) = norm_name osm_name ->
  let total :=
    total_score L (norm_name osm_name) pd (prefer_or_default prefer)
      (avoid_or_default avoid) lat lng in
  threshold default_config <= total p
  /\ (forall q,
         hard_reject_over_m default_config < distance L lat lng q ->
         total q < total p)
  /\ (forall cands sel s d,
         In p cands ->
         choose_best_match L osm_name lat lng cands pd prefer avoid
         = (sel, s, Some d) ->
         d <= hard_reject_over_m default_config).
Proof.
  intros Range Same D N total.
  assert (Near : 90 <= total p) by now apply near_total.
  assert (Far : forall q, 400 < distance L lat lng q -> total q <= 65).
  { intros q Hq. apply far_total; [assumption | lra]. }
  cbn [threshold hard_reject_over_m default_config].
  split; [lra|]. split.
  - intros q Hq. specialize (Far q Hq). lra.
  - intros cands sel s d Hp H.
    destruct (choose_cases L osm_name lat lng cands pd prefer avoid)
      as [E|(c & Hc & _ & Max & E)]; rewrite E in H; [discriminate|].
    injection H as _ _ <-.
    apply Qnot_lt_le. intros C. specialize (Far c C).
    specialize (Max p Hp). fold total in Max. lra.
Qed.

Lemma exact_match_outscores_far_witness :
  70 <= total_score toy_library (norm_name (Some "Ray Park Tennis")) false
          default_prefer_types default_avoid_name_terms
          (3758 # 100) (-12235 # 100) ray_park_courts
  /\ total_score toy_library (norm_name (Some "Ray Park Tennis")) false
       default_prefer_types default_avoid_name_terms
       (3758 # 100) (-12235 # 100) far_courts
     < total_score toy_library (norm_name (Some "Ray Park Tennis")) false
         default_prefer_types default_avoid_name_terms
         (3758 # 100) (-12235 # 100) ray_park_courts.
Proof.
  assert (R1 : forall a b, token_set_ratio toy_library a b <= 100).
  { intros a b. cbn [token_set_ratio toy_library].
    destruct (_ && _); [apply Qle_refl | discriminate]. }
  assert (R2 : forall a, a <> EmptyString ->
                         token_set_ratio toy_library a a == 100).
  { intros a Ha. cbn [token_set_ratio toy_library]. rewrite String.eqb_refl.
    destruct a; [congruence | reflexivity]. }
  destruct (exact_match_outscores_far toy_library (Some "Ray Park Tennis")
              (3758 # 100) (-12235 # 100) false None None ray_park_courts
              R1 R2)
    as (A & B & _).
  - vm_compute. reflexivity.
  - vm_compute. reflexivity.
  - split; [exact A|]. apply B. vm_compute. reflexivity.
Defined.

End PlacesFacts.

(** ** The embedding on small inputs *)

Module Checks.
Import Text Regex Slot Dom Listing Json Grouping Dates Places Samples.

Example is_slot_compact : is_slot "12:30PM-1:00am" = true.
Proof. vm_compute. reflexivity. Qed.

Example is_slot_three_digit_hour : is_slot "123:00 am - 9:00 am" = false.
Proof. vm_compute. reflexivity. Qed.

Example is_slot_trailing_text : is_slot "8:00 am - 9:00 am (2)" = false.
Proof. vm_compute. reflexivity. Qed.

Example fmid_after_ampersand :
  fmid_of_href "iteminfo.html?Module=FR&FMID=296964&x=1" = Some "296964".
Proof. vm_compute. reflexivity. Qed.

Example fmid_needs_digits : fmid_of_href "iteminfo.html?FMID=" = None.
Proof. vm_compute. reflexivity. Qed.

Example source_tag_of_host :
  source_tag "https://ca-burlingame.example.org/wbwsc"
  = Some "ca-burlingame_webtrac".
Proof. vm_compute. reflexivity. Qed.

Example source_tag_without_slashes : source_tag "localhost" = None.
Proof. vm_compute. reflexivity. Qed.

Example cards_record :
  parse_listing_group_schedules overlap_cards
  = [mkFacility (Some "12") (Some "Court A") None
       ["8:00 am - 9:00 am"] ["8:00 am - 9:00 am"]].
Proof. vm_compute. reflexivity. Qed.

Example facility_row_without_slot_row :
  parse_listing_table_schedules
    [Elem "table" [("id", "frwebsearch_output_table")]
       [Elem "tbody" []
          [Elem "tr" []
             [Elem "td" [("class", "label-cell");
                         ("data-title", "Location Description")]
                [TextNode "  Laguna Park "]]]]]
  = [mkFacility None None (Some "Laguna Park") [] []].
Proof. vm_compute. reflexivity. Qed.

Example norm_name_drops_stop_words :
  norm_name (Some "Ray Park Tennis Courts") = "ray".
Proof. vm_compute. reflexivity. Qed.

Example norm_name_keeps_longer_words :
  norm_name (Some "Courtside Rec-Center #3") = "courtside 3".
Proof. vm_compute. reflexivity. Qed.

Example norm_name_of_none : norm_name None = "".
Proof. vm_compute. reflexivity. Qed.

Example mdy_short_year : mdy_to_iso "10/6/25" = Some "2025-10-06".
Proof. vm_compute. reflexivity. Qed.

Example mdy_last_century : mdy_to_iso "02/03/69" = Some "1969-02-03".
Proof. vm_compute. reflexivity. Qed.

Example mdy_no_such_day : mdy_to_iso "2/30/25" = None.
Proof. vm_compute. reflexivity. Qed.

Example mdy_long_year : mdy_to_iso "1/5/2025" = None.
Proof. vm_compute. reflexivity. Qed.

Example slashed_dates_share_a_group :
  grouped (availability_date mdy_to_iso)
    [JObj [("StartTime", JStr "10/7/25")];
     JObj [("Date", JStr "2025-10-06")];
     JObj [("startDate", JStr "10/07/25")]]
  = Some [(JStr "2025-10-06", [JObj [("Date", JStr "2025-10-06")]]);
          (JStr "2025-10-07",
           [JObj [("StartTime", JStr "10/7/25")];
            JObj [("startDate", JStr "10/07/25")]])].
Proof. vm_compute. reflexivity. Qed.

Example string_and_number_dates_raise :
  grouped (availability_date mdy_to_iso)
    [JObj [("Date", JStr "2025-10-06")];
     JObj [("date", JObj [("date", JNum 20251007)])]]
  = None.
Proof. vm_compute. reflexivity. Qed.

Example error_payload_passes_through :
  parse_schedule_data mdy_to_iso (JObj [("error", JStr "HTTP 500")])
  = Some (JObj [("error", JStr "HTTP 500")]).
Proof. vm_compute. reflexivity. Qed.

Example exact_match_is_chosen :
  fst (fst (choose_best_match toy_library (Some "Ray Park Tennis")
              (3758 # 100)%Q (-12235 # 100)%Q
              [far_courts; ray_park_courts] false None None))
  = Some ray_park_courts.
Proof. vm_compute. reflexivity. Qed.

End Checks.

(** ** More on the listing normalisers *)

Module ListingMore.
Import Text Regex Slot Dom Listing Shapes Notions Samples TextFacts ListingFacts.

(** *** Slots are time ranges *)

Lemma classify_is_slot a :
  match classify a with
  | Available t | Unavailable t => is_slot t = true
  | Nothing => True
  end.
Proof.
  unfold classify. destruct (available_test a).
  - destruct (is_slot (get_text_strip a)) eqn:E; [exact E | exact I].
  - destruct (unavailable_test a); [|exact I].
    destruct (find_all (has_tag "span") a) as [|sp l]; [exact I|].
    destruct (is_slot (get_text_strip sp)) eqn:E; [exact E | exact I].
Qed.

Lemma collected_are_slots anchors t :
  In t (available_of anchors) \/ In t (unavailable_of anchors) ->
  is_slot t = true.
Proof.
  intros [H|H].
  - apply in_available_of in H. destruct H as (a & _ & C).
    pose proof (classify_is_slot a) as S. now rewrite C in S.
  - apply in_unavailable_of in H. destruct H as (a & _ & C).
    pose proof (classify_is_slot a) as S. now rewrite C in S.
Qed.

Lemma record_slots_collected soup r :
  In r (parse_listing_table_schedules soup)
  \/ In r (parse_listing_group_schedules soup) ->
  exists anchors,
    available_slots r = available_of anchors
    /\ unavailable_slots r = unavailable_of anchors.
Proof.
  intros [H|H].
  - apply table_record_block in H. destruct H as (row & cart & -> & _).
    pose proof (table_record_slots row cart) as E.
    destruct cart as [c|].
    + rewrite collect_slots_eq in E. exists (cart_buttons c).
      split; [exact (f_equal fst E) | exact (f_equal snd E)].
    + exists []. split; [exact (f_equal fst E) | exact (f_equal snd E)].
  - apply card_record_block in H. destruct H as (above & card & -> & _).
    pose proof (card_record_slots above card) as E.
    rewrite collect_slots_eq in E. exists (cart_buttons card).
    split; [exact (f_equal fst E) | exact (f_equal snd E)].
Qed.

(** X1.  Every text in either list of a record, of either normaliser, is
    matched in full by [TIME_RE]. *)
Theorem listed_slots_match_time_re soup r t :
  In r (parse_listing_table_schedules soup)
  \/ In r (parse_listing_group_schedules soup) ->
  In t (available_slots r) \/ In t (unavailable_slots r) ->
  is_slot t = true.
Proof.
  intros Hr Ht. destruct (record_slots_collected soup r Hr) as (l & EA & EU).
  rewrite EA, EU in Ht. now apply (collected_are_slots l).
Qed.

Lemma listed_slots_match_time_re_witness :
  is_slot "9:00 am - 10:00 am" = true.
Proof.
  apply (listed_slots_match_time_re laguna_page
           (mkFacility (Some "296964") (Some "Laguna Park Court 1") None
              ["8:00 am - 9:00 am"] ["9:00 am - 10:00 am"])).
  - left. vm_compute. left. reflexivity.
  - right. left. reflexivity.
Defined.

(** *** The identifier is a number *)

Lemma substring_whole_prefix w a :
  String.substring 0 (String.length w) (w ++ a)%string = w.
Proof.
  induction w as [|c w IH]; cbn [String.length append String.substring].
  - destruct a; reflexivity.
  - now rewrite IH.
Qed.

Lemma substring_whole s : String.substring 0 (String.length s) s = s.
Proof.
  pose proof (substring_whole_prefix s EmptyString) as H.
  now rewrite append_empty_r in H.
Qed.

Lemma substring_skip x : forall m y,
  String.substring (String.length x) m (x ++ y)%string
  = String.substring 0 m y.
Proof.
  induction x as [|c x IH]; intros m y; cbn [String.length append].
  - reflexivity.
  - cbn [String.substring]. apply IH.
Qed.

Lemma search_from_unfold r prev before s :
  search_from r prev before s
  = match rmatch r prev s with
    | (_, rest) :: _ =>
        Some (before,
              String.substring 0 (String.length s - String.length rest) s,
              rest)
    | [] =>
        match s with
        | EmptyString => None
        | String c s' =>
            search_from r (Some c) (before ++ String c EmptyString) s'
        end
    end.
Proof. destruct s; reflexivity. Qed.

(** The text that [search] reports as matched is a word of the pattern. *)
Lemma search_from_lang r : forall s prev before b m a,
  search_from r prev before s = Some (b, m, a) -> lang r m.
Proof.
  induction s as [|c s IH]; intros prev before b m a H;
    rewrite search_from_unfold in H;
    destruct (rmatch r prev _) as [|[p rest] l] eqn:E.
  - discriminate.
  - injection H as _ <- _.
    assert (I : In (p, rest) (rmatch r prev EmptyString))
      by (rewrite E; now left).
    apply rmatch_sound in I. destruct I as (w & Ew & Lw). cbn [snd] in Ew.
    destruct w; [|discriminate Ew]. cbn [append] in Ew. subst rest.
    exact Lw.
  - now apply IH in H.
  - assert (I : In (p, rest) (rmatch r prev (String c s)))
      by (rewrite E; now left).
    apply rmatch_sound in I. destruct I as (w & Ew & Lw). cbn [snd] in Ew.
    rewrite Ew, length_append, Nat.add_sub, substring_whole_prefix in H.
    now injection H as _ <- _.
Qed.

Lemma fmid_of_href_digits href id :
  fmid_of_href href = Some id ->
  id <> EmptyString /\ all_chars is_digit id = true.
Proof.
  unfold fmid_of_href. destruct (search FMID_RE href) as [[[b m] a]|] eqn:E;
    [|discriminate].
  intros H. injection H as <-. apply search_from_lang in E.
  unfold FMID_RE in E. cbn [seq lit lang] in E.
  destruct E as (w1 & r1 & -> & (c1 & -> & _) & w2 & r2 & -> & L2
                 & ds & r3 & -> & (D & Len) & ->).
  destruct L2 as (x1 & y1 & -> & (c2 & -> & _) & x2 & y2 & -> & (c3 & -> & _)
                  & x3 & y3 & -> & (c4 & -> & _) & x4 & y4 & -> & (c5 & -> & _)
                  & x5 & y5 & -> & (c6 & -> & _) & ->).
  rewrite append_empty_r. cbn [append String.length Nat.sub].
  rewrite Nat.sub_0_r. cbn [String.substring].
  rewrite substring_whole, ?append_empty_r.
  split; [|exact D]. destruct ds; [simpl in Len; lia | discriminate].
Qed.

Lemma record_fmid_from_href soup r id :
  In r (parse_listing_table_schedules soup)
  \/ In r (parse_listing_group_schedules soup) ->
  fmid r = Some id -> exists href, fmid_of_href href = Some id.
Proof.
  intros [H|H] F.
  - apply table_record_block in H. destruct H as (row & cart & -> & _).
    unfold table_record in F. cbn [fmid] in F. unfold fmid_of_link in F.
    destruct (find _ row) as [l|]; [|discriminate].
    destruct (get_attr "href" l) as [href|]; [|discriminate]. now exists href.
  - apply card_record_block in H. destruct H as (above & card & -> & _).
    unfold card_record in F. cbn [fmid] in F. unfold fmid_of_link in F.
    destruct (card_link card) as [l|]; [|discriminate].
    destruct (get_attr "href" l) as [href|]; [|discriminate]. now exists href.
Qed.

(** X2.  The identifier of a record, when it has one, is a non-empty text
    of decimal digits. *)
Theorem record_fmid_is_a_number soup r id :
  In r (parse_listing_table_schedules soup)
  \/ In r (parse_listing_group_schedules soup) ->
  fmid r = Some id ->
  id <> EmptyString /\ all_chars is_digit id = true.
Proof.
  intros Hr F. destruct (record_fmid_from_href soup r id Hr F) as (href & E).
  now apply fmid_of_href_digits with href.
Qed.

Lemma record_fmid_is_a_number_witness :
  "296964" <> EmptyString /\ all_chars is_digit "296964" = true.
Proof.
  apply (record_fmid_is_a_number laguna_page
           (mkFacility (Some "296964") (Some "Laguna Park Court 1") None
              ["8:00 am - 9:00 am"] ["9:00 am - 10:00 am"])).
  - left. vm_compute. left. reflexivity.
  - reflexivity.
Defined.

(** *** Rows are taken in pairs *)

Lemma table_rows_bound : forall n rows,
  List.length rows <= n ->
  2 * List.length (table_rows rows) <= List.length rows + 1
  /\ List.length (table_rows rows)
     <= List.length
          (filter (fun row => negb (Nat.eqb (List.length (label_cells_of row)) 0))
             rows).
Proof.
  induction n as [|n IH]; intros rows Hn.
  - destruct rows; [cbn; lia | simpl in Hn; lia].
  - destruct rows as [|row rest]; [cbn; lia|].
    cbn [table_rows filter]. simpl in Hn.
    destruct (label_cells_of row) as [|c cs] eqn:E; cbn [List.length Nat.eqb negb].
    + destruct (IH rest ltac:(lia)) as (A & B). split; lia.
    + destruct rest as [|cart rest']; [cbn; lia|].
      simpl in Hn. destruct (IH rest' ltac:(lia)) as (A & B).
      cbn [List.length filter]. split; [lia|].
      destruct (negb _); cbn [List.length]; lia.
Qed.

(** X3.  The table normaliser returns at most one record for two rows of
    the table body, rounded up, and at most one for each row that has
    label cells: a facility row takes the row after it as its slot row,
    whatever that row is. *)
Theorem table_records_per_rows soup :
  2 * List.length (parse_listing_table_schedules soup)
  <= List.length (table_rows_of soup) + 1
  /\ List.length (parse_listing_table_schedules soup)
     <= List.length
          (filter (fun row => negb (Nat.eqb (List.length (label_cells_of row)) 0))
             (table_rows_of soup)).
Proof.
  unfold parse_listing_table_schedules, table_rows_of.
  destruct (find_table soup) as [table|]; [|cbn; lia].
  destruct (find_tbody table) as [tbody|]; [|cbn; lia].
  apply (table_rows_bound _ _ (Nat.le_refl _)).
Qed.

(** *** The first cell with text gives the label *)

Lemma facility_cell_is_no_location_cell td :
  is_facility_cell td = true -> is_location_cell td = false.
Proof.
  unfold is_facility_cell, is_location_cell. intros H.
  apply String.eqb_eq in H. rewrite H. reflexivity.
Qed.

Lemma first_text_skip is_cell td cells :
  is_cell td = false ->
  first_text is_cell (td :: cells) = first_text is_cell cells.
Proof. intros H. unfold first_text. cbn [List.find existsb]. now rewrite H. Qed.

Lemma kept_skip is_cell held td cells :
  is_cell td = false ->
  kept is_cell held (td :: cells) = kept is_cell held cells.
Proof. intros H. unfold kept. now rewrite first_text_skip. Qed.

Lemma kept_take is_cell held td cells :
  is_cell td = true -> falsy held = true ->
  kept is_cell held (td :: cells)
  = kept is_cell (Some (get_text_strip td)) cells.
Proof.
  intros C F. unfold kept. rewrite F. unfold first_text.
  cbn [List.find existsb falsy]. rewrite C. cbn [andb orb].
  unfold has_text. destruct (is_empty (get_text_strip td)) eqn:E;
    cbn [negb]; [|reflexivity].
  apply is_empty_true in E. rewrite E.
  destruct (List.find _ cells); [reflexivity|].
  destruct (existsb is_cell cells); reflexivity.
Qed.

Lemma fold_label_cells cells : forall f l,
  fold_left read_label_cell cells (f, l)
  = (kept is_facility_cell f cells, kept is_location_cell l cells).
Proof.
  induction cells as [|td cells IH]; intros f l.
  - unfold kept, first_text. cbn. destruct (falsy f), (falsy l); reflexivity.
  - cbn [fold_left]. unfold read_label_cell at 2. cbn [fst snd].
    change (String.eqb (attr_or_empty "data-title" td) "Facility Description")
      with (is_facility_cell td).
    change (String.eqb (attr_or_empty "data-title" td) "Location Description")
      with (is_location_cell td).
    destruct (is_facility_cell td) eqn:FC.
    + pose proof (facility_cell_is_no_location_cell td FC) as LC.
      rewrite LC, (kept_skip is_location_cell l td cells LC).
      destruct (falsy f) eqn:Ff; cbn [andb].
      * now rewrite IH, (kept_take is_facility_cell f td cells FC Ff).
      * rewrite IH. unfold kept. now rewrite Ff.
    + cbn [andb]. rewrite (kept_skip is_facility_cell f td cells FC).
      destruct (is_location_cell td) eqn:LC.
      * destruct (falsy l) eqn:Fl; cbn [andb].
        -- now rewrite IH, (kept_take is_location_cell l td cells LC Fl).
        -- rewrite IH. unfold kept. now rewrite Fl.
      * cbn [andb]. now rewrite IH, (kept_skip is_location_cell l td cells LC).
Qed.

Lemma kept_from_none is_cell cells :
  kept is_cell None cells = first_text is_cell cells.
Proof. unfold kept. cbn [falsy]. now destruct (first_text is_cell cells). Qed.

(** X4.  In the table layout the label of a record is the text of the
    first [Facility Description] label cell of its row that has text; when
    all such cells are blank it is the empty text, and when there is none
    it is absent.  The location is read the same way from the
    [Location Description] cells. *)
Theorem first_cell_with_text_wins row cart :
  label (table_record row cart)
  = first_text is_facility_cell (label_cells_of row)
  /\ location (table_record row cart)
     = first_text is_location_cell (label_cells_of row).
Proof.
  unfold table_record. cbn [label location].
  rewrite fold_label_cells. cbn [fst snd]. now rewrite !kept_from_none.
Qed.

(** *** The source tag *)

Lemma after_sub_unfold sep s :
  after_sub sep s
  = if String.prefix sep s
    then Some (String.substring (String.length sep)
                 (String.length s - String.length sep) s)
    else match s with
         | EmptyString => None
         | String _ s' => after_sub sep s'
         end.
Proof. destruct s; reflexivity. Qed.

Lemma before_sub_unfold sep s :
  before_sub sep s
  = if String.prefix sep s then EmptyString
    else match s with
         | EmptyString => EmptyString
         | String c s' => String c (before_sub sep s')
         end.
Proof. destruct s; reflexivity. Qed.

Lemma no_slashes_first c t :
  Ascii.eqb "/" c = false -> String.prefix "//" (String c t) = false.
Proof.
  intros H. cbn [String.prefix]. destruct (ascii_dec "/" c) as [<-|N];
    [|reflexivity].
  now rewrite Ascii.eqb_refl in H.
Qed.

Lemma after_slashes x y :
  has_char "/" x = false ->
  after_sub "//" (x ++ String "/" (String "/" y))%string = Some y.
Proof.
  induction x as [|c x IH]; cbn [has_char append]; intros H.
  - rewrite after_sub_unfold. cbn [String.prefix].
    destruct (ascii_dec "/" "/") as [_|N]; [|congruence].
    assert (P : String.prefix "" y = true) by (destruct y; reflexivity).
    rewrite P. cbn [String.length Nat.sub String.substring].
    now rewrite Nat.sub_0_r, (substring_whole y).
  - apply orb_false_iff in H. destruct H as [Hc Hx].
    rewrite after_sub_unfold, (no_slashes_first c _ Hc). now apply IH.
Qed.

Lemma before_slashes_keeps h r :
  has_char "/" h = false ->
  exists r', before_sub "//" (h ++ String "." r)%string
             = (h ++ String "." r')%string.
Proof.
  induction h as [|c h IH]; cbn [has_char append]; intros H.
  - exists (before_sub "//" r). rewrite before_sub_unfold.
    now rewrite (no_slashes_first "." r eq_refl).
  - apply orb_false_iff in H. destruct H as [Hc Hh].
    destruct (IH Hh) as (r' & E). exists r'.
    now rewrite before_sub_unfold, (no_slashes_first c _ Hc), E.
Qed.

Lemma after_sub_none sep s :
  contains sep s = false -> after_sub sep s = None.
Proof.
  induction s as [|c s IH]; cbn [contains]; intros H;
    apply orb_false_iff in H; destruct H as [P H];
    rewrite after_sub_unfold, P; [reflexivity | now apply IH].
Qed.

(** X5.  The source tag of a URL [scheme//host.rest], where neither the
    scheme nor the host holds a slash and the host holds no dot, is
    [host_webtrac]; a URL without [//] has no source tag, and then
    [fetch_schedule] raises as soon as there is an item to tag, and only
    then. *)
Theorem source_tag_is_the_host :
  (forall scheme host rest,
      has_char "/" scheme = false -> has_char "/" host = false ->
      has_char "." host = false ->
      source_tag (scheme ++ "//" ++ host ++ "." ++ rest)%string
      = Some (host ++ "_webtrac")%string)
  /\ (forall url, contains "//" url = false -> source_tag url = None)
  /\ (forall soup d url,
         source_tag url = None ->
         fetch_schedule soup d url
         = match select_items soup with [] => Some [] | _ => None end).
Proof.
  split; [|split].
  - intros scheme host rest Hs Hh Hd. unfold source_tag.
    cbn [append]. rewrite (after_slashes scheme _ Hs).
    destruct (before_slashes_keeps host rest Hh) as (r' & ->).
    now rewrite (SlotFacts.before_char_app "." host r' Hd).
  - intros url H. unfold source_tag. now rewrite (after_sub_none _ _ H).
  - intros soup d url H. unfold fetch_schedule. rewrite H.
    destruct (select_items soup); reflexivity.
Qed.

Lemma source_tag_is_the_host_witness :
  source_tag "https://ca-burlingame.example.org/wbwsc"
  = Some "ca-burlingame_webtrac"
  /\ source_tag "localhost:8080/wbwsc" = None
  /\ fetch_schedule laguna_page "2025-10-06" "localhost:8080/wbwsc" = None.
Proof.
  destruct source_tag_is_the_host as (A & B & C).
  split; [apply (A "https:" "ca-burlingame" "example.org/wbwsc"); reflexivity|].
  split; [apply B; reflexivity|].
  rewrite (C laguna_page "2025-10-06" "localhost:8080/wbwsc");
    [reflexivity | apply B; reflexivity].
Defined.

End ListingMore.

(** ** Cities, sites and base URLs *)

Module CitiesFacts.
Import Text Json Dom Listing Cities Notions Samples TextFacts.

(** *** Matching a requested city *)

Lemma contains_itself s : contains s s = true.
Proof.
  pose proof (ListingFacts.contains_append s EmptyString EmptyString) as H.
  cbn [append] in H. now rewrite append_empty_r in H.
Qed.

Lemma contains_empty s : contains EmptyString s = true.
Proof. destruct s; reflexivity. Qed.

Lemma city_matches_is_containment city a :
  city_matches city a = contains (lower city) (lower a).
Proof.
  unfold city_matches. destruct (String.eqb_spec (lower city) (lower a)) as [E|N].
  - rewrite E, contains_itself. reflexivity.
  - reflexivity.
Qed.

Lemma find_ext {A} (p q : A -> bool) l :
  (forall x, p x = q x) -> List.find p l = List.find q l.
Proof.
  intros H. induction l as [|x l IH]; [reflexivity|].
  cbn [List.find]. now rewrite H, IH.
Qed.

Lemma mem_in x l : mem x l = true -> In x l.
Proof.
  unfold mem. intros H. apply existsb_exists in H.
  destruct H as (y & Hy & E). apply String.eqb_eq in E. now subst.
Qed.

(** X6.  A requested city is matched with the first configured city whose
    lower-cased name contains the lower-cased request: the test for equal
    names adds nothing to the test for containment, so a blank request is
    matched with the first configured city.  The cities that [main]
    processes are all configured cities. *)
Theorem requested_city_is_matched_by_containment :
  (forall available city,
      match_city available city
      = List.find (fun a => contains (lower city) (lower a)) available)
  /\ (forall first others,
         match_city (first :: others) EmptyString = Some first)
  /\ (forall cities_arg available city,
         In city (cities_to_process cities_arg available) ->
         In city available).
Proof.
  split; [|split].
  - intros available city. unfold match_city. apply find_ext.
    intros a. apply city_matches_is_containment.
  - intros first others. unfold match_city. cbn [List.find].
    rewrite city_matches_is_containment. cbn [lower].
    now rewrite contains_empty.
  - intros cities_arg available city H. unfold cities_to_process in H.
    assert (D : In city (if mem "Foster City" available
                         then ["Foster City"] else available) ->
                In city available).
    { destruct (mem "Foster City" available) eqn:M; [|auto].
      intros [<-|[]]. now apply mem_in. }
    destruct cities_arg as [[|c rest]|]; [now apply D| |now apply D].
    apply in_flat_map in H. destruct H as (req & _ & H).
    destruct (match_city available (strip req)) as [m|] eqn:E;
      [|contradiction].
    destruct (is_empty m); [contradiction|]. destruct H as [<-|[]].
    unfold match_city in E. now apply find_some in E.
Qed.

Lemma requested_city_is_matched_by_containment_witness :
  In "Albany" ["Burlingame"; "San Mateo"; "Albany"].
Proof.
  apply (proj2 (proj2 requested_city_is_matched_by_containment)
           (Some "alb, mateo") ["Burlingame"; "San Mateo"; "Albany"]).
  vm_compute. left. reflexivity.
Defined.

(** *** The site of a city *)

Lemma query_mode_of_other city :
  city <> "Burlingame" -> city <> "San Mateo" -> city <> "Albany" ->
  query_mode_of city = lower city.
Proof.
  intros B S A. unfold query_mode_of, city_to_mode. cbn [assoc].
  destruct (String.eqb_spec city "Burlingame"); [congruence|].
  destruct (String.eqb_spec city "San Mateo"); [congruence|].
  destruct (String.eqb_spec city "Albany"); [congruence|]. reflexivity.
Qed.

(** X7.  The three cities of the mode table are fetched from their own
    sites.  Any other city is fetched from the San Mateo or the Albany site
    only if its lower-cased name contains [san_mateo] or [albany], and from
    the Burlingame site otherwise. *)
Theorem other_cities_use_the_burlingame_site :
  site_of (query_mode_of "Burlingame") = "Burlingame"
  /\ site_of (query_mode_of "San Mateo") = "San Mateo"
  /\ site_of (query_mode_of "Albany") = "Albany"
  /\ (forall city,
         city <> "Burlingame" -> city <> "San Mateo" -> city <> "Albany" ->
         contains "san_mateo" (lower city) = false ->
         contains "albany" (lower city) = false ->
         site_of (query_mode_of city) = "Burlingame")
  /\ (forall city,
         site_of (query_mode_of city) = "San Mateo" ->
         city = "San Mateo" \/ contains "san_mateo" (lower city) = true).
Proof.
  split; [reflexivity|]. split; [reflexivity|]. split; [reflexivity|]. split.
  - intros city B S A H1 H2. rewrite (query_mode_of_other city B S A).
    unfold site_of. now rewrite H1, H2.
  - intros city H.
    destruct (String.eqb_spec city "San Mateo") as [->|S]; [now left|].
    destruct (String.eqb_spec city "Burlingame") as [->|B]; [discriminate H|].
    destruct (String.eqb_spec city "Albany") as [->|A]; [discriminate H|].
    rewrite (query_mode_of_other city B S A) in H. unfold site_of in H.
    destruct (contains "san_mateo" (lower city)); [now right|].
    destruct (contains "albany" (lower city)); discriminate H.
Qed.

Lemma other_cities_use_the_burlingame_site_witness :
  site_of (query_mode_of "Foster City") = "Burlingame".
Proof.
  apply (proj1 (proj2 (proj2 (proj2 other_cities_use_the_burlingame_site))));
    try discriminate; reflexivity.
Defined.

(** *** The base URL of a site *)

(** X8.  [fetch_schedule] returns only for a site whose configuration
    holds a string [base_url] and for a date that [strptime] accepts; the
    items are then tagged from that URL.  The default [BASE] never applies:
    for a site without [base_url] the read in
    [playwright_fetch_listing_html] raises. *)
Theorem site_needs_its_base_url (config : json) (query_mode date_ymd : string)
    (page : document) :
  (forall out,
      fetch_schedule_for config query_mode date_ymd page = Some out ->
      exists fs b,
        load_vendor_site_config config "WebTrac" (site_of query_mode)
        = Some (JObj fs)
        /\ lookup "base_url" fs = Some (JStr b)
        /\ IsoDates.strptime_ymd date_ymd <> None
        /\ fetch_schedule page date_ymd (rstrip_slash b) = Some out)
  /\ (forall fs,
         load_vendor_site_config config "WebTrac" (site_of query_mode)
         = Some (JObj fs) ->
         lookup "base_url" fs = None ->
         fetch_schedule_for config query_mode date_ymd page = None).
Proof.
  split.
  - intros out H. unfold fetch_schedule_for in H.
    destruct (load_vendor_site_config config "WebTrac" (site_of query_mode))
      as [cfg|]; cbn [bind] in H; [|discriminate].
    destruct cfg as [| | | | |fs]; try discriminate H.
    unfold base_url_or_default, listing_base, dict_get in H.
    destruct (lookup "base_url" fs) as [v|] eqn:L; cbn [bind as_str] in H.
    + destruct v as [| | |b| |]; try discriminate H. cbn [bind] in H.
      destruct (IsoDates.strptime_ymd date_ymd) eqn:D; cbn [bind] in H;
        [|discriminate].
      exists fs, b. repeat split; auto. discriminate.
    + destruct (IsoDates.strptime_ymd date_ymd); cbn [bind] in H;
        discriminate.
  - intros fs E L. unfold fetch_schedule_for. rewrite E. cbn [bind].
    unfold base_url_or_default, listing_base, dict_get. rewrite L.
    cbn [bind as_str]. destruct (IsoDates.strptime_ymd date_ymd); reflexivity.
Qed.

Lemma site_needs_its_base_url_witness :
  exists fs b,
    load_vendor_site_config one_site_config "WebTrac" (site_of "burlingame")
    = Some (JObj fs)
    /\ lookup "base_url" fs = Some (JStr b)
    /\ IsoDates.strptime_ymd "2025-10-13" <> None
    /\ fetch_schedule laguna_page "2025-10-13" (rstrip_slash b)
       = fetch_schedule_for one_site_config "burlingame" "2025-10-13"
           laguna_page.
Proof.
  destruct (fetch_schedule_for one_site_config "burlingame" "2025-10-13"
              laguna_page) as [out|] eqn:E; [|discriminate E].
  exact (proj1 (site_needs_its_base_url one_site_config "burlingame"
                  "2025-10-13" laguna_page) out E).
Defined.

End CitiesFacts.

(** ** The distance score and the winner among the candidates *)

Module PlacesMore.
Import Text Json Places Shapes Notions Samples TextFacts PlacesFacts.

Local Open Scope Q_scope.

(** *** The distance score *)

(** X9.  The distance score is never negative, is at most 100 for a
    distance that is not negative, does not grow with the distance, and is
    0 exactly from 120 m on. *)
Theorem distance_score_falls_with_distance (d d' : Q) :
  0 <= dist_score d
  /\ (0 <= d -> dist_score d <= 100)
  /\ (d <= d' -> dist_score d' <= dist_score d)
  /\ (dist_score d == 0 <-> 120 <= d).
Proof.
  rewrite !dist_score_unfold.
  destruct (Q.min_spec d 120) as [[C M]|[C M]];
    destruct (Q.max_spec 0 (100 * (1 - Qmin d 120 * (1 # 120))))
      as [[Y X]|[Y X]];
    destruct (Q.min_spec d' 120) as [[C' M']|[C' M']];
    destruct (Q.max_spec 0 (100 * (1 - Qmin d' 120 * (1 # 120))))
      as [[Y' X']|[Y' X']];
    rewrite X, X'; rewrite ?M in *; rewrite ?M' in *;
    (split; [lra|]); (split; [intros; lra|]); (split; [intros; lra|]);
    split; intros; lra.
Qed.

Lemma distance_score_falls_with_distance_witness :
  dist_score 60 <= dist_score 30.
Proof.
  apply (proj1 (proj2 (proj2 (distance_score_falls_with_distance 30 60)))).
  vm_compute. discriminate.
Defined.

(** *** The winner of the loop *)

Section Winner.

Variable L : library.

Lemma fold_first base pd prefer avoid lat lng cands : forall best,
  let total := total_score L base pd prefer avoid lat lng in
  let best' :=
    fold_left (consider L base pd prefer avoid lat lng) cands best in
  (best' = best /\ forall c, In c cands -> total c <= score_of best)
  \/ exists l1 c l2,
       cands = (l1 ++ c :: l2)%list
       /\ best' = (Some c, total c, Some (distance L lat lng c))
       /\ score_of best < total c
       /\ (forall c', In c' l1 -> total c' < total c)
       /\ (forall c', In c' l2 -> total c' <= total c).
Proof.
  cbv zeta. induction cands as [|p l IH]; intros best; cbn [fold_left].
  - left. split; [reflexivity | contradiction].
  - destruct (consider_cases L base pd prefer avoid lat lng best p)
      as [(E & C)|(E & C)]; cbv zeta in E, C; rewrite E.
    + destruct (IH best) as [(I1 & I2)|(l1 & c & l2 & I1 & I2 & I3 & I4 & I5)].
      * left. split; [assumption|]. intros c [<-|Hc]; auto.
      * right. exists (p :: l1), c, l2. subst l.
        split; [reflexivity|]. split; [assumption|]. split; [assumption|].
        split; [|assumption]. intros c' [<-|Hc]; [lra | auto].
    + destruct (IH (Some p, total_score L base pd prefer avoid lat lng p,
                    Some (distance L lat lng p)))
        as [(I1 & I2)|(l1 & c & l2 & I1 & I2 & I3 & I4 & I5)].
      * right. exists [], p, l.
        split; [reflexivity|]. split; [assumption|]. split; [assumption|].
        split; [contradiction | assumption].
      * unfold score_of in I3. cbn [fst snd] in I3.
        right. exists (p :: l1), c, l2. subst l.
        split; [reflexivity|]. split; [assumption|]. split; [lra|].
        split; [|assumption]. intros c' [<-|Hc]; [lra | auto].
Qed.

End Winner.

(** X10.  The place that [choose_best_match] returns is a candidate that
    is a non-empty dictionary, returned with its own score and distance;
    its score is above -1, strictly above the score of every candidate
    before it, and at least the score of every candidate after it: of
    candidates with equal scores the first wins. *)
Theorem best_match_is_first_of_the_best (L : library)
    (osm_name : option string) (lat lng : Q) (cands : list place)
    (pd : bool) (prefer avoid : option (list string))
    (p : place) (s : Q) (m : option Q) :
  let total :=
    total_score L (norm_name osm_name) pd (prefer_or_default prefer)
      (avoid_or_default avoid) lat lng in
  choose_best_match L osm_name lat lng cands pd prefer avoid = (Some p, s, m) ->
  place_truthy p = true
  /\ s = total p
  /\ m = Some (distance L lat lng p)
  /\ -1 < s
  /\ exists before after,
       cands = (before ++ p :: after)%list
       /\ (forall c, In c before -> total c < total p)
       /\ (forall c, In c after -> total c <= total p).
Proof.
  cbv zeta. unfold choose_best_match. intros H.
  destruct (fold_first L (norm_name osm_name) pd (prefer_or_default prefer)
              (avoid_or_default avoid) lat lng cands (None, -1, None))
    as [(I1 & _)|(l1 & c & l2 & I1 & I2 & I3 & I4 & I5)]; cbv zeta in *.
  - rewrite I1 in H. discriminate H.
  - rewrite I2 in H. cbn [fst snd] in H.
    destruct (place_truthy c) eqn:T; [|discriminate H].
    injection H as <- <- <-. unfold score_of in I3. cbn [fst snd] in I3.
    split; [assumption|]. split; [reflexivity|]. split; [reflexivity|].
    split; [assumption|]. exists l1, l2. auto.
Qed.

Lemma best_match_is_first_of_the_best_witness :
  exists before after,
    [far_courts; ray_park_courts; ray_park_courts]
    = (before ++ ray_park_courts :: after)%list
    /\ (forall c, In c before ->
          total_score toy_library (norm_name (Some "Ray Park Tennis")) true
            default_prefer_types default_avoid_name_terms
            (3758 # 100) (-12235 # 100) c
          < total_score toy_library (norm_name (Some "Ray Park Tennis")) true
              default_prefer_types default_avoid_name_terms
              (3758 # 100) (-12235 # 100) ray_park_courts)
    /\ (forall c, In c after ->
          total_score toy_library (norm_name (Some "Ray Park Tennis")) true
            default_prefer_types default_avoid_name_terms
            (3758 # 100) (-12235 # 100) c
          <= total_score toy_library (norm_name (Some "Ray Park Tennis")) true
               default_prefer_types default_avoid_name_terms
               (3758 # 100) (-12235 # 100) ray_park_courts).
Proof.
  refine (proj2 (proj2 (proj2 (proj2
            (best_match_is_first_of_the_best toy_library
               (Some "Ray Park Tennis") (3758 # 100) (-12235 # 100)
               [far_courts; ray_park_courts; ray_park_courts] true None None
               ray_park_courts _ _ _))))).
  vm_compute. reflexivity.
Defined.

(** X11.  When no candidate scores above -1 the matcher returns no place,
    score 0 and no distance. *)
Theorem no_match_when_no_score_above_minus_one (L : library)
    (osm_name : option string) (lat lng : Q) (cands : list place)
    (pd : bool) (prefer avoid : option (list string)) :
  (forall c, In c cands ->
     total_score L (norm_name osm_name) pd (prefer_or_default prefer)
       (avoid_or_default avoid) lat lng c <= -1) ->
  choose_best_match L osm_name lat lng cands pd prefer avoid = (None, 0, None).
Proof.
  intros H. unfold choose_best_match.
  destruct (fold_first L (norm_name osm_name) pd (prefer_or_default prefer)
              (avoid_or_default avoid) lat lng cands (None, -1, None))
    as [(I1 & _)|(l1 & c & l2 & I1 & I2 & I3 & I4 & I5)]; cbv zeta in *.
  - rewrite I1. reflexivity.
  - exfalso. unfold score_of in I3. cbn [fst snd] in I3.
    assert (Hc : In c cands) by (rewrite I1; apply in_elt).
    specialize (H c Hc). lra.
Qed.

Lemma no_match_when_no_score_above_minus_one_witness :
  choose_best_match toy_library (Some "Ray Park Tennis")
    (3758 # 100) (-12235 # 100) [far_pro_shop] true None None
  = (None, 0, None).
Proof.
  apply no_match_when_no_score_above_minus_one.
  intros c [<-|[]]. vm_compute. discriminate.
Defined.

End PlacesMore.

(** ** What the enrichment driver attaches *)

Module EnrichFacts.
Import Text Json Places Shapes Notions Samples TextFacts PlacesFacts.

Local Open Scope Q_scope.

Section Driver.

Variable L : library.
Variable api : places_api.

Lemma attach_cases cfg r p s m o :
  attach L api cfg r (Some p, s, Some m) = Some o ->
  o = r
  \/ exists pid fs,
       place_truthy p = true /\ threshold cfg <= s
       /\ place_id p = Some pid /\ get_place_details api pid = JObj fs
       /\ o = enriched L r pid fs s m.
Proof.
  unfold attach. intros H.
  destruct (place_truthy p) eqn:T; cbn [andb] in H;
    [|left; now injection H].
  destruct (Qle_bool (threshold cfg) s) eqn:Q; [|left; now injection H].
  apply Qle_bool_iff in Q.
  destruct (place_id p) as [pid|] eqn:I; cbn [bind] in H; [|discriminate].
  unfold details_get in H.
  destruct (get_place_details api pid) as [| | | | |fs] eqn:D;
    try discriminate H.
  cbn [bind] in H. injection H as <-.
  right. exists pid, fs. auto.
Qed.

Lemma enrich_record_cases cfg r o :
  let cands :=
    places_nearby api (lat r) (lon r) (radius_m cfg) (keyword cfg) in
  let total :=
    total_score L (norm_name (name r)) (prefer_distance cfg)
      (prefer_or_default (or_empty (prefer_types cfg)))
      (avoid_or_default (or_empty (avoid_name_terms cfg))) (lat r) (lon r) in
  let meters := distance L (lat r) (lon r) in
  enrich_record L api cfg r = Some o ->
  o = r
  \/ exists p pid fs,
       In p cands /\ place_truthy p = true
       /\ (forall c, In c cands -> total c <= total p)
       /\ threshold cfg <= total p
       /\ (meters p <= accept_within_m cfg
           \/ meters p <= hard_reject_over_m cfg)
       /\ place_id p = Some pid /\ get_place_details api pid = JObj fs
       /\ o = enriched L r pid fs (total p) (meters p).
Proof.
  cbv zeta. unfold enrich_record. intros H.
  destruct (choose_cases L (name r) (lat r) (lon r)
              (places_nearby api (lat r) (lon r) (radius_m cfg) (keyword cfg))
              (prefer_distance cfg) (or_empty (prefer_types cfg))
              (or_empty (avoid_name_terms cfg)))
    as [N|(c & Hc & T & Max & C)]; cbv zeta in *.
  - rewrite N in H. cbn [attach] in H. left. now injection H.
  - rewrite C in H. rewrite T in H. cbn [andb] in H.
    destruct (Qle_bool _ (accept_within_m cfg)) eqn:A.
    + apply Qle_bool_iff in A.
      destruct (attach_cases _ _ _ _ _ _ H)
        as [->|(pid & fs & _ & S & I & D & ->)]; [now left|].
      right. exists c, pid, fs. repeat (split; [assumption|]).
      split; [now left|]. auto.
    + destruct (Qle_bool _ (hard_reject_over_m cfg)) eqn:R; cbn [negb] in H.
      * apply Qle_bool_iff in R.
        destruct (attach_cases _ _ _ _ _ _ H)
          as [->|(pid & fs & _ & S & I & D & ->)]; [now left|].
        right. exists c, pid, fs. repeat (split; [assumption|]).
        split; [now right|]. auto.
      * left. now injection H.
Qed.

Lemma enrich_none_at cfg r : forall before after,
  enrich_record L api cfg r = None ->
  enrich L api cfg (before ++ r :: after) = None.
Proof.
  intros before after E. induction before as [|b before IH];
    cbn [app enrich].
  - rewrite E. reflexivity.
  - destruct (enrich_record L api cfg b); cbn [bind]; [|reflexivity].
    rewrite IH. reflexivity.
Qed.

End Driver.

(** X12.  The output of [enrich] has one record for each input record, in
    the same order, and each output record has the name, the coordinates
    and the other entries of its input record. *)
Theorem enrich_keeps_the_records (L : library) (api : places_api)
    (cfg : config) (records out : list venue) :
  enrich L api cfg records = Some out ->
  Forall2 (fun r o =>
             name o = name r /\ lat o = lat r /\ lon o = lon r
             /\ other o = other r)
    records out.
Proof.
  revert out. induction records as [|r records IH]; intros out H;
    cbn [enrich] in H.
  - injection H as <-. constructor.
  - destruct (enrich_record L api cfg r) as [o|] eqn:E; cbn [bind] in H;
      [|discriminate].
    destruct (enrich L api cfg records) as [out'|]; cbn [bind] in H;
      [|discriminate].
    injection H as <-. constructor; [|now apply IH].
    destruct (enrich_record_cases L api cfg r o E)
      as [->|(p & pid & fs & _ & _ & _ & _ & _ & _ & _ & ->)]; auto.
Qed.

Lemma enrich_keeps_the_records_witness :
  exists out,
    enrich toy_library near_api default_config [ray_park; ray_park] = Some out
    /\ Forall2 (fun r o =>
                  name o = name r /\ lat o = lat r /\ lon o = lon r
                  /\ other o = other r)
         [ray_park; ray_park] out.
Proof.
  destruct (enrich toy_library near_api default_config [ray_park; ray_park])
    as [out|] eqn:E; [|vm_compute in E; discriminate E].
  exists out. split; [reflexivity|].
  exact (enrich_keeps_the_records toy_library near_api default_config
           [ray_park; ray_park] out E).
Defined.

(** X13.  A record that comes out of the driver changed is its input
    record with a [google] entry made from one of the candidates: a
    non-empty dictionary with an identifier, whose score is the greatest
    among the candidates and at least the threshold, whose distance is
    within the auto-accept radius or within the hard-reject radius, and
    whose details were returned as a dictionary. *)
Theorem attached_place_passed_the_gates (L : library) (api : places_api)
    (cfg : config) (r o : venue) :
  let cands :=
    places_nearby api (lat r) (lon r) (radius_m cfg) (keyword cfg) in
  let total :=
    total_score L (norm_name (name r)) (prefer_distance cfg)
      (prefer_or_default (or_empty (prefer_types cfg)))
      (avoid_or_default (or_empty (avoid_name_terms cfg))) (lat r) (lon r) in
  let meters := distance L (lat r) (lon r) in
  enrich_record L api cfg r = Some o ->
  o = r
  \/ exists p pid fs,
       In p cands /\ place_truthy p = true
       /\ (forall c, In c cands -> total c <= total p)
       /\ threshold cfg <= total p
       /\ (meters p <= accept_within_m cfg
           \/ meters p <= hard_reject_over_m cfg)
       /\ place_id p = Some pid /\ get_place_details api pid = JObj fs
       /\ o = enriched L r pid fs (total p) (meters p).
Proof. exact (enrich_record_cases L api cfg r o). Qed.

Lemma attached_place_passed_the_gates_witness :
  exists o,
    enrich_record toy_library near_api default_config ray_park = Some o
    /\ (o = ray_park
        \/ exists p pid fs,
             In p [ray_park_courts] /\ place_truthy p = true
             /\ (forall c, In c [ray_park_courts] ->
                   total_score toy_library (norm_name (name ray_park)) true
                     [] [] (lat ray_park) (lon ray_park) c
                   <= total_score toy_library (norm_name (name ray_park)) true
                        [] [] (lat ray_park) (lon ray_park) p)
             /\ 70 <= total_score toy_library (norm_name (name ray_park)) true
                        [] [] (lat ray_park) (lon ray_park) p
             /\ (distance toy_library (lat ray_park) (lon ray_park) p <= 200
                 \/ distance toy_library (lat ray_park) (lon ray_park) p
                    <= 400)
             /\ place_id p = Some pid
             /\ get_place_details near_api pid = JObj fs
             /\ o = enriched toy_library ray_park pid fs
                      (total_score toy_library (norm_name (name ray_park))
                         true [] [] (lat ray_park) (lon ray_park) p)
                      (distance toy_library (lat ray_park) (lon ray_park) p)).
Proof.
  destruct (enrich_record toy_library near_api default_config ray_park)
    as [o|] eqn:E; [|vm_compute in E; discriminate E].
  exists o. split; [reflexivity|].
  exact (attached_place_passed_the_gates toy_library near_api default_config
           ray_park o E).
Defined.

Lemma boost_without_lists p : boost [] [] p == 0.
Proof. unfold boost. cbn [existsb]. lra. Qed.

(** X14.  [enrich] hands [choose_best_match] empty sets where it was given
    no preferred types and no avoided terms, so the defaults of the matcher
    are not used and no candidate gets a boost.  With [prefer_distance] and
    a positive threshold, a record then comes out changed only when a
    candidate lies less than 120 m away, whatever the types and the names
    of the candidates: from 120 m on the score is 0. *)
Theorem without_lists_only_distance_counts (L : library) (api : places_api)
    (cfg : config) (r o : venue) :
  prefer_types cfg = None -> avoid_name_terms cfg = None ->
  prefer_distance cfg = true -> 0 < threshold cfg ->
  enrich_record L api cfg r = Some o ->
  o = r
  \/ exists p,
       In p (places_nearby api (lat r) (lon r) (radius_m cfg) (keyword cfg))
       /\ distance L (lat r) (lon r) p < 120.
Proof.
  intros P A D T H.
  destruct (enrich_record_cases L api cfg r o H)
    as [->|(p & pid & fs & Hp & _ & _ & S & _)]; [now left|].
  right. exists p. split; [assumption|].
  rewrite P, A, D in S. cbn [or_empty prefer_or_default avoid_or_default] in S.
  unfold total_score, base_score in S.
  pose proof (boost_without_lists p) as B.
  set (d := distance L (lat r) (lon r) p) in *.
  apply Qnot_le_lt. intros Far.
  pose proof (dist_score_beyond d Far) as Z. lra.
Qed.

Lemma without_lists_only_distance_counts_witness :
  exists o,
    enrich_record toy_library near_api default_config ray_park = Some o
    /\ (o = ray_park
        \/ exists p,
             In p [ray_park_courts]
             /\ distance toy_library (lat ray_park) (lon ray_park) p < 120).
Proof.
  destruct (enrich_record toy_library near_api default_config ray_park)
    as [o|] eqn:E; [|vm_compute in E; discriminate E].
  exists o. split; [reflexivity|].
  refine (without_lists_only_distance_counts toy_library near_api
            default_config ray_park o eq_refl eq_refl eq_refl _ E).
  vm_compute. reflexivity.
Defined.

(** X15.  When the chosen place passes the distance gate and the threshold
    but has no identifier, or its details request returns no dictionary,
    the turn of the loop raises, and so does [enrich] on any list that
    holds the record. *)
Theorem failed_details_stop_the_run (L : library) (api : places_api)
    (cfg : config) (r : venue) (p : place) (s m : Q) :
  choose_best_match L (name r) (lat r) (lon r)
    (places_nearby api (lat r) (lon r) (radius_m cfg) (keyword cfg))
    (prefer_distance cfg) (or_empty (prefer_types cfg))
    (or_empty (avoid_name_terms cfg))
  = (Some p, s, Some m) ->
  m <= accept_within_m cfg \/ m <= hard_reject_over_m cfg ->
  threshold cfg <= s ->
  (forall pid fs,
      place_id p = Some pid -> get_place_details api pid <> JObj fs) ->
  enrich_record L api cfg r = None
  /\ forall before after,
       enrich L api cfg (before ++ r :: after) = None.
Proof.
  intros Best Gate Thr Fail.
  assert (E : enrich_record L api cfg r = None).
  { unfold enrich_record. rewrite Best.
    assert (T : place_truthy p = true).
    { destruct (choose_cases L (name r) (lat r) (lon r)
                  (places_nearby api (lat r) (lon r) (radius_m cfg)
                     (keyword cfg))
                  (prefer_distance cfg) (or_empty (prefer_types cfg))
                  (or_empty (avoid_name_terms cfg)))
        as [N|(c & _ & T & _ & C)]; rewrite Best in *; [discriminate|].
      injection C as <- _ _. exact T. }
    assert (A : attach L api cfg r (Some p, s, Some m) = None).
    { unfold attach. rewrite T. cbn [andb].
      apply Qle_bool_iff in Thr. rewrite Thr.
      destruct (place_id p) as [pid|] eqn:I; cbn [bind]; [|reflexivity].
      unfold details_get.
      destruct (get_place_details api pid) as [| | | | |fs] eqn:D;
        try reflexivity.
      exfalso. exact (Fail pid fs eq_refl D). }
    rewrite T. cbn [andb].
    destruct (Qle_bool m (accept_within_m cfg)) eqn:Acc; [exact A|].
    destruct (Qle_bool m (hard_reject_over_m cfg)) eqn:Rej; cbn [negb];
      [exact A|].
    exfalso. destruct Gate as [G|G]; apply Qle_bool_iff in G; congruence. }
  split; [exact E|].
  intros before after. now apply enrich_none_at.
Qed.

Lemma failed_details_stop_the_run_witness :
  enrich toy_library no_details_api default_config [ray_park] = None.
Proof.
  refine (proj2 (failed_details_stop_the_run toy_library no_details_api
                   default_config ray_park ray_park_courts
                   (total_score toy_library (norm_name (name ray_park)) true
                      [] [] (lat ray_park) (lon ray_park) ray_park_courts)
                   (distance toy_library (lat ray_park) (lon ray_park)
                      ray_park_courts) _ _ _ _)
            [] []).
  - vm_compute. reflexivity.
  - left. vm_compute. discriminate.
  - vm_compute. discriminate.
  - intros pid fs _. cbn. discriminate.
Defined.

(** X16.  Where sine, square root and arc sine are 0 at 0, a candidate at
    the coordinates of the record is at distance 0 and has the distance
    score 100. *)
Theorem same_point_is_at_distance_zero (L : library) (lat lng : Q)
    (p : place) :
  (forall x, x == 0 -> sin L x == 0) ->
  (forall x, x == 0 -> sqrt L x == 0) ->
  (forall x, x == 0 -> asin L x == 0) ->
  place_latitude p == lat -> place_longitude p == lng ->
  distance L lat lng p == 0 /\ dist_score (distance L lat lng p) == 100.
Proof.
  intros Sin Sqrt Asin Hlat Hlng.
  assert (D : distance L lat lng p == 0).
  { unfold distance, haversine_m, radians.
    assert (S1 : sin L ((place_latitude p - lat) * (pi L / 180) / 2) == 0).
    { apply Sin. rewrite Hlat. unfold Qdiv. ring. }
    assert (S2 : sin L ((place_longitude p - lng) * (pi L / 180) / 2) == 0).
    { apply Sin. rewrite Hlng. unfold Qdiv. ring. }
    rewrite (Asin _); [ring|]. apply Sqrt. rewrite S1, S2. ring. }
  split; [exact D|]. now apply dist_score_at_zero.
Qed.

Lemma same_point_is_at_distance_zero_witness :
  distance toy_library (3758 # 100) (-12235 # 100) ray_park_courts == 0
  /\ dist_score
       (distance toy_library (3758 # 100) (-12235 # 100) ray_park_courts)
     == 100.
Proof.
  apply same_point_is_at_distance_zero;
    try (intros x Hx; exact Hx); reflexivity.
Defined.

End EnrichFacts.

(** ** Normalised names *)

Module NameFacts.
Import Text Regex Places Shapes Notions TextFacts.

(** *** Replacing the runs of a class *)

Lemma many_head p : forall s prev,
  exists q, hd_error (many p 0 prev s) = Some (q, drop_while p s).
Proof.
  induction s as [|c s IH]; intros prev.
  - exists prev. reflexivity.
  - cbn [many drop_while Nat.pred Nat.eqb]. destruct (p c).
    + destruct (IH (Some c)) as (q & Hq). exists q.
      destruct (many p 0 (Some c) s); [discriminate Hq | exact Hq].
    + exists prev. reflexivity.
Qed.

Lemma length_run p s :
  String.length s = run p s + String.length (drop_while p s).
Proof.
  induction s as [|c s IH]; [reflexivity|].
  cbn [run drop_while]. destruct (p c); cbn [String.length Nat.add]; lia.
Qed.

Lemma sub_from_unfold r repl prev skip c s :
  sub_from r repl prev skip (String c s)
  = match skip with
    | S k => sub_from r repl (Some c) k s
    | O =>
        match rmatch r prev (String c s) with
        | (_, rest) :: _ =>
            match String.length (String c s) - String.length rest with
            | S k => (repl ++ sub_from r repl (Some c) k s)%string
            | O => String c (sub_from r repl (Some c) 0 s)
            end
        | [] => String c (sub_from r repl (Some c) 0 s)
        end
    end.
Proof. reflexivity. Qed.

Lemma sub_from_collapse p repl : forall s,
  (forall prev, sub_from (Many p 1) repl prev 0 s = collapse p repl false s)
  /\ (forall prev,
        sub_from (Many p 1) repl prev (run p s) s = collapse p repl true s).
Proof.
  induction s as [|c s [IH0 IH1]]; [split; reflexivity|].
  assert (Z : forall prev,
             sub_from (Many p 1) repl prev 0 (String c s)
             = collapse p repl false (String c s)).
  { intros prev. rewrite sub_from_unfold. cbn [rmatch many collapse Nat.pred].
    destruct (p c) eqn:Hc.
    - destruct (many_head p s (Some c)) as (q & Hq).
      change (Nat.eqb 1 0) with false. cbn iota. rewrite app_nil_r.
      destruct (many p 0 (Some c) s) as [|[q' rest] l]; [discriminate Hq|].
      injection Hq as _ ->.
      replace (String.length (String c s)
               - String.length (drop_while p s)) with (S (run p s))
        by (cbn [String.length]; rewrite (length_run p s) at 1; lia).
      now rewrite IH1.
    - cbn [app Nat.eqb]. now rewrite IH0. }
  split; [exact Z|].
  intros prev. cbn [run collapse]. destruct (p c) eqn:Hc.
  - rewrite sub_from_unfold. apply IH1.
  - rewrite Z. cbn [collapse]. now rewrite Hc.
Qed.

Lemma sub_many_collapse p repl s :
  sub (Many p 1) repl s = collapse p repl false s.
Proof. apply (proj1 (sub_from_collapse p repl s)). Qed.

(** *** What a collapsed string is made of *)

Lemma all_chars_append p a b :
  all_chars p (a ++ b) = all_chars p a && all_chars p b.
Proof.
  induction a as [|c a IH]; [reflexivity|].
  cbn [append all_chars]. now rewrite IH, andb_assoc.
Qed.

Lemma collapse_chars p q repl : forall s b,
  all_chars q repl = true ->
  all_chars (fun c => p c || q c) s = true ->
  all_chars q (collapse p repl b s) = true.
Proof.
  intros s b R. revert b. induction s as [|c s IH]; intros b H;
    [reflexivity|].
  cbn [all_chars] in H. apply andb_prop in H. destruct H as (Hc & Hs).
  cbn [collapse]. destruct (p c) eqn:P.
  - destruct b; [now apply IH|].
    rewrite all_chars_append, R. now apply IH.
  - cbn [orb] in Hc. cbn [all_chars]. rewrite Hc. now apply IH.
Qed.

Lemma collapse_spaced : forall s b,
  contains "  " (collapse is_space " " b s) = false
  /\ (b = true -> String.prefix " " (collapse is_space " " b s) = false).
Proof.
  induction s as [|c s IH]; intros b; [split; reflexivity|].
  cbn [collapse]. destruct (is_space c) eqn:Sp.
  - destruct b.
    + apply IH.
    + destruct (IH true) as (I1 & I2). split; [|discriminate].
      change (" " ++ collapse is_space " " true s)%string
        with (String " " (collapse is_space " " true s)).
      cbn [contains]. rewrite I1, orb_false_r.
      specialize (I2 eq_refl).
      change (String.prefix "  " (String " " (collapse is_space " " true s)))
        with (if Ascii.ascii_dec " " " "
              then String.prefix " " (collapse is_space " " true s)
              else false).
      destruct (Ascii.ascii_dec " " " "); [exact I2 | reflexivity].
  - destruct (IH false) as (I1 & _).
    assert (N : c <> " "%char) by (intros ->; discriminate Sp).
    split.
    + cbn [contains]. rewrite I1, orb_false_r. cbn [String.prefix].
      destruct (Ascii.ascii_dec " " c); [congruence | reflexivity].
    + intros _. cbn [String.prefix].
      destruct (Ascii.ascii_dec " " c); [congruence | reflexivity].
Qed.

(** *** Stripping *)

Lemma all_chars_all p s : (forall c, p c = true) -> all_chars p s = true.
Proof.
  intros H. induction s as [|c s IH]; [reflexivity|].
  cbn [all_chars]. now rewrite H, IH.
Qed.

Lemma all_chars_weaken (p q : ascii -> bool) s :
  (forall c, p c = true -> q c = true) ->
  all_chars p s = true -> all_chars q s = true.
Proof.
  intros W. induction s as [|c s IH]; [reflexivity|].
  cbn [all_chars]. intros H. apply andb_prop in H. destruct H as (Hc & Hs).
  now rewrite (W c Hc), IH.
Qed.

Lemma lstrip_suffix s : exists w, s = (w ++ lstrip s)%string.
Proof.
  induction s as [|c s (w & IH)]; [now exists EmptyString|].
  cbn [lstrip]. destruct (is_space c).
  - exists (String c w). cbn [append]. now rewrite <- IH.
  - now exists EmptyString.
Qed.

Lemma rstrip_prefix s : exists w, s = (rstrip s ++ w)%string.
Proof.
  induction s as [|c s (w & IH)]; [now exists EmptyString|].
  cbn [rstrip]. destruct (rstrip s) as [|d t].
  - destruct (is_space c).
    + now exists (String c s).
    + exists w. cbn [append] in *. now rewrite <- IH.
  - exists w. cbn [append] in *. now rewrite <- IH.
Qed.

Lemma prefix_empty s : String.prefix EmptyString s = true.
Proof. destruct s; reflexivity. Qed.

Lemma prefix_grows x : forall a b,
  String.prefix x a = true -> String.prefix x (a ++ b) = true.
Proof.
  induction x as [|c x IH]; intros a b H; [apply prefix_empty|].
  destruct a as [|d a]; [discriminate H|].
  cbn [append String.prefix] in *.
  destruct (Ascii.ascii_dec c d); [now apply IH | discriminate H].
Qed.

Lemma contains_left x a b :
  contains x a = true -> contains x (a ++ b) = true.
Proof.
  induction a as [|c a IH]; intros H.
  - cbn [contains] in H. rewrite orb_false_r in H.
    destruct x; [|discriminate H]. destruct b; reflexivity.
  - cbn [contains] in H. apply orb_prop in H. cbn [append contains].
    destruct H as [H|H].
    + change (String c (a ++ b))%string with (String c a ++ b)%string.
      now rewrite (prefix_grows _ _ b H).
    + rewrite (IH H). apply orb_true_r.
Qed.

Lemma contains_right x a b :
  contains x b = true -> contains x (a ++ b) = true.
Proof.
  intros H. induction a as [|c a IH]; [exact H|].
  cbn [append contains]. rewrite IH. apply orb_true_r.
Qed.

Lemma lstrip_head s : String.prefix " " (lstrip s) = false.
Proof.
  induction s as [|c s IH]; [reflexivity|].
  cbn [lstrip]. destruct (is_space c) eqn:Sp; [exact IH|].
  cbn [String.prefix]. destruct (Ascii.ascii_dec " " c) as [<-|];
    [discriminate Sp | reflexivity].
Qed.

Lemma rstrip_keeps_head y :
  String.prefix " " y = false -> String.prefix " " (rstrip y) = false.
Proof.
  destruct y as [|c t]; [reflexivity|]. intros H.
  assert (N : " "%char <> c).
  { intros <-. cbn [String.prefix] in H.
    destruct (Ascii.ascii_dec " " " "); [|congruence].
    now rewrite prefix_empty in H. }
  cbn [rstrip]. destruct (rstrip t).
  - destruct (is_space c); [reflexivity|]. cbn [String.prefix].
    destruct (Ascii.ascii_dec " " c); [congruence | reflexivity].
  - cbn [String.prefix].
    destruct (Ascii.ascii_dec " " c); [congruence | reflexivity].
Qed.

Lemma rstrip_last y c :
  last_of None (rstrip y) = Some c -> is_space c = false.
Proof.
  induction y as [|a y IH]; [discriminate|].
  cbn [rstrip]. destruct (rstrip y) as [|b t].
  - destruct (is_space a) eqn:Sp; [discriminate|].
    cbn [last_of]. intros H. now injection H as <-.
  - exact IH.
Qed.

Lemma plain_or_not c :
  negb (in_range 97 122 c || is_digit c) || is_plain c = true.
Proof.
  unfold is_plain. destruct (in_range 97 122 c); destruct (is_digit c);
    reflexivity.
Qed.

(** X17.  A normalised name is made of the letters [a] to [z], the digits
    and single spaces: it has no other character, no two spaces in a row,
    and no space at either end. *)
Theorem normalised_name_is_plain (s : option string) :
  all_chars is_plain (norm_name s) = true
  /\ contains "  " (norm_name s) = false
  /\ String.prefix " " (norm_name s) = false
  /\ last_of None (norm_name s) <> Some " "%char.
Proof.
  unfold norm_name, NON_ALNUM_RE, SPACES_RE. cbv zeta.
  rewrite !sub_many_collapse.
  set (s1 := sub STOP_WORDS_RE EmptyString _).
  set (s2 := collapse _ " " false s1).
  set (s3 := collapse is_space " " false s2).
  assert (P2 : all_chars is_plain s2 = true).
  { apply collapse_chars; [reflexivity|].
    apply all_chars_all. intros c. apply plain_or_not. }
  assert (P3 : all_chars is_plain s3 = true).
  { apply collapse_chars; [reflexivity|].
    revert P2. apply all_chars_weaken. intros c ->. apply orb_true_r. }
  assert (D3 : contains "  " s3 = false) by apply collapse_spaced.
  unfold strip.
  destruct (lstrip_suffix s3) as (w & E).
  destruct (rstrip_prefix (lstrip s3)) as (v & F).
  split; [|split; [|split]].
  - rewrite E, all_chars_append in P3. apply andb_prop in P3.
    destruct P3 as (_ & P3). rewrite F, all_chars_append in P3.
    now apply andb_prop in P3.
  - destruct (contains "  " (rstrip (lstrip s3))) eqn:C; [|reflexivity].
    apply (contains_left _ _ v) in C. rewrite <- F in C.
    apply (contains_right _ w) in C. rewrite <- E in C. congruence.
  - apply rstrip_keeps_head, lstrip_head.
  - intros H. apply rstrip_last in H. discriminate H.
Qed.

End NameFacts.

(** ** The text query *)

Module QueryFacts.
Import Text Query Notions TextFacts.

Lemma compare_flip x y : String.compare x y = Gt -> String.compare y x = Lt.
Proof.
  intros H. rewrite String.compare_antisym, H. reflexivity.
Qed.

Lemma in_insert_term t x : forall l,
  In t (insert_term x l) <-> t = x \/ In t l.
Proof.
  induction l as [|y l IH]; cbn [insert_term].
  - cbn [In]. intuition.
  - destruct (String.compare x y) eqn:C.
    + apply String.compare_eq_iff in C. subst y. cbn [In]. intuition.
    + cbn [In]. intuition.
    + cbn [In]. rewrite IH. intuition.
Qed.

Lemma insert_term_ascending x : forall l,
  ascending l -> ascending (insert_term x l).
Proof.
  induction l as [|y l IH]; intros A; cbn [insert_term].
  - cbn [ascending]. auto.
  - destruct (String.compare x y) eqn:C.
    + exact A.
    + cbn [ascending] in *. auto.
    + destruct A as (A1 & A2). specialize (IH A2).
      change (ascending (y :: insert_term x l))
        with (match insert_term x l with
              | [] => True
              | z :: _ => String.compare y z = Lt
              end /\ ascending (insert_term x l)).
      split; [|exact IH].
      destruct l as [|r l]; cbn [insert_term].
      * now apply compare_flip.
      * destruct (String.compare x r); [exact A1 | | exact A1].
        now apply compare_flip.
Qed.

Lemma sorted_set_ascending l : ascending (sorted_set l).
Proof.
  induction l as [|x l IH]; cbn [sorted_set fold_right].
  - exact I.
  - now apply insert_term_ascending.
Qed.

Lemma in_sorted_set t l : In t (sorted_set l) <-> In t l.
Proof.
  induction l as [|x l IH]; cbn [sorted_set fold_right]; [reflexivity|].
  rewrite in_insert_term. fold (sorted_set l). rewrite IH. cbn [In].
  intuition.
Qed.

Lemma lstrip_spaces ws :
  all_chars is_space ws = true -> lstrip ws = EmptyString.
Proof.
  induction ws as [|c ws IH]; [reflexivity|].
  cbn [all_chars lstrip]. intros H. apply andb_prop in H.
  destruct H as (-> & H). now apply IH.
Qed.

Lemma strip_app_spaces k ws :
  all_chars is_space ws = true -> strip (k ++ ws) = strip k.
Proof.
  intros H. unfold strip. induction k as [|c k IH].
  - cbn [append]. now rewrite (lstrip_spaces ws H).
  - cbn [append lstrip]. destruct (is_space c); [exact IH|].
    change (String c (k ++ ws))%string with (String c k ++ ws)%string.
    now apply SlotFacts.rstrip_app_spaces.
Qed.

(** X18.  The terms that [_build_text_query] appends to a keyword are the
    broad terms that do not occur in the lower-cased keyword, each once and
    in ascending order.  When every broad term occurs in it, the query is
    the keyword without the white space at its ends. *)
Theorem appended_terms_are_the_missing_terms (keyword : string)
    (broad_terms : list string) :
  ascending (extra_terms keyword broad_terms)
  /\ (forall t,
        In t (extra_terms keyword broad_terms)
        <-> In t broad_terms /\ contains t (lower keyword) = false)
  /\ (keyword <> EmptyString ->
      (forall t, In t broad_terms -> contains t (lower keyword) = true) ->
      build_text_query keyword broad_terms = strip keyword).
Proof.
  split; [apply sorted_set_ascending|]. split.
  - intros t. unfold extra_terms. rewrite in_sorted_set, filter_In.
    rewrite negb_true_iff. reflexivity.
  - intros N H. unfold build_text_query, extra_terms.
    destruct keyword as [|c k]; [congruence|]. cbn [is_empty negb].
    replace (filter _ broad_terms) with (@nil string).
    + cbn [sorted_set fold_right join String.concat].
      now apply strip_app_spaces.
    + symmetry. induction broad_terms as [|t l IH]; [reflexivity|].
      cbn [filter]. rewrite (H t (or_introl eq_refl)). cbn [negb].
      apply IH. intros u Hu. apply H. now right.
Qed.

Lemma appended_terms_are_the_missing_terms_witness :
  build_text_query "Tennis Court" ["tennis"; "court"] = strip "Tennis Court".
Proof.
  apply (proj2 (proj2 (appended_terms_are_the_missing_terms "Tennis Court"
                         ["tennis"; "court"]))).
  - discriminate.
  - intros t [<-|[<-|[]]]; reflexivity.
Defined.

End QueryFacts.

(** ** What the groups hold *)

Module GroupingMore.
Import Text Json Grouping Shapes Notions Samples TextFacts GroupingFacts.

Section Filing.

Variable date_of : obj -> json.

(** *** Where an object is filed *)

Lemma add_member_at d a : forall g,
  ((forall x, In x g -> key_eqb (fst x) d = false)
   /\ add_member d a g = g ++ [(d, [a])])
  \/ exists g1 k ms g2,
       g = g1 ++ (k, ms) :: g2
       /\ key_eqb k d = true
       /\ (forall x, In x g1 -> key_eqb (fst x) d = false)
       /\ add_member d a g = g1 ++ (k, ms ++ [a]) :: g2.
Proof.
  induction g as [|[k ms] g IH]; cbn [add_member].
  - left. split; [contradiction | reflexivity].
  - destruct (key_eqb k d) eqn:E.
    + right. exists [], k, ms, g. repeat split; auto. contradiction.
    + destruct IH as [(N & A)|(g1 & k' & ms' & g2 & G & E' & N & A)].
      * left. rewrite A. split; [|reflexivity].
        intros x [<-|Hx]; [exact E | now apply N].
      * right. exists ((k, ms) :: g1), k', ms', g2. rewrite A, G.
        repeat split; auto. intros x [<-|Hx]; [exact E | now apply N].
Qed.

Lemma well_formed_apart g1 k ms g2 d :
  well_formed date_of (g1 ++ (k, ms) :: g2) -> key_eqb k d = true ->
  forall x, In x g2 -> key_eqb (fst x) d = false.
Proof.
  induction g1 as [|[k' ms'] g1 IH]; cbn [app well_formed].
  - intros (_ & D & _) E x Hx. apply key_eqb_apart with (k := k); auto.
    rewrite key_eqb_sym. now apply D.
  - intros (_ & _ & W). now apply IH.
Qed.

Lemma filter_none {A} (p : A -> bool) l :
  (forall x, In x l -> p x = false) -> filter p l = [].
Proof.
  induction l as [|x l IH]; intros H; [reflexivity|].
  cbn [filter]. rewrite (H x (or_introl eq_refl)). apply IH.
  intros y Hy. apply H. now right.
Qed.

Lemma dated_filed k a : dated date_of k a = true -> filed date_of a = true.
Proof.
  destruct a as [| | | | |fs]; cbn [dated filed]; try discriminate.
  intros H. apply andb_prop in H. apply H.
Qed.

Lemma dated_at fs k :
  truthy (date_of fs) = true -> hashable (date_of fs) = true ->
  dated date_of k (JObj fs) = key_eqb k (date_of fs).
Proof. intros T H. cbn [dated]. now rewrite T, H. Qed.

Lemma dated_same k k' a :
  dated date_of k a = true -> dated date_of k' a = true ->
  key_eqb k k' = true.
Proof.
  destruct a as [| | | | |fs]; cbn [dated]; try discriminate.
  intros H H'. apply andb_prop in H, H'. destruct H as (_ & H), H' as (_ & H').
  rewrite key_eqb_sym in H'. now apply key_eqb_trans with (b := date_of fs).
Qed.

(** One turn of the loop keeps the groups in step with the objects gone
    through. *)
Lemma step_tracks g done a g' :
  tracks date_of g done ->
  group_step date_of (Some g) a = Some g' ->
  tracks date_of g' (done ++ [a]).
Proof.
  intros (W & M & C) H.
  assert (Skip : filed date_of a = false -> g' = g ->
                 tracks date_of g' (done ++ [a])).
  { intros F ->. split; [exact W|]. split.
    - intros k ms Hk. rewrite filter_app. cbn [filter].
      destruct (dated date_of k a) eqn:D.
      + apply dated_filed in D. congruence.
      + rewrite app_nil_r. now apply M.
    - intros a' Ha T. apply in_app_or in Ha.
      destruct Ha as [Ha|[<-|[]]]; [now apply C | congruence]. }
  destruct a as [| b | q | s | l | fs]; cbn [group_step bind] in H;
    try (apply Skip; [reflexivity | now injection H]).
  destruct (truthy (date_of fs)) eqn:T;
    [|apply Skip; [cbn [filed]; now rewrite T | now injection H]].
  destruct (hashable (date_of fs)) eqn:Hh; [|discriminate H].
  injection H as <-. clear Skip.
  set (d := date_of fs) in *. set (a := JObj fs).
  assert (Fa : filed_under date_of a d) by (exists fs; auto).
  assert (Da : forall k, dated date_of k a = key_eqb k d).
  { intros k. now apply dated_at. }
  split; [now apply add_member_well_formed|].
  destruct (add_member_at d a g)
    as [(N & A)|(g1 & k & ms & g2 & G & E & N & A)]; rewrite A.
  - split.
    + intros k ms Hk. rewrite filter_app. cbn [filter]. rewrite Da.
      apply in_app_or in Hk. destruct Hk as [Hk|[Hk|[]]].
      * rewrite (N _ Hk : key_eqb k d = false), app_nil_r. now apply M.
      * injection Hk as <- <-. rewrite (key_eqb_refl d Hh).
        rewrite filter_none; [reflexivity|].
        intros a' Ha. destruct (dated date_of d a') eqn:D; [|reflexivity].
        destruct (C a' Ha (dated_filed _ _ D)) as (k & ms & Hk & Dk).
        pose proof (dated_same _ _ _ Dk D) as E.
        now rewrite (N _ Hk : key_eqb k d = false) in E.
    + intros a' Ha F. apply in_app_or in Ha. destruct Ha as [Ha|[<-|[]]].
      * destruct (C a' Ha F) as (k & ms & Hk & Dk).
        exists k, ms. split; [apply in_or_app; now left | exact Dk].
      * exists d, [a]. split; [apply in_or_app; right; now left|].
        rewrite Da. now apply key_eqb_refl.
  - subst g.
    pose proof (well_formed_apart _ _ _ _ _ W E) as N2.
    split.
    + intros k' ms' Hk. rewrite filter_app. cbn [filter]. rewrite Da.
      apply in_app_or in Hk. destruct Hk as [Hk|[Hk|Hk]].
      * rewrite (N _ Hk : key_eqb k' d = false), app_nil_r.
        apply M. apply in_or_app. now left.
      * injection Hk as <- <-. rewrite E. f_equal.
        apply M. apply in_or_app. right. now left.
      * rewrite (N2 _ Hk : key_eqb k' d = false), app_nil_r.
        apply M. apply in_or_app. right. now right.
    + intros a' Ha F. apply in_app_or in Ha. destruct Ha as [Ha|[<-|[]]].
      * destruct (C a' Ha F) as (k' & ms' & Hk & Dk).
        apply in_app_or in Hk. destruct Hk as [Hk|[Hk|Hk]].
        -- exists k', ms'. split; [apply in_or_app; now left | exact Dk].
        -- injection Hk as <- <-. exists k, (ms ++ [a]).
           split; [apply in_or_app; right; now left | exact Dk].
        -- exists k', ms'.
           split; [apply in_or_app; right; now right | exact Dk].
      * exists k, (ms ++ [a]).
        split; [apply in_or_app; right; now left|]. now rewrite Da.
Qed.

Lemma fold_tracks items : forall g done g',
  tracks date_of g done ->
  fold_left (group_step date_of) items (Some g) = Some g' ->
  tracks date_of g' (done ++ items).
Proof.
  induction items as [|a l IH]; intros g done g' T H; cbn [fold_left] in H.
  - injection H as <-. now rewrite app_nil_r.
  - destruct (group_step date_of (Some g) a) as [g1|] eqn:E.
    + change (a :: l) with ([a] ++ l). rewrite app_assoc.
      apply (IH g1); [|assumption]. now apply step_tracks with (g := g).
    + now rewrite fold_step_none in H.
Qed.

Lemma group_by_date_tracks items g :
  group_by_date date_of items = Some g -> tracks date_of g items.
Proof.
  intros H. apply (fold_tracks items [] [] g); [|exact H].
  split; [exact I|]. split; [contradiction | contradiction].
Qed.

Lemma well_formed_members g k ms :
  well_formed date_of g -> In (k, ms) g -> ms <> [].
Proof.
  induction g as [|[k' ms'] g IH]; [contradiction|].
  intros (G & _ & W) [E|H]; [|now apply IH].
  injection E as <- <-. destruct ms'; [contradiction | discriminate].
Qed.

(** *** The sort rearranges *)

Lemma insert_group_permutation x : forall g g',
  insert_group x g = Some g' -> Permutation g' (x :: g).
Proof.
  induction g as [|y g IH]; intros g' H; cbn [insert_group] in H.
  - injection H as <-. reflexivity.
  - destruct (key_leb (fst x) (fst y)) as [[]|]; cbn [bind] in H;
      [| |discriminate].
    + injection H as <-. reflexivity.
    + destruct (insert_group x g) as [r|]; cbn [bind] in H; [|discriminate].
      injection H as <-. rewrite (IH r eq_refl). apply perm_swap.
Qed.

Lemma sort_groups_permutation : forall g g',
  sort_groups g = Some g' -> Permutation g' g.
Proof.
  induction g as [|x g IH]; intros g' H; cbn [sort_groups] in H.
  - injection H as <-. reflexivity.
  - destruct (sort_groups g) as [s|]; cbn [bind] in H; [|discriminate].
    rewrite (insert_group_permutation _ _ _ H). constructor. now apply IH.
Qed.

Lemma add_member_flatten d a : forall g,
  Permutation (flatten (add_member d a g)) (flatten g ++ [a]).
Proof.
  unfold flatten.
  induction g as [|[k ms] g IH]; cbn [add_member flat_map snd].
  - reflexivity.
  - destruct (key_eqb k d); cbn [flat_map snd].
    + rewrite <- !app_assoc. apply Permutation_app_head.
      apply Permutation_app_comm.
    + rewrite <- app_assoc. now apply Permutation_app_head.
Qed.

Lemma fold_flatten items : forall g g',
  fold_left (group_step date_of) items (Some g) = Some g' ->
  Permutation (flatten g') (flatten g ++ filter (filed date_of) items).
Proof.
  induction items as [|a l IH]; intros g g' H; cbn [fold_left] in H.
  - injection H as <-. cbn [filter]. now rewrite app_nil_r.
  - destruct (step_cases date_of g a) as [E|[E|(d & F & E)]]; rewrite E in H.
    + assert (N : filed date_of a = false).
      { destruct a as [| | | | |fs]; try reflexivity.
        cbn [group_step bind] in E. cbn [filed].
        destruct (truthy (date_of fs)); [|reflexivity].
        destruct (hashable (date_of fs)); [|discriminate E].
        exfalso. injection E as E.
        apply (f_equal (fun x => List.length (flatten x))) in E.
        rewrite (Permutation_length (add_member_flatten _ _ _)) in E.
        rewrite length_app in E. cbn [List.length] in E. lia. }
      cbn [filter]. rewrite N. now apply IH.
    + now rewrite fold_step_none in H.
    + assert (Y : filed date_of a = true).
      { destruct F as (fs & -> & <- & T & Hh). cbn [filed]. now rewrite T, Hh. }
      cbn [filter]. rewrite Y. rewrite (IH _ _ H).
      rewrite (add_member_flatten d a g). rewrite <- app_assoc. reflexivity.
Qed.

End Filing.

(** *** Keys of one kind *)

Lemma sort_one_kind : forall g g' x y q,
  sort_groups g = Some g' -> In x g -> In y g ->
  is_string (fst x) = true -> as_number (fst y) = Some q -> False.
Proof.
  induction g as [|z g IH]; intros g' x y q H Hx Hy Sx Ny; [contradiction|].
  cbn [sort_groups] in H.
  destruct (sort_groups g) as [s|] eqn:S; cbn [bind] in H; [|discriminate].
  pose proof (sort_groups_permutation _ _ S) as P.
  assert (Head : forall w, In w g -> exists h, In h g /\
                   exists b, key_leb (fst z) (fst h) = Some b).
  { intros w Hw. destruct s as [|h s].
    - apply Permutation_nil in P. subst g. contradiction.
    - exists h. split; [apply (Permutation_in _ P); now left|].
      cbn [insert_group] in H.
      destruct (key_leb (fst z) (fst h)) as [b|]; [now exists b|].
      discriminate H. }
  destruct Hx as [<-|Hx], Hy as [<-|Hy].
  - destruct (fst z); discriminate.
  - destruct (Head y Hy) as (h & Hh & b & B).
    apply (IH s h y q eq_refl Hh Hy); [|assumption].
    destruct (fst z); try discriminate Sx.
    destruct (fst h); cbn [key_leb as_number] in B; try discriminate B.
    reflexivity.
  - destruct (Head x Hx) as (h & Hh & b & B).
    destruct (as_number (fst h)) as [r|] eqn:R.
    + now apply (IH s x h r eq_refl Hx Hh).
    + destruct (fst z) as [| | | | |]; cbn [as_number] in Ny;
        try discriminate Ny;
        destruct (fst h); cbn [key_leb as_number] in B, R;
        discriminate.
  - now apply (IH s x y q eq_refl).
Qed.

Lemma well_formed_pairs date_of g :
  well_formed date_of g ->
  ForallOrdPairs (fun x y => key_eqb (fst x) (fst y) = false) g.
Proof.
  induction g as [|[k ms] g IH]; [constructor|].
  intros (_ & D & W). constructor; [|now apply IH].
  apply Forall_forall. exact D.
Qed.

(** X19.  The members of a group are the objects of the input that the
    loop files under a date equal to the date of the group, in the order
    of the input, and there is at least one. *)
Theorem group_holds_its_date_in_input_order (date_of : obj -> json)
    (items : list json) (g : groups) (k : json) (ms : list json) :
  grouped date_of items = Some g -> In (k, ms) g ->
  ms = filter (dated date_of k) items /\ ms <> [].
Proof.
  unfold grouped. intros H Hk.
  destruct (group_by_date date_of items) as [g0|] eqn:G; cbn [bind] in H;
    [|discriminate].
  destruct (group_by_date_tracks _ _ _ G) as (W & M & _).
  apply (in_sort_groups _ _ _ H) in Hk. split; [now apply M|].
  now apply (well_formed_members date_of g0 k).
Qed.

Lemma group_holds_its_date_in_input_order_witness :
  [JObj [("StartTime", JStr "2025-10-07T09:00:00")];
   JObj [("startDate", JStr "2025-10-07"); ("Title", JStr "C")]]
  = filter (dated (availability_date Dates.mdy_to_iso) (JStr "2025-10-07"))
      three_slots.
Proof.
  refine (proj1 (group_holds_its_date_in_input_order
                   (availability_date Dates.mdy_to_iso) three_slots _
                   (JStr "2025-10-07") _ eq_refl _)).
  right. left. reflexivity.
Defined.

(** X20.  The groups hold the filed objects of the input, each as many
    times as the input has it, and the counts of the groups add up to the
    number of filed objects. *)
Theorem filed_objects_are_all_grouped (date_of : obj -> json)
    (items : list json) (g : groups) :
  grouped date_of items = Some g ->
  Permutation (flatten g) (filter (filed date_of) items)
  /\ list_sum (map (fun x => List.length (snd x)) g)
     = List.length (filter (filed date_of) items).
Proof.
  unfold grouped. intros H.
  destruct (group_by_date date_of items) as [g0|] eqn:G; cbn [bind] in H;
    [|discriminate].
  assert (P : Permutation (flatten g) (filter (filed date_of) items)).
  { pose proof (fold_flatten date_of items [] g0 G) as F.
    cbn [flatten flat_map app] in F. rewrite <- F.
    unfold flatten. apply Permutation_flat_map.
    now apply sort_groups_permutation. }
  split; [exact P|].
  rewrite <- (Permutation_length P). unfold flatten.
  now rewrite length_flat_map.
Qed.

Lemma filed_objects_are_all_grouped_witness :
  exists g,
    grouped (availability_date Dates.mdy_to_iso) three_slots = Some g
    /\ Permutation (flatten g)
         (filter (filed (availability_date Dates.mdy_to_iso)) three_slots).
Proof.
  destruct (grouped (availability_date Dates.mdy_to_iso) three_slots)
    as [g|] eqn:E; [|vm_compute in E; discriminate E].
  exists g. split; [reflexivity|].
  exact (proj1 (filed_objects_are_all_grouped _ _ _ E)).
Defined.

Lemma well_formed_in date_of g k ms :
  well_formed date_of g -> In (k, ms) g -> group_ok date_of k ms.
Proof.
  induction g as [|[k' ms'] g IH]; [contradiction|].
  intros (G & _ & W) [E|H]; [|now apply IH].
  now injection E as <- <-.
Qed.

(** Where no object of the input has a number as its date, the dates of
    the groups are strings. *)
Lemma tracked_keys_are_strings date_of g items x :
  tracks date_of g items ->
  (forall a, In a items -> number_dated date_of a = false) ->
  In x g -> exists s, fst x = JStr s.
Proof.
  intros (W & M & _) N Hx. destruct x as [k ms]. cbn [fst].
  pose proof (well_formed_in _ _ _ _ W Hx) as G.
  pose proof (M k ms Hx) as E.
  destruct ms as [|m ms]; [contradiction|].
  destruct G as ((fs & -> & D & T & H) & _).
  assert (Hm : In (JObj fs) items).
  { assert (I : In (JObj fs) (JObj fs :: ms)) by now left.
    rewrite E in I. now apply filter_In in I. }
  specialize (N _ Hm). cbn [number_dated] in N. rewrite D in N.
  destruct k as [| b | q | s | l | o]; cbn [truthy hashable as_number] in *;
    try discriminate.
  now exists s.
Qed.

Lemma string_keys_of (g : groups) :
  (forall x, In x g -> exists s, fst x = JStr s) ->
  exists ks, map fst g = map JStr ks.
Proof.
  induction g as [|x g IH]; intros H.
  - now exists [].
  - destruct (H x (or_introl eq_refl)) as (s & E).
    destruct IH as (ks & K); [intros y Hy; apply H; now right|].
    exists (s :: ks). cbn [map]. now rewrite E, K.
Qed.

Lemma strings_ascend : forall (g : groups) ks,
  map fst g = map JStr ks -> sorted g ->
  ForallOrdPairs (fun x y => key_eqb (fst x) (fst y) = false) g ->
  ascending ks /\ NoDup ks.
Proof.
  induction g as [|x g IH]; intros [|k ks] E S D; try discriminate E.
  - split; [exact I | constructor].
  - cbn [map] in E. injection E as Ex Eg.
    destruct S as (Sx & S). inversion D as [|? ? Dx Dg]; subst.
    destruct (IH ks Eg S Dg) as (A & N). split.
    + cbn [ascending]. split; [|exact A].
      destruct g as [|y g]; destruct ks as [|k' ks]; try discriminate Eg;
        [exact I|].
      cbn [map] in Eg. injection Eg as Ey _.
      rewrite Ex, Ey in Sx. cbn [key_leb] in Sx.
      assert (Ne : key_eqb (fst x) (fst y) = false).
      { rewrite Forall_forall in Dx. apply Dx. now left. }
      rewrite Ex, Ey in Ne. cbn [key_eqb] in Ne.
      apply String.eqb_neq in Ne.
      unfold String.leb in Sx.
      destruct (String.compare k k') eqn:C; [|reflexivity|discriminate Sx].
      apply String.compare_eq_iff in C. contradiction.
    + constructor; [|exact N]. intros Hk.
      rewrite Forall_forall in Dx.
      assert (Hy : exists y, In y g /\ fst y = JStr k).
      { apply (in_map JStr) in Hk. rewrite <- Eg in Hk.
        apply in_map_iff in Hk. destruct Hk as (y & Ey & Hy). now exists y. }
      destruct Hy as (y & Hy & Ey). specialize (Dx y Hy).
      rewrite Ex, Ey in Dx. cbn [key_eqb] in Dx.
      now rewrite String.eqb_refl in Dx.
Qed.

(** X21.  Where no object of the input has a number as its date, the
    dates of the groups are strings, the groups come out in strictly
    ascending order of these strings by code points, and no two groups
    have the same date. *)
Theorem groups_ascend_without_repeats (date_of : obj -> json)
    (items : list json) (g : groups) :
  (forall a, In a items -> number_dated date_of a = false) ->
  grouped date_of items = Some g ->
  exists ks, map fst g = map JStr ks /\ ascending ks /\ NoDup ks.
Proof.
  unfold grouped. intros N H.
  destruct (group_by_date date_of items) as [g0|] eqn:G; cbn [bind] in H;
    [|discriminate].
  pose proof (group_by_date_tracks _ _ _ G) as T.
  destruct (string_keys_of g) as (ks & K).
  { intros x Hx. apply (tracked_keys_are_strings date_of g0 items); auto.
    now apply (in_sort_groups g0 g). }
  exists ks. split; [exact K|].
  apply (strings_ascend g ks K); [now apply (sort_sorted g0)|].
  apply (well_formed_pairs date_of).
  apply (sort_well_formed date_of g0); [|assumption].
  apply T.
Qed.

Lemma groups_ascend_without_repeats_witness :
  exists g ks,
    grouped (availability_date Dates.mdy_to_iso) three_slots = Some g
    /\ map fst g = map JStr ks /\ ascending ks /\ NoDup ks.
Proof.
  destruct (grouped (availability_date Dates.mdy_to_iso) three_slots)
    as [g|] eqn:E; [|vm_compute in E; discriminate E].
  destruct (groups_ascend_without_repeats
              (availability_date Dates.mdy_to_iso) three_slots g)
    as (ks & K); [|exact E|].
  - intros a [<-|[<-|[<-|[]]]]; reflexivity.
  - exists g, ks. split; [reflexivity | exact K].
Defined.

(** X22.  When one object of the input is filed under a string and another
    under a number, the sort of the groups raises. *)
Theorem mixed_date_kinds_raise (date_of : obj -> json)
    (items : list json) (fa fb : obj) (s : string) (q : Q) :
  In (JObj fa) items -> In (JObj fb) items ->
  date_of fa = JStr s -> s <> EmptyString ->
  date_of fb = JNum q -> ~ (q == 0)%Q ->
  grouped date_of items = None.
Proof.
  intros Ha Hb Da Ns Db Nq. unfold grouped.
  destruct (group_by_date date_of items) as [g0|] eqn:G; cbn [bind];
    [|reflexivity].
  destruct (sort_groups g0) as [g|] eqn:S; [|reflexivity]. exfalso.
  destruct (group_by_date_tracks _ _ _ G) as (_ & _ & C).
  destruct (C (JObj fa) Ha) as (k1 & m1 & H1 & D1).
  { cbn [filed]. rewrite Da. cbn [truthy hashable].
    destruct s; [congruence | reflexivity]. }
  destruct (C (JObj fb) Hb) as (k2 & m2 & H2 & D2).
  { cbn [filed]. rewrite Db. cbn [truthy hashable]. rewrite andb_true_r.
    apply negb_true_iff. destruct (Qeq_bool q 0) eqn:Z; [|reflexivity].
    apply Qeq_bool_iff in Z. contradiction. }
  cbn [dated] in D1, D2. rewrite Da in D1. rewrite Db in D2.
  apply andb_prop in D1, D2. destruct D1 as (_ & D1), D2 as (_ & D2).
  destruct (as_number k2) as [r|] eqn:R.
  - apply (sort_one_kind g0 g (k1, m1) (k2, m2) r S H1 H2); [|exact R].
    cbn [fst]. destruct k1; cbn [key_eqb as_number] in D1;
      try discriminate D1; reflexivity.
  - destruct k2 as [| | | | |]; cbn [key_eqb as_number] in D2, R;
      discriminate.
Qed.

Lemma mixed_date_kinds_raise_witness :
  grouped (availability_date Dates.mdy_to_iso)
    [JObj [("Date", JStr "2025-10-13")];
     JObj [("Date", JObj [("date", JNum 20251014)])]]
  = None.
Proof.
  apply (mixed_date_kinds_raise _ _
           [("Date", JStr "2025-10-13")]
           [("Date", JObj [("date", JNum 20251014)])]
           "2025-10-13" 20251014).
  - left. reflexivity.
  - right. left. reflexivity.
  - reflexivity.
  - discriminate.
  - reflexivity.
  - discriminate.
Defined.

Lemma fold_unhashable date_of items : forall acc,
  existsb (unhashable_date date_of) items = true ->
  fold_left (group_step date_of) items acc = None.
Proof.
  induction items as [|a l IH]; intros acc H; [discriminate|].
  cbn [existsb] in H. cbn [fold_left]. destruct acc as [g|];
    [|apply fold_step_none].
  destruct (unhashable_date date_of a) eqn:U.
  - destruct a as [| | | | |fs]; try discriminate U. cbn [unhashable_date] in U.
    apply andb_prop in U. destruct U as (T & N).
    apply negb_true_iff in N. cbn [group_step bind]. rewrite T, N.
    apply fold_step_none.
  - cbn [orb] in H. now apply IH.
Qed.

(** X23.  When an object of the input has a date that is true and is a
    list or a dictionary, the grouping loop raises. *)
Theorem unhashable_date_raises (date_of : obj -> json) (items : list json) :
  existsb (unhashable_date date_of) items = true ->
  grouped date_of items = None.
Proof.
  intros H. unfold grouped, group_by_date.
  now rewrite (fold_unhashable date_of items (Some []) H).
Qed.

Lemma unhashable_date_raises_witness :
  grouped event_date
    [JObj [("localDate", JStr "2025-10-13")];
     JObj [("start", JObj [("date", JArr [JStr "2025-10-14"])])]]
  = None.
Proof. apply unhashable_date_raises. reflexivity. Defined.

(** X24.  When the first event is a dictionary whose [facility] is no
    dictionary, printing the sample raises and [parse_agenda_data] returns
    nothing, whatever the other events are. *)
Theorem sample_of_first_event_can_raise (calendar_data : json) (fs : obj)
    (rest : list json) (v : json) :
  py_in "error" calendar_data = Some false ->
  extract_events calendar_data = JArr (JObj fs :: rest) ->
  lookup "facility" fs = Some v -> (forall o, v <> JObj o) ->
  parse_agenda_data calendar_data = None.
Proof.
  intros E X F N. unfold parse_agenda_data. rewrite E. cbn [bind].
  rewrite X. unfold parse_items.
  cbn [py_len bind truthy negb py_first sample_event]. rewrite F.
  destruct v; try reflexivity. now destruct (N fields).
Qed.

Lemma sample_of_first_event_can_raise_witness :
  parse_agenda_data
    (JObj [("events",
            JArr [JObj [("localDate", JStr "2025-10-13");
                        ("facility", JStr "Court 1")]])])
  = None.
Proof.
  apply (sample_of_first_event_can_raise _
           [("localDate", JStr "2025-10-13"); ("facility", JStr "Court 1")]
           [] (JStr "Court 1")); try reflexivity.
  intros o. discriminate.
Defined.

End GroupingMore.

(** ** The facilities of the Xplor configuration *)

Module XplorConfigFacts.
Import Text Json XplorConfig Samples.

Lemma find_app {A} (p : A -> bool) a b :
  List.find p (a ++ b)
  = match List.find p a with Some x => Some x | None => List.find p b end.
Proof.
  induction a as [|x a IH]; [reflexivity|].
  cbn [app List.find]. destruct (p x); [reflexivity | exact IH].
Qed.

Lemma find_none_existsb {A} (p : A -> bool) l :
  List.find p l = None -> existsb p l = false.
Proof.
  induction l as [|x l IH]; [reflexivity|].
  cbn [List.find existsb]. destruct (p x); [discriminate | exact IH].
Qed.

Lemma find_some_existsb {A} (p : A -> bool) l x :
  List.find p l = Some x -> existsb p l = true.
Proof.
  intros H. apply find_some in H. apply existsb_exists. now exists x.
Qed.

(** The first hit in the lists of a list of owners is the first hit in
    the list of the first owner that has one. *)
Lemma find_flat_map {A B} (p : B -> bool) (f : A -> list B) l :
  List.find p (flat_map f l)
  = match List.find (fun c => existsb p (f c)) l with
    | Some c => List.find p (f c)
    | None => None
    end.
Proof.
  induction l as [|c l IH]; [reflexivity|].
  cbn [flat_map List.find]. rewrite find_app.
  destruct (List.find p (f c)) as [x|] eqn:E.
  - now rewrite (find_some_existsb _ _ _ E), E.
  - now rewrite (find_none_existsb _ _ E).
Qed.

Lemma flat_map_twice {A B C} (f : B -> list C) (g : A -> list B) l :
  flat_map f (flat_map g l) = flat_map (fun x => flat_map f (g x)) l.
Proof.
  induction l as [|x l IH]; [reflexivity|].
  cbn [flat_map]. now rewrite flat_map_app, IH.
Qed.

Lemma list_facilities_by_city cfg :
  list_facilities cfg = flat_map city_facilities (flat_map state_cities cfg).
Proof. unfold list_facilities. now rewrite flat_map_twice. Qed.

Lemma hd_error_find {A} (l : list A) :
  List.hd_error l = List.find (fun _ => true) l.
Proof. destruct l; reflexivity. Qed.

Lemma get_facility_find cfg facility_name :
  get_facility cfg facility_name
  = List.find (wanted facility_name) (list_facilities cfg).
Proof.
  destruct facility_name as [n|]; [reflexivity | apply hd_error_find].
Qed.

(** X25.  The facility that [get_facility] returns is listed by the city
    that [get_city_for_facility] returns for the same name, as that city's
    first facility of the name: after [get_facility] has returned, the
    fall-back to the first city is not taken. *)
Theorem facility_belongs_to_its_city (cfg : config)
    (facility_name : option string) (f : facility) :
  get_facility cfg facility_name = Some f ->
  exists c,
    get_city_for_facility cfg facility_name = Some c
    /\ List.find (wanted facility_name) (city_facilities c) = Some f
    /\ In c (flat_map state_cities cfg).
Proof.
  rewrite get_facility_find, list_facilities_by_city, find_flat_map.
  unfold get_city_for_facility.
  destruct (List.find _ (flat_map state_cities cfg)) as [c|] eqn:E;
    [|discriminate].
  intros H. exists c. split; [reflexivity|]. split; [exact H|].
  now apply find_some in E.
Qed.

Lemma facility_belongs_to_its_city_witness :
  exists c,
    get_city_for_facility two_city_config (Some "RINCONADA PARK") = Some c
    /\ List.find (wanted (Some "RINCONADA PARK")) (city_facilities c)
       = Some rinconada
    /\ In c (flat_map state_cities two_city_config).
Proof.
  apply facility_belongs_to_its_city. reflexivity.
Defined.

(** X26.  For a name that no facility has, [get_facility] raises, while
    [get_city_for_facility] returns the first city of the first state. *)
Theorem unknown_facility_still_has_a_city (cfg : config) (n : string) :
  (forall f, In f (list_facilities cfg) -> named n f = false) ->
  get_facility cfg (Some n) = None
  /\ get_city_for_facility cfg (Some n)
     = match cfg with
       | st :: _ => List.hd_error (state_cities st)
       | [] => None
       end.
Proof.
  intros H.
  assert (N : List.find (named n) (list_facilities cfg) = None).
  { destruct (List.find (named n) (list_facilities cfg)) as [f|] eqn:E;
      [|reflexivity].
    apply find_some in E. destruct E as (Hf & E).
    now rewrite (H f Hf) in E. }
  split; [exact N|].
  rewrite list_facilities_by_city, find_flat_map in N.
  unfold get_city_for_facility. cbn [wanted].
  destruct (List.find _ (flat_map state_cities cfg)) as [c|] eqn:E;
    [|reflexivity].
  apply find_some in E. destruct E as (_ & E).
  apply existsb_exists in E. destruct E as (f & Hf & E).
  apply find_none with (x := f) in N; [congruence | exact Hf].
Qed.

Lemma unknown_facility_still_has_a_city_witness :
  get_facility two_city_config (Some "Kelly Park") = None
  /\ get_city_for_facility two_city_config (Some "Kelly Park")
     = Some (mkCity [("name", JStr "Menlo Park")] [nealon; burgess]).
Proof.
  apply (unknown_facility_still_has_a_city two_city_config "Kelly Park").
  intros f [<-|[<-|[<-|[]]]]; reflexivity.
Defined.

End XplorConfigFacts.

(** ** The date range *)

Module RangeFacts.
Import Text Json Grouping Shapes Notions Samples TextFacts GroupingFacts
  GroupingMore.

(** *** The order of keys *)

Lemma ascii_compare_lt_trans a b c :
  Ascii.compare a b = Lt -> Ascii.compare b c = Lt -> Ascii.compare a c = Lt.
Proof.
  unfold Ascii.compare. rewrite !N.compare_lt_iff. apply N.lt_trans.
Qed.

Lemma string_compare_lt_trans : forall a b c,
  String.compare a b = Lt -> String.compare b c = Lt ->
  String.compare a c = Lt.
Proof.
  induction a as [|x a IH]; intros [|y b] [|z c]; cbn [String.compare];
    try discriminate; try reflexivity.
  destruct (Ascii.compare x y) eqn:XY; try discriminate;
    destruct (Ascii.compare y z) eqn:YZ; try discriminate.
  - apply Ascii.compare_eq_iff in XY, YZ. subst.
    replace (Ascii.compare z z) with Eq
      by (symmetry; unfold Ascii.compare; apply N.compare_refl).
    apply IH.
  - apply Ascii.compare_eq_iff in XY. subst. now rewrite YZ.
  - apply Ascii.compare_eq_iff in YZ. subst. now rewrite XY.
  - now rewrite (ascii_compare_lt_trans _ _ _ XY YZ).
Qed.

Lemma string_compare_refl s : String.compare s s = Eq.
Proof.
  pose proof (String.compare_antisym s s) as A.
  destruct (String.compare s s); [reflexivity| |]; discriminate A.
Qed.

Lemma string_leb_trans a b c :
  String.leb a b = true -> String.leb b c = true -> String.leb a c = true.
Proof.
  unfold String.leb.
  destruct (String.compare a b) eqn:AB; try discriminate;
    destruct (String.compare b c) eqn:BC; try discriminate; intros _ _.
  - apply String.compare_eq_iff in AB, BC. subst.
    now rewrite string_compare_refl.
  - apply String.compare_eq_iff in AB. subst. now rewrite BC.
  - apply String.compare_eq_iff in BC. subst. now rewrite AB.
  - now rewrite (string_compare_lt_trans _ _ _ AB BC).
Qed.

Lemma string_ltb_leb s t : String.ltb s t = negb (String.leb t s).
Proof.
  unfold String.ltb, String.leb. rewrite (String.compare_antisym t s).
  destruct (String.compare s t); reflexivity.
Qed.

Lemma some_eq {A} (x y : A) : Some x = Some y -> x = y.
Proof. congruence. Qed.

Lemma key_leb_trans a b c :
  key_leb a b = Some true -> key_leb b c = Some true ->
  key_leb a c = Some true.
Proof.
  destruct a as [| [] | p | s | l | fs], b as [| [] | q | t | l' | fs'];
    cbn [key_leb as_number]; try discriminate;
    destruct c as [| [] | r | u | l'' | fs'']; cbn [key_leb as_number];
    try discriminate;
    intros H1 H2; apply some_eq in H1, H2; f_equal;
    first [ now apply string_leb_trans with (b := t)
          | apply Qle_bool_iff in H1, H2; apply Qle_bool_iff;
            apply (Qle_trans _ _ _ H1 H2) ].
Qed.

Lemma key_leb_antisym a b :
  key_leb a b = Some true -> key_leb b a = Some true -> key_eqb a b = true.
Proof.
  destruct a as [| [] | p | s | l | fs], b as [| [] | q | t | l' | fs'];
    cbn [key_leb key_eqb as_number]; try discriminate;
    intros H1 H2; apply some_eq in H1, H2;
    first [ apply String.eqb_eq; now apply String.leb_antisym
          | apply Qle_bool_iff in H1, H2; apply Qeq_bool_iff;
            now apply Qle_antisym ].
Qed.

Lemma key_ltb_leb a b : key_ltb a b = option_map negb (key_leb b a).
Proof.
  destruct a as [| [] | p | s | l | fs], b as [| [] | q | t | l' | fs'];
    cbn [key_ltb key_leb as_number option_map]; try reflexivity.
  now rewrite string_ltb_leb.
Qed.

Lemma key_leb_refl d :
  truthy d = true -> hashable d = true -> key_leb d d = Some true.
Proof.
  destruct d as [| [] | q | s | l | fs];
    cbn [truthy hashable key_leb as_number]; try discriminate; intros _ _;
    f_equal;
    first [ reflexivity
          | apply Qle_bool_iff; apply Qle_refl
          | unfold String.leb; now rewrite string_compare_refl ].
Qed.

(** *** The least and the greatest key *)

Lemma py_min_least : forall ks cur,
  (forall a b, In a (cur :: ks) -> In b (cur :: ks) ->
               exists r, key_leb a b = Some r) ->
  key_leb cur cur = Some true ->
  exists m, py_min cur ks = Some m /\ In m (cur :: ks)
            /\ forall k, In k (cur :: ks) -> key_leb m k = Some true.
Proof.
  induction ks as [|k ks IH]; intros cur Cmp Refl; cbn [py_min].
  - exists cur. split; [reflexivity|]. split; [now left|].
    intros k [<-|[]]. exact Refl.
  - rewrite key_ltb_leb.
    destruct (Cmp cur k (or_introl eq_refl) (or_intror (or_introl eq_refl)))
      as (r & R).
    rewrite R. cbn [option_map bind].
    destruct r; cbn [negb].
    + destruct (IH cur) as (m & M & Hm & Least).
      * intros a b Ha Hb. apply Cmp.
        -- destruct Ha as [<-|Ha]; [now left | right; now right].
        -- destruct Hb as [<-|Hb]; [now left | right; now right].
      * exact Refl.
      * exists m. split; [exact M|]. split.
        -- destruct Hm as [<-|Hm]; [now left | right; now right].
        -- intros k' [<-|[<-|Hk]].
           ++ apply Least. now left.
           ++ apply key_leb_trans with (b := cur); [|exact R].
              apply Least. now left.
           ++ apply Least. now right.
    + pose proof (key_leb_total _ _ R) as R'.
      destruct (IH k) as (m & M & Hm & Least).
      * intros a b Ha Hb. apply Cmp; now right.
      * destruct (Cmp k k) as ([] & K);
          [right; now left | right; now left | exact K|].
        now rewrite (key_leb_total _ _ K) in K.
      * exists m. split; [exact M|]. split; [now right|].
        intros k' [<-|[<-|Hk]].
        -- apply key_leb_trans with (b := k); [|exact R'].
           apply Least. now left.
        -- apply Least. now left.
        -- apply Least. now right.
Qed.

Lemma py_max_greatest : forall ks cur,
  (forall a b, In a (cur :: ks) -> In b (cur :: ks) ->
               exists r, key_leb a b = Some r) ->
  key_leb cur cur = Some true ->
  exists m, py_max cur ks = Some m /\ In m (cur :: ks)
            /\ forall k, In k (cur :: ks) -> key_leb k m = Some true.
Proof.
  induction ks as [|k ks IH]; intros cur Cmp Refl; cbn [py_max].
  - exists cur. split; [reflexivity|]. split; [now left|].
    intros k [<-|[]]. exact Refl.
  - rewrite key_ltb_leb.
    destruct (Cmp k cur (or_intror (or_introl eq_refl)) (or_introl eq_refl))
      as (r & R).
    rewrite R. cbn [option_map bind].
    destruct r; cbn [negb].
    + destruct (IH cur) as (m & M & Hm & Most).
      * intros a b Ha Hb. apply Cmp.
        -- destruct Ha as [<-|Ha]; [now left | right; now right].
        -- destruct Hb as [<-|Hb]; [now left | right; now right].
      * exact Refl.
      * exists m. split; [exact M|]. split.
        -- destruct Hm as [<-|Hm]; [now left | right; now right].
        -- intros k' [<-|[<-|Hk]].
           ++ apply Most. now left.
           ++ apply key_leb_trans with (b := cur); [exact R|].
              apply Most. now left.
           ++ apply Most. now right.
    + pose proof (key_leb_total _ _ R) as R'.
      destruct (IH k) as (m & M & Hm & Most).
      * intros a b Ha Hb. apply Cmp; now right.
      * destruct (Cmp k k) as ([] & K);
          [right; now left | right; now left | exact K|].
        now rewrite (key_leb_total _ _ K) in K.
      * exists m. split; [exact M|]. split; [now right|].
        intros k' [<-|[<-|Hk]].
        -- apply key_leb_trans with (b := k); [exact R'|].
           apply Most. now left.
        -- apply Most. now left.
        -- apply Most. now right.
Qed.

Lemma sorted_first_least : forall rest x,
  sorted (x :: rest) -> key_leb (fst x) (fst x) = Some true ->
  forall y, In y (x :: rest) -> key_leb (fst x) (fst y) = Some true.
Proof.
  induction rest as [|z rest IH]; intros x S Refl y Hy.
  - destruct Hy as [<-|[]]. exact Refl.
  - destruct S as (L & S). destruct Hy as [<-|Hy]; [exact Refl|].
    apply key_leb_trans with (b := fst z); [exact L|].
    apply (IH z S); [|exact Hy].
    destruct (fst x) as [| [] | p | s | l | fs],
             (fst z) as [| [] | q | t | l' | fs'];
      cbn [key_leb as_number] in L |- *; try discriminate L; f_equal;
      first [ reflexivity
            | apply Qle_bool_iff; apply Qle_refl
            | unfold String.leb; now rewrite string_compare_refl ].
Qed.

Lemma last_skip {A} (l : list A) : forall z x, last (z :: l) x = last l z.
Proof.
  induction l as [|w l IH]; intros z x; [reflexivity|].
  change (last (z :: w :: l) x) with (last (w :: l) x).
  now rewrite (IH w x), (IH w z).
Qed.

Lemma sorted_last_greatest : forall rest x,
  sorted (x :: rest) ->
  (forall y, In y (x :: rest) -> key_leb (fst y) (fst y) = Some true) ->
  forall y, In y (x :: rest) ->
            key_leb (fst y) (fst (last rest x)) = Some true.
Proof.
  induction rest as [|z rest IH]; intros x S Refl y Hy.
  - destruct Hy as [<-|[]]. cbn [last]. apply Refl. now left.
  - destruct S as (L & S).
    assert (E : last (z :: rest) x = last rest z) by apply last_skip.
    rewrite E.
    assert (T : forall y', In y' (z :: rest) ->
                  key_leb (fst y') (fst (last rest z)) = Some true).
    { apply (IH z S). intros y' H'. apply Refl. now right. }
    destruct Hy as [<-|Hy]; [|now apply T].
    apply key_leb_trans with (b := fst z); [exact L|].
    apply T. now left.
Qed.

Lemma in_last {A} (l : list A) : forall x, In (last l x) (x :: l).
Proof.
  induction l as [|z l IH]; intros x; [now left|].
  rewrite last_skip. right. apply IH.
Qed.

(** *** The keys of the groups *)

Lemma well_formed_keys date_of g x :
  well_formed date_of g -> In x g ->
  truthy (fst x) = true /\ hashable (fst x) = true.
Proof.
  induction g as [|[k ms] g IH]; [contradiction|].
  intros (G & _ & W) [<-|H]; [|now apply IH].
  destruct ms as [|m ms]; [contradiction|].
  destruct G as ((fs & _ & _ & T & H) & _). auto.
Qed.

Lemma well_formed_unique date_of g x y :
  well_formed date_of g -> In x g -> In y g ->
  key_eqb (fst x) (fst y) = true -> x = y.
Proof.
  induction g as [|[k ms] g IH]; [contradiction|].
  intros (_ & D & W) [<-|Hx] [<-|Hy] E; cbn [fst] in E.
  - reflexivity.
  - now rewrite (D y Hy) in E.
  - rewrite key_eqb_sym in E. now rewrite (D x Hx) in E.
  - now apply IH.
Qed.

Lemma sorted_keys_compare date_of g g' x y :
  well_formed date_of g -> sort_groups g = Some g' -> In x g -> In y g ->
  exists r, key_leb (fst x) (fst y) = Some r.
Proof.
  intros W S Hx Hy.
  destruct (well_formed_keys _ _ _ W Hx) as (Tx & Xh).
  destruct (well_formed_keys _ _ _ W Hy) as (Ty & Yh).
  pose proof (sort_one_kind g g' x y) as XY.
  pose proof (sort_one_kind g g' y x) as YX.
  destruct (fst x) as [| [] | p | s | l | fs];
    cbn [truthy hashable] in Tx, Xh; try discriminate;
    destruct (fst y) as [| [] | q | t | l' | fs'];
    cbn [truthy hashable] in Ty, Yh; try discriminate;
    cbn [key_leb as_number]; eauto;
    exfalso;
    first [ now apply (XY _ S Hx Hy eq_refl eq_refl)
          | now apply (YX _ S Hy Hx eq_refl eq_refl) ].
Qed.

(** X27.  Where no object of the input has a number as its date, so that
    the dates of the groups are strings, the date range that the parsers
    report runs from the date of the first group to the date of the last
    group of the sorted list. *)
Theorem range_runs_from_first_to_last_group (date_of : obj -> json)
    (items : list json) (by_date : groups) (x : json * list json)
    (rest : groups) :
  (forall a, In a items -> number_dated date_of a = false) ->
  group_by_date date_of items = Some by_date ->
  sort_groups by_date = Some (x :: rest) ->
  (exists first last_date,
      fst x = JStr first /\ fst (last rest x) = JStr last_date)
  /\ date_range by_date
     = Some (JObj [("start", fst x); ("end", fst (last rest x))]).
Proof.
  intros Strings G S.
  split.
  { pose proof (group_by_date_tracks _ _ _ G) as T.
    destruct (tracked_keys_are_strings date_of by_date items x T Strings)
      as (first & E1).
    { apply (in_sort_groups by_date (x :: rest) x S). now left. }
    destruct (tracked_keys_are_strings date_of by_date items (last rest x)
                T Strings) as (last_date & E2).
    { apply (in_sort_groups by_date (x :: rest) _ S). apply in_last. }
    now exists first, last_date. }
  assert (W : well_formed date_of by_date).
  { apply (fold_well_formed date_of items []); [exact I | exact G]. }
  pose proof (sort_sorted _ _ S) as Sg.
  pose proof (sort_groups_permutation _ _ S) as P.
  assert (Back : forall y, In y (x :: rest) -> In y by_date).
  { intros y. apply (Permutation_in _ P). }
  assert (Forth : forall y, In y by_date -> In y (x :: rest)).
  { intros y. apply (Permutation_in _ (Permutation_sym P)). }
  assert (Refl : forall y, In y by_date ->
                   key_leb (fst y) (fst y) = Some true).
  { intros y Hy. destruct (well_formed_keys _ _ _ W Hy).
    now apply key_leb_refl. }
  assert (Cmp : forall a b, In a (map fst by_date) -> In b (map fst by_date) ->
                  exists r, key_leb a b = Some r).
  { intros a b Ha Hb. apply in_map_iff in Ha, Hb.
    destruct Ha as (xa & <- & Ha), Hb as (xb & <- & Hb).
    now apply (sorted_keys_compare date_of by_date (x :: rest)). }
  unfold date_range.
  destruct by_date as [|[k0 m0] r0].
  { apply Permutation_sym, Permutation_nil in P. discriminate P. }
  cbn [map fst] in *.
  destruct (py_min_least (map fst r0) k0 Cmp) as (lo & Lo & Hlo & Least).
  { apply (Refl (k0, m0)). now left. }
  destruct (py_max_greatest (map fst r0) k0 Cmp) as (hi & Hi & Hhi & Most).
  { apply (Refl (k0, m0)). now left. }
  rewrite Lo, Hi. cbn [bind].
  change (k0 :: map fst r0) with (map fst ((k0, m0) :: r0)) in *.
  apply in_map_iff in Hlo, Hhi.
  destruct Hlo as (xlo & <- & Hlo), Hhi as (xhi & <- & Hhi).
  assert (E1 : xlo = x).
  { apply (well_formed_unique date_of _ _ _ W Hlo); [apply Back; now left|].
    apply key_leb_antisym.
    - apply Least. apply in_map. apply Back. now left.
    - apply (sorted_first_least rest x Sg); [|now apply Forth].
      apply Refl. apply Back. now left. }
  assert (E2 : xhi = last rest x).
  { apply (well_formed_unique date_of _ _ _ W Hhi);
      [apply Back; apply in_last|].
    apply key_leb_antisym.
    - apply (sorted_last_greatest rest x Sg); [|now apply Forth].
      intros y Hy. apply Refl. now apply Back.
    - apply Most. apply in_map. apply Back. apply in_last. }
  now rewrite E1, E2.
Qed.

Lemma range_runs_from_first_to_last_group_witness :
  date_range
    [(JStr "2025-10-07",
      [JObj [("StartTime", JStr "2025-10-07T09:00:00")];
       JObj [("startDate", JStr "2025-10-07"); ("Title", JStr "C")]]);
     (JStr "2025-10-06",
      [JObj [("Date", JStr "2025-10-06"); ("Title", JStr "B")]])]
  = Some (JObj [("start", JStr "2025-10-06"); ("end", JStr "2025-10-07")]).
Proof.
  refine (proj2 (range_runs_from_first_to_last_group
                   (availability_date Dates.mdy_to_iso) three_slots _ _ _
                   _ eq_refl eq_refl)).
  intros a [<-|[<-|[<-|[]]]]; reflexivity.
Defined.

End RangeFacts.

(** ** Enriching twice *)

Module EnrichAgain.
Import Text Json Places Shapes Notions Samples TextFacts PlacesFacts.

Local Open Scope Q_scope.

Section Again.

Variable L : library.
Variable api : places_api.

(** [attach] reads the record only to copy it. *)
Lemma attach_reads cfg r best :
  attach L api cfg r best
  = match option_map google
            (attach L api cfg
               (mkVenue (name r) (lat r) (lon r) None []) best) with
    | None => None
    | Some None => Some r
    | Some (Some e) =>
        Some (mkVenue (name r) (lat r) (lon r) (Some e) (other r))
    end.
Proof.
  unfold attach. destruct best as [[[p|] s] m]; [|reflexivity].
  destruct (place_truthy p && Qle_bool (threshold cfg) s); [|reflexivity].
  destruct (place_id p) as [pid|]; cbn [bind option_map]; [|reflexivity].
  destruct (details_get (get_place_details api pid) "displayName" (JObj []));
    cbn [bind option_map]; [|reflexivity].
  destruct (details_get (get_place_details api pid) "formattedAddress" JNull);
    cbn [bind option_map]; [|reflexivity].
  destruct (details_get (get_place_details api pid) "accessibilityOptions"
              (JObj []));
    cbn [bind option_map]; reflexivity.
Qed.

(** The turn of the loop reads the name and the coordinates of the record,
    and copies the rest. *)
Lemma enrich_record_reads cfg r :
  enrich_record L api cfg r
  = match option_map google
            (enrich_record L api cfg
               (mkVenue (name r) (lat r) (lon r) None [])) with
    | None => None
    | Some None => Some r
    | Some (Some e) =>
        Some (mkVenue (name r) (lat r) (lon r) (Some e) (other r))
    end.
Proof.
  unfold enrich_record. cbn [name lat lon].
  destruct (choose_best_match L (name r) (lat r) (lon r)
              (places_nearby api (lat r) (lon r) (radius_m cfg) (keyword cfg))
              (prefer_distance cfg) (or_empty (prefer_types cfg))
              (or_empty (avoid_name_terms cfg))) as [[[p|] s] [m|]];
    try apply attach_reads.
  destruct (place_truthy p && Qle_bool m (accept_within_m cfg));
    [apply attach_reads|].
  destruct (place_truthy p && negb (Qle_bool m (hard_reject_over_m cfg)));
    [reflexivity | apply attach_reads].
Qed.

Lemma enrich_record_again cfg r o :
  enrich_record L api cfg r = Some o -> enrich_record L api cfg o = Some o.
Proof.
  intros H. rewrite enrich_record_reads in H. rewrite enrich_record_reads.
  destruct (option_map google
              (enrich_record L api cfg
                 (mkVenue (name r) (lat r) (lon r) None [])))
    as [[e|]|] eqn:V; [| |discriminate H].
  - injection H as <-. cbn [name lat lon other]. rewrite V. reflexivity.
  - injection H as <-. rewrite V. reflexivity.
Qed.

End Again.

(** X28.  Given the same answers of the Places service, enriching the
    output of [enrich] again returns it unchanged. *)
Theorem enriching_again_changes_nothing (L : library) (api : places_api)
    (cfg : config) (records out : list venue) :
  enrich L api cfg records = Some out -> enrich L api cfg out = Some out.
Proof.
  revert out. induction records as [|r records IH]; intros out H;
    cbn [enrich] in H.
  - injection H as <-. reflexivity.
  - destruct (enrich_record L api cfg r) as [o|] eqn:E; cbn [bind] in H;
      [|discriminate].
    destruct (enrich L api cfg records) as [out'|]; cbn [bind] in H;
      [|discriminate].
    injection H as <-. cbn [enrich].
    rewrite (enrich_record_again L api cfg r o E). cbn [bind].
    rewrite (IH out' eq_refl). reflexivity.
Qed.

Lemma enriching_again_changes_nothing_witness :
  exists out,
    enrich toy_library near_api default_config [ray_park; ray_park] = Some out
    /\ enrich toy_library near_api default_config out = Some out.
Proof.
  destruct (enrich toy_library near_api default_config [ray_park; ray_park])
    as [out|] eqn:E; [|vm_compute in E; discriminate E].
  exists out. split; [reflexivity|].
  exact (enriching_again_changes_nothing toy_library near_api default_config
           [ray_park; ray_park] out E).
Defined.

End EnrichAgain.
